(** * klish: the [clish] console client and the KTP transport session

    A shallow embedding of [src/bin/clish.cpp]: the [ktp_session_*]
    functions over a small C heap, and [main] as a program tree over the
    calls it makes to libc and to the clish shell library. *)

From Stdlib Require Import ZArith String Ascii List Lia Bool.
From stdpp Require Import base option list gmap strings.

Open Scope Z_scope.

(** ** Outcomes of a C function call *)

(** A call either returns a value, stops the process in a failed
    [assert], or leaves the model (a read or a free through a pointer
    that does not address a live block of the expected shape). *)
Inductive outcome (A : Type) : Type :=
| Ret (a : A)
| Abort
| Stuck.
Arguments Ret {A} a.
Arguments Abort {A}.
Arguments Stuck {A}.

Module KtpSession.

(** *** Data *)

(** The enumeration lives in a header that is not part of [src/]; the code
    names the first two constants, the third is the remaining state of the
    session state machine. *)
Inductive ktp_session_state_e : Set :=
| KTP_SESSION_STATE_DISCONNECTED
| KTP_SESSION_STATE_NOT_AUTHORIZED
| KTP_SESSION_STATE_AUTHORIZED.

#[global] Instance ktp_session_state_e_eq_dec : EqDecision ktp_session_state_e.
Proof. solve_decision. Defined.

(** Pointers: [None] is [NULL]. *)
Definition loc := positive.
Definition ptr := option loc.
Definition NULL : ptr := None.

(** [faux_net_t] (faux library): the object that carries the descriptor. *)
Record faux_net_t : Set := { fd : Z }.

(** [ktp_session_t] ([private.h]): the two fields the code touches. *)
Record ktp_session_t : Set := {
  state : ktp_session_state_e;
  net : ptr
}.

(** A heap block.  [Bzero] is a session-sized block as [faux_zmalloc]
    leaves it: all bits zero, so its pointer field is [NULL] and its state
    field holds no named constant yet. *)
Inductive block : Set :=
| Bzero
| Bsession (s : ktp_session_t)
| Bnet (n : faux_net_t).

(** The memory and the descriptor table of the process: live blocks, how
    many more blocks the allocator can hand out before it returns [NULL],
    and the descriptors that are open. *)
Record heap : Type := {
  cells : gmap loc block;
  room : nat;
  open_fds : gset Z
}.

(** *** Heap monad *)

Definition M (A : Type) : Type := heap -> outcome A * heap.

Definition ret {A} (a : A) : M A := fun h => (Ret a, h).

Definition bind {A B} (m : M A) (k : A -> M B) : M B :=
  fun h =>
    match m h with
    | (Ret a, h') => k a h'
    | (Abort, h') => (Abort, h')
    | (Stuck, h') => (Stuck, h')
    end.

Notation "'let*' x ':=' m 'in' k" := (bind m (fun x => k))
  (at level 10, x name, m at level 100, k at level 200).
Notation "'run' m 'in' k" := (bind m (fun _ => k))
  (at level 10, m at level 100, k at level 200).

(** [assert(c)]: a no-op when the unit is compiled with [NDEBUG],
    otherwise the process aborts when [c] is false. *)
Definition assert (ndebug : bool) (c : bool) : M unit :=
  fun h => if c || ndebug then (Ret tt, h) else (Abort, h).

Definition is_null (p : ptr) : bool :=
  match p with None => true | Some _ => false end.

(** *** Allocator (faux library) *)

Definition alloc (b : block) : M ptr :=
  fun h =>
    match room h with
    | O => (Ret NULL, h)
    | S r =>
        let l := fresh (dom (cells h)) in
        (Ret (Some l), {| cells := <[l := b]> (cells h); room := r;
                          open_fds := open_fds h |})
    end.

(** [faux_zmalloc(sizeof(ktp_session_t))] *)
Definition faux_zmalloc : M ptr := alloc Bzero.

(** [faux_free(p)]; [free(NULL)] does nothing. *)
Definition faux_free (p : ptr) : M unit :=
  fun h =>
    match p with
    | None => (Ret tt, h)
    | Some l =>
        match cells h !! l with
        | Some _ => (Ret tt, {| cells := delete l (cells h); room := S (room h);
                                open_fds := open_fds h |})
        | None => (Stuck, h)
        end
    end.

(** [faux_net_new()]: a fresh net object without a descriptor, or [NULL]. *)
Definition faux_net_new : M ptr := alloc (Bnet {| fd := -1 |}).

(** [faux_net_set_fd(net, fd)] *)
Definition faux_net_set_fd (n : ptr) (sock : Z) : M unit :=
  fun h =>
    match n with
    | None => (Ret tt, h)
    | Some l =>
        match cells h !! l with
        | Some (Bnet _) =>
            (Ret tt, {| cells := <[l := Bnet {| fd := sock |}]> (cells h);
                        room := room h; open_fds := open_fds h |})
        | _ => (Stuck, h)
        end
    end.

(** [faux_net_get_fd(net)] *)
Definition faux_net_get_fd (n : ptr) : M Z :=
  fun h =>
    match n with
    | None => (Ret (-1), h)
    | Some l =>
        match cells h !! l with
        | Some (Bnet nb) => (Ret (fd nb), h)
        | _ => (Stuck, h)
        end
    end.

(** Modelled from the spec: [faux_net_free(net)], of the faux library,
    which is not in [src/].  The spec has the destruction of a session
    release "the socket and internal buffers", and [faux_net_free] is the
    one call [ktp_session_free] makes on the object that carries the
    socket: it closes the descriptor the object carries and gives the
    object back to the allocator; on [NULL] it does nothing. *)
Definition faux_net_free (n : ptr) : M unit :=
  fun h =>
    match n with
    | None => (Ret tt, h)
    | Some l =>
        match cells h !! l with
        | Some (Bnet nb) =>
            (Ret tt, {| cells := delete l (cells h); room := S (room h);
                        open_fds := open_fds h ∖ {[fd nb]} |})
        | _ => (Stuck, h)
        end
    end.

(** *** Field accesses through a session pointer *)

(** [session->state = st] *)
Definition store_state (l : loc) (st : ktp_session_state_e) : M unit :=
  fun h =>
    match cells h !! l with
    | Some Bzero =>
        (Ret tt, {| cells := <[l := Bsession {| state := st; net := NULL |}]> (cells h);
                    room := room h; open_fds := open_fds h |})
    | Some (Bsession s) =>
        (Ret tt, {| cells := <[l := Bsession {| state := st; net := net s |}]> (cells h);
                    room := room h; open_fds := open_fds h |})
    | _ => (Stuck, h)
    end.

(** [session->net = n] *)
Definition store_net (l : loc) (n : ptr) : M unit :=
  fun h =>
    match cells h !! l with
    | Some (Bsession s) =>
        (Ret tt, {| cells := <[l := Bsession {| state := state s; net := n |}]> (cells h);
                    room := room h; open_fds := open_fds h |})
    | _ => (Stuck, h)
    end.

(** [session->state] and [session->net] *)
Definition load_session (l : loc) : M ktp_session_t :=
  fun h =>
    match cells h !! l with
    | Some (Bsession s) => (Ret s, h)
    | _ => (Stuck, h)
    end.

(** *** The functions of the source *)

(** [ktp_session_t *ktp_session_new(int sock)] *)
Definition ktp_session_new (ndebug : bool) (sock : Z) : M ptr :=
  if sock <? 0 then ret NULL
  else
    let* session := faux_zmalloc in
    run assert ndebug (negb (is_null session)) in
    match session with
    | None => ret NULL
    | Some l =>
        run store_state l KTP_SESSION_STATE_NOT_AUTHORIZED in
        let* n := faux_net_new in
        run store_net l n in
        run assert ndebug (negb (is_null n)) in
        run faux_net_set_fd n sock in
        ret (Some l)
    end.

(** [void ktp_session_free(ktp_session_t *session)] *)
Definition ktp_session_free (session : ptr) : M unit :=
  match session with
  | None => ret tt
  | Some l =>
      let* s := load_session l in
      run faux_net_free (net s) in
      faux_free (Some l)
  end.

(** [bool_t ktp_session_connected(ktp_session_t *session)] *)
Definition ktp_session_connected (ndebug : bool) (session : ptr) : M bool :=
  run assert ndebug (negb (is_null session)) in
  match session with
  | None => ret false
  | Some l =>
      let* s := load_session l in
      if decide (KTP_SESSION_STATE_DISCONNECTED = state s) then ret false
      else ret true
  end.

(** [int ktp_session_get_socket(ktp_session_t *session)];
    [BOOL_FALSE] is the integer 0. *)
Definition ktp_session_get_socket (ndebug : bool) (session : ptr) : M Z :=
  run assert ndebug (negb (is_null session)) in
  match session with
  | None => ret 0
  | Some l =>
      let* s := load_session l in
      faux_net_get_fd (net s)
  end.

(** *** Well-formed sessions *)

(** [p] addresses a live session block whose net pointer is [NULL] or
    addresses a live net object distinct from the session itself. *)
Definition session_at (h : heap) (l : loc) (s : ktp_session_t) : Prop :=
  cells h !! l = Some (Bsession s) /\
  match net s with
  | None => True
  | Some n => exists nb, cells h !! n = Some (Bnet nb)
  end.

(** Sample heaps. *)
Definition empty_heap (r : nat) : heap := {| cells := ∅; room := r; open_fds := ∅ |}.

(** No block yet, room for two, and the connected socket 7 open beside
    the three standard streams. *)
Definition socket_heap : heap :=
  {| cells := ∅; room := 2; open_fds := {[ 0; 1; 2; 7 ]} |}.

Definition one_session (st : ktp_session_state_e) : heap :=
  {| cells := {[ 1%positive := Bsession {| state := st; net := NULL |} ]}; room := 4;
     open_fds := ∅ |}.

(** A session on the open descriptor 5, beside the three standard
    streams. *)
Definition session_with_net : heap :=
  {| cells := <[ 1%positive := Bsession {| state := KTP_SESSION_STATE_AUTHORIZED;
                                           net := Some 2%positive |} ]>
                ({[ 2%positive := Bnet {| fd := 5 |} ]});
     room := 0;
     open_fds := {[ 0; 1; 2; 5 ]} |}.

End KtpSession.

Module Clish.

Open Scope string_scope.

(** *** Build configuration *)

(** What [config.h] and the library headers decide at compile time. *)
Record config : Type := {
  HAVE_LOCALE_H : bool;
  HAVE_LANGINFO_CODESET : bool;
  VERSION : string;
  KONFD_SOCKET_PATH : string
}.

(** *** Hooks *)

(** The callbacks the client can put into a hook slot. *)
Inductive callback : Set :=
| clish_access_callback
| clish_script_callback
| clish_config_callback
| clish_dryrun_callback.

#[global] Instance callback_eq_dec : EqDecision callback.
Proof. solve_decision. Defined.

(** [clish_shell_hooks_t]: the seven positional slots of the initializer;
    [None] is a [NULL] slot. *)
Record clish_shell_hooks_t : Set := {
  init_fn : option callback;
  access_fn : option callback;
  cmd_line_fn : option callback;
  script_fn : option callback;
  fini_fn : option callback;
  config_fn : option callback;
  cmd_list : option (list string)
}.

(** [static clish_shell_hooks_t my_hooks = { ... }] *)
Definition my_hooks : clish_shell_hooks_t := {|
  init_fn := None;
  access_fn := Some clish_access_callback;
  cmd_line_fn := None;
  script_fn := Some clish_script_callback;
  fini_fn := None;
  config_fn := Some clish_config_callback;
  cmd_list := None
|}.

Definition set_script_fn (f : callback) (h : clish_shell_hooks_t) : clish_shell_hooks_t := {|
  init_fn := init_fn h;
  access_fn := access_fn h;
  cmd_line_fn := cmd_line_fn h;
  script_fn := Some f;
  fini_fn := fini_fn h;
  config_fn := config_fn h;
  cmd_list := cmd_list h
|}.

(** *** Streams and signals *)

(** A [FILE *] value, named by the expression that yields it: the
    process's [stdout], what [fopen("/dev/null", "w")] returned, and what
    [fdopen(dup(fileno(stdin)), "r")] returned.  The last two are [NULL]
    when the open fails, which is for the environment to say ([is_NULL]
    below); [main] tests neither and hands the value on as it is. *)
Inductive FILE : Set := stdout | dev_null | stdin_dup.

#[global] Instance FILE_eq_dec : EqDecision FILE.
Proof. solve_decision. Defined.

Inductive signal : Set := SIGINT | SIGPIPE | SIGTERM.

#[global] Instance signal_eq_dec : EqDecision signal.
Proof. solve_decision. Defined.

Inductive sighandler : Set := SIG_DFL | SIG_IGN.

(** [struct sigaction], the three fields [main] fills in. *)
Record sigaction_t : Set := {
  sa_flags : Z;
  sa_mask : list signal;
  sa_handler : sighandler
}.

(** *** What [main] does to the world outside its local variables *)

(** One constructor per library call or store to a global that [main] and
    [help] perform.  Every call on the shell passes the one pointer
    [clish_shell_new] returned, and [clish_shell_new] is always given
    [&my_hooks], a [NULL] cookie and a [NULL] input stream, so these
    arguments are not repeated. *)
Inductive action : Type :=
| c_getenv (name : string)
| c_sigaction (sig : signal) (act : sigaction_t)
| c_setlocale_LC_ALL
| c_nl_langinfo_CODESET
| c_printf (s : string)
| c_fprintf_stderr (s : string)
| c_fopen_dev_null
| c_fdopen_dup_stdin
| c_fclose (f : FILE)
| c_store_script_fn (f : callback)
| c_clish_shell_new (ostream : FILE) (stop_on_error : bool)
| c_clish_shell_load_scheme (xml_path : option string)
| c_clish_shell__set_socket (path : string)
| c_clish_shell__set_lockfile (path : option string)
| c_clish_shell__set_interactive (interactive : bool)
| c_clish_shell__set_startup_view (view : string)
| c_clish_shell__set_startup_viewid (viewid : string)
| c_clish_shell__set_utf8 (utf8 : bool)
| c_clish_shell_startup
| c_clish_shell_push_file (fname : string) (stop_on_error : bool)
| c_clish_shell_push_fd (f : FILE) (stop_on_error : bool)
| c_clish_shell_loop
| c_clish_shell_delete.

(** The type of what the action hands back to [main]. *)
Definition ans (a : action) : Type :=
  match a with
  | c_getenv _ => option string
  | c_nl_langinfo_CODESET => string
  | c_printf _ => Z                        (* what [printf] returns *)
  | c_fprintf_stderr _ => Z
  | c_fopen_dev_null => FILE
  | c_fdopen_dup_stdin => FILE
  | c_clish_shell_new _ _ => bool          (* is the pointer non-NULL *)
  | c_clish_shell_startup => bool
  | c_clish_shell_push_file _ _ => Z
  | c_clish_shell_push_fd _ _ => Z
  | c_clish_shell_loop => Z
  | _ => unit
  end.

(** *** Programs *)

(** A run of [main] seen from outside: it returns, calls [exit], or
    performs an action and goes on with what it gets back. *)
Inductive prog (A : Type) : Type :=
| Return (a : A)
| Exit (status : Z)
| Act (a : action) (k : ans a -> prog A).
Arguments Return {A} a.
Arguments Exit {A} status.
Arguments Act {A} a k.

Fixpoint bind {A B} (p : prog A) (f : A -> prog B) : prog B :=
  match p with
  | Return a => f a
  | Exit z => Exit z
  | Act a k => Act a (fun x => bind (k x) f)
  end.

Definition act (a : action) : prog (ans a) := Act a Return.

Notation "'let*' x ':=' m 'in' k" := (bind m (fun x => k))
  (at level 10, x name, m at level 100, k at level 200).
Notation "'run' m 'in' k" := (bind m (fun _ => k))
  (at level 10, m at level 100, k at level 200).

Definition skip : prog unit := Return tt.

(** *** Local variables of [main] *)

Record locals : Type := {
  socket_path : string;
  lockless : bool;
  stop_on_error : bool;
  interactive : bool;
  quiet : bool;
  utf8 : bool;
  bit8 : bool;
  xml_path : option string;
  view : option string;
  viewid : option string
}.

Definition set_socket_path v (o : locals) : locals :=
  {| socket_path := v; lockless := lockless o; stop_on_error := stop_on_error o;
     interactive := interactive o; quiet := quiet o; utf8 := utf8 o; bit8 := bit8 o;
     xml_path := xml_path o; view := view o; viewid := viewid o |}.
Definition set_lockless v (o : locals) : locals :=
  {| socket_path := socket_path o; lockless := v; stop_on_error := stop_on_error o;
     interactive := interactive o; quiet := quiet o; utf8 := utf8 o; bit8 := bit8 o;
     xml_path := xml_path o; view := view o; viewid := viewid o |}.
Definition set_stop_on_error v (o : locals) : locals :=
  {| socket_path := socket_path o; lockless := lockless o; stop_on_error := v;
     interactive := interactive o; quiet := quiet o; utf8 := utf8 o; bit8 := bit8 o;
     xml_path := xml_path o; view := view o; viewid := viewid o |}.
Definition set_interactive v (o : locals) : locals :=
  {| socket_path := socket_path o; lockless := lockless o; stop_on_error := stop_on_error o;
     interactive := v; quiet := quiet o; utf8 := utf8 o; bit8 := bit8 o;
     xml_path := xml_path o; view := view o; viewid := viewid o |}.
Definition set_quiet v (o : locals) : locals :=
  {| socket_path := socket_path o; lockless := lockless o; stop_on_error := stop_on_error o;
     interactive := interactive o; quiet := v; utf8 := utf8 o; bit8 := bit8 o;
     xml_path := xml_path o; view := view o; viewid := viewid o |}.
Definition set_utf8 v (o : locals) : locals :=
  {| socket_path := socket_path o; lockless := lockless o; stop_on_error := stop_on_error o;
     interactive := interactive o; quiet := quiet o; utf8 := v; bit8 := bit8 o;
     xml_path := xml_path o; view := view o; viewid := viewid o |}.
Definition set_bit8 v (o : locals) : locals :=
  {| socket_path := socket_path o; lockless := lockless o; stop_on_error := stop_on_error o;
     interactive := interactive o; quiet := quiet o; utf8 := utf8 o; bit8 := v;
     xml_path := xml_path o; view := view o; viewid := viewid o |}.
Definition set_xml_path v (o : locals) : locals :=
  {| socket_path := socket_path o; lockless := lockless o; stop_on_error := stop_on_error o;
     interactive := interactive o; quiet := quiet o; utf8 := utf8 o; bit8 := bit8 o;
     xml_path := v; view := view o; viewid := viewid o |}.
Definition set_view v (o : locals) : locals :=
  {| socket_path := socket_path o; lockless := lockless o; stop_on_error := stop_on_error o;
     interactive := interactive o; quiet := quiet o; utf8 := utf8 o; bit8 := bit8 o;
     xml_path := xml_path o; view := v; viewid := viewid o |}.
Definition set_viewid v (o : locals) : locals :=
  {| socket_path := socket_path o; lockless := lockless o; stop_on_error := stop_on_error o;
     interactive := interactive o; quiet := quiet o; utf8 := utf8 o; bit8 := bit8 o;
     xml_path := xml_path o; view := view o; viewid := v |}.

(** The initializers of the declarations, given the three [getenv] results. *)
Definition initial_locals (cfg : config) (e_path e_view e_viewid : option string) : locals :=
  {| socket_path := KONFD_SOCKET_PATH cfg; lockless := false; stop_on_error := false;
     interactive := true; quiet := false; utf8 := false; bit8 := false;
     xml_path := e_path; view := e_view; viewid := e_viewid |}.

(** *** The command line as [getopt_long] presents it *)

(** One return of [getopt_long]: the option character and [optarg]
    (empty for an option that takes no argument). *)
Record getopt_ret : Set := { opt : ascii; optarg : string }.

(** [argv] as [getopt_long] leaves it, the values it returns in order until
    it returns -1, and [optind] at that point. [argc] is the length of
    [argv]. *)
Record cmdline : Set := {
  argv : list string;
  opts : list getopt_ret;
  optind : nat
}.

Definition argc (cl : cmdline) : nat := length (argv cl).

(** [argv[0]], which is [NULL] when [argc] is 0. *)
Definition argv0 (cl : cmdline) : option string := head (argv cl).

(** The file arguments: [argv[optind .. argc-1]]. *)
Definition files (cl : cmdline) : list string := drop (optind cl) (argv cl).

(** *** [help] *)

(** [strrchr(s, '/')]: the suffix of [s] that starts at its last slash. *)
Fixpoint strrchr_slash (s : string) : option string :=
  match s with
  | EmptyString => None
  | String c s' =>
      match strrchr_slash s' with
      | Some r => Some r
      | None => if Ascii.eqb c "/" then Some s else None
      end
  end.

(** [name = strrchr(argv0, '/'); if (name) name++; else name = argv0;] *)
Definition basename (argv0 : string) : string :=
  match strrchr_slash argv0 with
  | Some (String _ r) => r
  | _ => argv0
  end.

(** The characters that the C escapes [\n] and [\t] stand for in the
    format strings: a line feed (10) and a horizontal tab (9). *)
Definition LF : string := String "010"%char EmptyString.
Definition TAB : string := String "009"%char EmptyString.

Definition usage (name : string) : list string :=
  [ "Usage: " ++ name ++ " [options]" ++ LF;
    ("CLI utility. The part of the klish project." ++ LF);
    ("Options:" ++ LF);
    (TAB ++ "-v, --version" ++ TAB ++ "Print version." ++ LF);
    (TAB ++ "-h, --help" ++ TAB ++ "Print this help." ++ LF);
    (TAB ++ "-s <path>, --socket=<path>" ++ TAB ++ "Specify listen socket of the konfd daemon." ++ LF);
    (TAB ++ "-l, --lockless" ++ TAB ++ "Don't use locking mechanism." ++ LF);
    (TAB ++ "-e, --stop-on-error" ++ TAB ++ "Stop programm execution on error." ++ LF);
    (TAB ++ "-b, --background" ++ TAB ++ "Start shell using non-interactive mode." ++ LF);
    (TAB ++ "-q, --quiet" ++ TAB ++ "Disable echo while executing commands from the file stream." ++ LF);
    (TAB ++ "-d, --dry-run" ++ TAB ++ "Don't actually execute ACTION scripts." ++ LF);
    (TAB ++ "-x, --xml-path" ++ TAB ++ "Path to XML scheme files." ++ LF);
    (TAB ++ "-w, --view" ++ TAB ++ "Set the startup view." ++ LF);
    (TAB ++ "-i, --viewid" ++ TAB ++ "Set the startup viewid." ++ LF);
    (TAB ++ "-u, --utf8" ++ TAB ++ "Force UTF-8 encoding." ++ LF);
    (TAB ++ "-8, --8bit" ++ TAB ++ "Force 8-bit encoding." ++ LF) ].

Fixpoint printf_all (ls : list string) : prog unit :=
  match ls with
  | [] => skip
  | l :: ls' => run act (c_printf l) in printf_all ls'
  end.

(** [static void help(int status, const char *argv0)] *)
Definition help (status : Z) (argv0 : option string) : prog unit :=
  match argv0 with
  | None => skip
  | Some a0 =>
      let name := basename a0 in
      if negb (status =? 0)%Z
      then run act (c_fprintf_stderr ("Try `" ++ name ++ " -h' for more information." ++ LF))
           in skip
      else printf_all (usage name)
  end.

(** *** [main] *)

(** The option loop: one iteration per value [getopt_long] returns; the
    end of the list is the -1 that leaves the loop. *)
Fixpoint parse_options (cfg : config) (a0 : option string)
    (gs : list getopt_ret) (o : locals) : prog locals :=
  match gs with
  | [] => Return o
  | g :: gs' =>
      let c := opt g in
      if Ascii.eqb c "s" then parse_options cfg a0 gs' (set_socket_path (optarg g) o)
      else if Ascii.eqb c "l" then parse_options cfg a0 gs' (set_lockless true o)
      else if Ascii.eqb c "e" then parse_options cfg a0 gs' (set_stop_on_error true o)
      else if Ascii.eqb c "b" then parse_options cfg a0 gs' (set_interactive false o)
      else if Ascii.eqb c "q" then parse_options cfg a0 gs' (set_quiet true o)
      else if Ascii.eqb c "u" then parse_options cfg a0 gs' (set_utf8 true o)
      else if Ascii.eqb c "8" then parse_options cfg a0 gs' (set_bit8 true o)
      else if Ascii.eqb c "d" then
        run act (c_store_script_fn clish_dryrun_callback) in
        parse_options cfg a0 gs' o
      else if Ascii.eqb c "x" then parse_options cfg a0 gs' (set_xml_path (Some (optarg g)) o)
      else if Ascii.eqb c "w" then parse_options cfg a0 gs' (set_view (Some (optarg g)) o)
      else if Ascii.eqb c "i" then parse_options cfg a0 gs' (set_viewid (Some (optarg g)) o)
      else if Ascii.eqb c "h" then
        run help 0 a0 in Exit 0
      else if Ascii.eqb c "v" then
        run act (c_printf (VERSION cfg ++ LF)) in Exit 0
      else
        run help (-1) a0 in Exit (-1)
  end.

(** Lines 180-208: the settings handed to the new shell. *)
Definition configure_shell (cfg : config) (o : locals) : prog unit :=
  run act (c_clish_shell_load_scheme (xml_path o)) in
  run act (c_clish_shell__set_socket (socket_path o)) in
  run (if lockless o then act (c_clish_shell__set_lockfile None) else skip) in
  run (if negb (interactive o)
       then act (c_clish_shell__set_interactive (interactive o)) else skip) in
  run (match view o with
       | Some v => act (c_clish_shell__set_startup_view v)
       | None => skip
       end) in
  run (match viewid o with
       | Some v => act (c_clish_shell__set_startup_viewid v)
       | None => skip
       end) in
  if utf8 o || bit8 o then act (c_clish_shell__set_utf8 (utf8 o))
  else if HAVE_LANGINFO_CODESET cfg then
    let* cs := act c_nl_langinfo_CODESET in
    if String.eqb cs "UTF-8" then act (c_clish_shell__set_utf8 true) else skip
  else act (c_clish_shell__set_utf8 false).

(** [for (i = argc - 1; i >= optind; i--) clish_shell_push_file(shell,
    argv[i], stop_on_error);] with [n] iterations to go, that is
    [i = optind + n - 1]. *)
Fixpoint push_files (av : list string) (soe : bool) (oi n : nat) : prog unit :=
  match n with
  | O => skip
  | S n' =>
      run act (c_clish_shell_push_file (nth (oi + n') av "") soe) in
      push_files av soe oi n'
  end.

(** Lines 217-225: the input sources. *)
Definition push_sources (cl : cmdline) (o : locals) : prog unit :=
  if (optind cl <? argc cl)%nat
  then push_files (argv cl) (stop_on_error o) (optind cl) (argc cl - optind cl)
  else
    let* f := act c_fdopen_dup_stdin in
    run act (c_clish_shell_push_fd f (stop_on_error o)) in skip.

(** An [int] read as a condition. *)
Definition truthy (z : Z) : bool := negb (z =? 0)%Z.

(** Lines 226-233: the loop, the cleanup and the value [main] returns. *)
Definition loop_and_cleanup (o : locals) (outfd : FILE) : prog Z :=
  let* result := act c_clish_shell_loop in
  run act c_clish_shell_delete in
  run (if quiet o then act (c_fclose outfd) else skip) in
  Return (if truthy result then 0 else -1)%Z.

(** Lines 166-233: everything after the option loop. *)
Definition run_shell (cfg : config) (cl : cmdline) (o : locals) : prog Z :=
  if utf8 o && bit8 o then
    run act (c_fprintf_stderr ("The -u and -8 options can't be used together." ++ LF)) in
    Return (-1)%Z
  else
    let* outfd := (if quiet o then act c_fopen_dev_null else Return stdout) in
    let* shell := act (c_clish_shell_new outfd (stop_on_error o)) in
    if negb shell then
      run act (c_fprintf_stderr ("Cannot run clish." ++ LF)) in
      Return (-1)%Z
    else
      run configure_shell cfg o in
      let* running := act c_clish_shell_startup in
      if negb running then
        run act (c_fprintf_stderr ("Cannot startup clish." ++ LF)) in
        run act c_clish_shell_delete in
        Return (-1)%Z
      else
        run push_sources cl o in
        loop_and_cleanup o outfd.

Definition sigpipe_act : sigaction_t :=
  {| sa_flags := 0; sa_mask := [SIGPIPE]; sa_handler := SIG_IGN |}.

(** Lines 64-104: the initializers that call [getenv], the signal
    disposition and the locale. *)
Definition startup (cfg : config) : prog locals :=
  let* e_path := act (c_getenv "CLISH_PATH") in
  let* e_view := act (c_getenv "CLISH_VIEW") in
  let* e_viewid := act (c_getenv "CLISH_VIEWID") in
  run act (c_sigaction SIGPIPE sigpipe_act) in
  run (if HAVE_LOCALE_H cfg then act c_setlocale_LC_ALL else skip) in
  Return (initial_locals cfg e_path e_view e_viewid).

(** [int main(int argc, char **argv)] *)
Definition main (cfg : config) (cl : cmdline) : prog Z :=
  let* o0 := startup cfg in
  let* o := parse_options cfg (argv0 cl) (opts cl) o0 in
  run_shell cfg cl o.

(** *** The world [main] runs in *)

(** An input source: a file opened by name or an adopted stream, with its
    own stop-on-error flag. *)
Inductive src_kind : Set :=
| SrcFile (fname : string)
| SrcStream (f : FILE).

Record source : Set := {
  src_of : src_kind;
  src_stop_on_error : bool
}.

(** Modelled from the spec: the shell object of the clish library, which is
    not in [src/].  Its dispatch-relevant part is the stop-on-error default
    it was created with, the configuration calls it has received, in order,
    and the input-source stack, top first. *)
Record shell_core : Type := {
  sh_stop_on_error : bool;
  sh_settings : list action;
  sh_sources : list source
}.

(** The shell object: the output stream it echoes to, and the rest. *)
Record clish_shell_t : Type := {
  sh_ostream : FILE;
  sh_core : shell_core
}.

Definition add_setting (a : action) (sh : clish_shell_t) : clish_shell_t :=
  {| sh_ostream := sh_ostream sh;
     sh_core := {| sh_stop_on_error := sh_stop_on_error (sh_core sh);
                   sh_settings := sh_settings (sh_core sh) ++ [a];
                   sh_sources := sh_sources (sh_core sh) |} |}.

(** Pushing puts the source on top of the stack. *)
Definition push_source (s : source) (sh : clish_shell_t) : clish_shell_t :=
  {| sh_ostream := sh_ostream sh;
     sh_core := {| sh_stop_on_error := sh_stop_on_error (sh_core sh);
                   sh_settings := sh_settings (sh_core sh);
                   sh_sources := s :: sh_sources (sh_core sh) |} |}.

(** What the dispatch loop was entered with and what it gave back. *)
Record loop_entry : Type := {
  le_core : shell_core;
  le_hooks : clish_shell_hooks_t;
  le_ostream : FILE;
  le_result : Z;
  le_echo : list string
}.

(** What lies outside the program: the process environment, the locale,
    whether the two opens succeed, the file system, and the parts of the
    shell library whose code is not in [src/].  Start-up and the dispatch loop are given the shell's
    dispatch-relevant state and the hooks; the loop yields its aggregate
    result and the lines it echoes. *)
Record env : Type := {
  getenv : string -> option string;
  nl_langinfo_CODESET : string;
  fopen_ok : bool;          (* does [fopen("/dev/null", "w")] succeed *)
  fdopen_ok : bool;         (* does [fdopen(dup(fileno(stdin)), "r")] succeed *)
  shell_new_ok : bool;
  readable : string -> bool;
  shell_startup : shell_core -> clish_shell_hooks_t -> bool;
  shell_loop : shell_core -> clish_shell_hooks_t -> Z * list string
}.

(** Is the stream value [NULL]. *)
Definition is_NULL (E : env) (f : FILE) : bool :=
  match f with
  | stdout => false
  | dev_null => negb (fopen_ok E)
  | stdin_dup => negb (fdopen_ok E)
  end.

Record world : Type := {
  w_my_hooks : clish_shell_hooks_t;
  w_sig : signal -> sighandler;
  w_locale : bool;
  w_shell : option clish_shell_t;
  w_stdout : list string;
  w_stderr : list string;
  w_null : list string;
  w_closed : list FILE;
  w_loop : option loop_entry
}.

Definition with_my_hooks v (w : world) : world :=
  {| w_my_hooks := v; w_sig := w_sig w; w_locale := w_locale w; w_shell := w_shell w;
     w_stdout := w_stdout w; w_stderr := w_stderr w; w_null := w_null w;
     w_closed := w_closed w; w_loop := w_loop w |}.
Definition with_sig v (w : world) : world :=
  {| w_my_hooks := w_my_hooks w; w_sig := v; w_locale := w_locale w; w_shell := w_shell w;
     w_stdout := w_stdout w; w_stderr := w_stderr w; w_null := w_null w;
     w_closed := w_closed w; w_loop := w_loop w |}.
Definition with_locale v (w : world) : world :=
  {| w_my_hooks := w_my_hooks w; w_sig := w_sig w; w_locale := v; w_shell := w_shell w;
     w_stdout := w_stdout w; w_stderr := w_stderr w; w_null := w_null w;
     w_closed := w_closed w; w_loop := w_loop w |}.
Definition with_shell v (w : world) : world :=
  {| w_my_hooks := w_my_hooks w; w_sig := w_sig w; w_locale := w_locale w; w_shell := v;
     w_stdout := w_stdout w; w_stderr := w_stderr w; w_null := w_null w;
     w_closed := w_closed w; w_loop := w_loop w |}.
Definition with_stdout v (w : world) : world :=
  {| w_my_hooks := w_my_hooks w; w_sig := w_sig w; w_locale := w_locale w; w_shell := w_shell w;
     w_stdout := v; w_stderr := w_stderr w; w_null := w_null w;
     w_closed := w_closed w; w_loop := w_loop w |}.
Definition with_stderr v (w : world) : world :=
  {| w_my_hooks := w_my_hooks w; w_sig := w_sig w; w_locale := w_locale w; w_shell := w_shell w;
     w_stdout := w_stdout w; w_stderr := v; w_null := w_null w;
     w_closed := w_closed w; w_loop := w_loop w |}.
Definition with_null v (w : world) : world :=
  {| w_my_hooks := w_my_hooks w; w_sig := w_sig w; w_locale := w_locale w; w_shell := w_shell w;
     w_stdout := w_stdout w; w_stderr := w_stderr w; w_null := v;
     w_closed := w_closed w; w_loop := w_loop w |}.
Definition with_closed v (w : world) : world :=
  {| w_my_hooks := w_my_hooks w; w_sig := w_sig w; w_locale := w_locale w; w_shell := w_shell w;
     w_stdout := w_stdout w; w_stderr := w_stderr w; w_null := w_null w;
     w_closed := v; w_loop := w_loop w |}.
Definition with_loop v (w : world) : world :=
  {| w_my_hooks := w_my_hooks w; w_sig := w_sig w; w_locale := w_locale w; w_shell := w_shell w;
     w_stdout := w_stdout w; w_stderr := w_stderr w; w_null := w_null w;
     w_closed := w_closed w; w_loop := v |}.

(** The world at process start: the static initializer of [my_hooks], the
    signal dispositions [d] the process inherited, nothing written. *)
Definition initial_world (d : signal -> sighandler) : world :=
  {| w_my_hooks := my_hooks; w_sig := d; w_locale := false; w_shell := None;
     w_stdout := []; w_stderr := []; w_null := []; w_closed := []; w_loop := None |}.

(** Writing lines to a stream. *)
Definition emit (f : FILE) (ls : list string) (w : world) : world :=
  match f with
  | stdout => with_stdout (w_stdout w ++ ls) w
  | dev_null => with_null (w_null w ++ ls) w
  | stdin_dup => w
  end.

(** Modelled from the spec: the configuration calls of the shell library
    ([clish_shell_load_scheme], [clish_shell__set_socket] and the other
    setters), which are not in [src/]: the shell records the call. *)
Definition configure (a : action) (w : world) : world :=
  with_shell (add_setting a <$> w_shell w) w.

(** Modelled from the spec: [clish_shell_new], which is not in [src/].  It
    may fail; a new shell echoes to the stream it is given and has no
    input source yet. *)
Definition clish_shell_new (E : env) (ostream : FILE) (soe : bool) (w : world)
    : bool * world :=
  if shell_new_ok E then
    (true, with_shell (Some {| sh_ostream := ostream;
                               sh_core := {| sh_stop_on_error := soe;
                                             sh_settings := [];
                                             sh_sources := [] |} |}) w)
  else (false, w).

(** Modelled from the spec: [clish_shell_push_file], which is not in
    [src/]: "opens the path for reading; fails with CannotOpen if
    unreadable; pushes onto the stack". *)
Definition clish_shell_push_file (E : env) (fname : string) (soe : bool) (w : world)
    : Z * world :=
  if readable E fname then
    (0, with_shell (push_source {| src_of := SrcFile fname; src_stop_on_error := soe |}
                      <$> w_shell w) w)
  else (-1, w).

(** Modelled from the spec: [clish_shell_push_fd], which is not in [src/]:
    "adopts an already-open readable stream". *)
Definition clish_shell_push_fd (f : FILE) (soe : bool) (w : world) : Z * world :=
  (0, with_shell (push_source {| src_of := SrcStream f; src_stop_on_error := soe |}
                    <$> w_shell w) w).

(** Modelled from the spec: [clish_shell_startup], which is not in [src/]. *)
Definition clish_shell_startup (E : env) (w : world) : bool * world :=
  match w_shell w with
  | Some sh => (shell_startup E (sh_core sh) (w_my_hooks w), w)
  | None => (false, w)
  end.

(** Modelled from the spec: [clish_shell_loop], which is not in [src/].
    The shell holds a pointer to [my_hooks], so the loop sees the hooks as
    they are when it runs.  Its control flow and its aggregate result
    depend on the sources, the settings and the hooks; the output stream
    only receives the echo of the consumed lines. *)
Definition clish_shell_loop (E : env) (w : world) : Z * world :=
  match w_shell w with
  | Some sh =>
      let '(result, echo) := shell_loop E (sh_core sh) (w_my_hooks w) in
      (result,
       emit (sh_ostream sh) echo
         (with_loop (Some {| le_core := sh_core sh; le_hooks := w_my_hooks w;
                             le_ostream := sh_ostream sh;
                             le_result := result; le_echo := echo |}) w))
  | None => (0, w)
  end.

(** [sigaction(sig, &act, NULL)] *)
Definition sigaction (sig : signal) (a : sigaction_t) (w : world) : world :=
  with_sig (fun s => if decide (s = sig) then sa_handler a else w_sig w s) w.

(** What an action does to the world and what it hands back.
    [w_stdout], [w_stderr] and [w_closed] record what was written to the
    two streams and which streams [fclose] was called on.
    [clish_shell_delete] leaves no shell.  Modelled from the spec: the
    calls into the shell library, whose code is not in [src/], change no
    signal disposition (spec 9: "no equivalent runtime state is needed
    elsewhere"). *)
Definition handle (E : env) (a : action) (w : world) : ans a * world :=
  match a return ans a * world with
  | c_getenv name => (getenv E name, w)
  | c_sigaction sig sa => (tt, sigaction sig sa w)
  | c_setlocale_LC_ALL => (tt, with_locale true w)
  | c_nl_langinfo_CODESET => (nl_langinfo_CODESET E, w)
  | c_printf s => (Z.of_nat (String.length s), emit stdout [s] w)
  | c_fprintf_stderr s => (Z.of_nat (String.length s), with_stderr (w_stderr w ++ [s]) w)
  | c_fopen_dev_null => (dev_null, w)
  | c_fdopen_dup_stdin => (stdin_dup, w)
  | c_fclose f => (tt, with_closed (w_closed w ++ [f]) w)
  | c_store_script_fn f => (tt, with_my_hooks (set_script_fn f (w_my_hooks w)) w)
  | c_clish_shell_new ostream soe => clish_shell_new E ostream soe w
  | c_clish_shell_load_scheme _ => (tt, configure a w)
  | c_clish_shell__set_socket _ => (tt, configure a w)
  | c_clish_shell__set_lockfile _ => (tt, configure a w)
  | c_clish_shell__set_interactive _ => (tt, configure a w)
  | c_clish_shell__set_startup_view _ => (tt, configure a w)
  | c_clish_shell__set_startup_viewid _ => (tt, configure a w)
  | c_clish_shell__set_utf8 _ => (tt, configure a w)
  | c_clish_shell_startup => clish_shell_startup E w
  | c_clish_shell_push_file fname soe => clish_shell_push_file E fname soe w
  | c_clish_shell_push_fd f soe => clish_shell_push_fd f soe w
  | c_clish_shell_loop => clish_shell_loop E w
  | c_clish_shell_delete => (tt, with_shell None w)
  end.

(** The calls whose behaviour is undefined for the argument they get:
    [fclose(NULL)].  The C library dereferences the pointer and the
    process is killed there. *)
Definition fatal (E : env) (a : action) : bool :=
  match a with
  | c_fclose f => is_NULL E f
  | _ => false
  end.

(** *** Running a program *)

(** How a run ends: [main] returns, [exit] is called, or the process is
    killed inside a call whose behaviour is undefined. *)
Inductive ending (A : Type) : Type :=
| Returns (a : A)
| Exits (status : Z)
| Crashes.
Arguments Returns {A} a.
Arguments Exits {A} status.
Arguments Crashes {A}.

(** A finished run: the actions performed, in order, how the program
    ended, and the world it left. *)
Record finished (A : Type) : Type := {
  trace : list action;
  ended : ending A;
  final : world
}.
Arguments trace {A} _.
Arguments ended {A} _.
Arguments final {A} _.

Fixpoint exec {A} (E : env) (p : prog A) (w : world) : finished A :=
  match p with
  | Return a => {| trace := []; ended := Returns a; final := w |}
  | Exit z => {| trace := []; ended := Exits z; final := w |}
  | Act a k =>
      if fatal E a
      then {| trace := [a]; ended := Crashes; final := (handle E a w).2 |}
      else
        let r := exec E (k (handle E a w).1) (handle E a w).2 in
        {| trace := a :: trace r; ended := ended r; final := final r |}
  end.

(** The status the parent of the process sees: the low eight bits of what
    [main] returned or [exit] was given; for a process killed in a call it
    is what a shell reports for death by [SIGSEGV], 128 + 11. *)
Definition exit_status (e : ending Z) : Z :=
  match e with
  | Returns v => v mod 256
  | Exits v => v mod 256
  | Crashes => 139
  end.

(** A whole run of the client. *)
Definition clish (E : env) (cfg : config) (d : signal -> sighandler) (cl : cmdline)
    : finished Z :=
  exec E (main cfg cl) (initial_world d).

(** *** Runs interleaved with signal deliveries and broken pipes *)

(** The process between two actions: still running, killed by a signal,
    or gone. *)
Inductive pstate : Type :=
| Running (p : prog Z) (w : world)
| Killed (sig : signal)
| Gone (e : ending Z) (w : world).

(** At each tick the program performs its next action, or performs it
    while the reader of the standard output has gone away (the stream is
    a broken pipe), or a signal is delivered to the process. *)
Inductive tick : Set :=
| Tact
| Tepipe
| Tsignal (sig : signal).

(** Delivery of a signal whose disposition is [SIG_IGN] is discarded;
    under [SIG_DFL] the signals of this model terminate the process. *)
Definition deliver (sig : signal) (p : prog Z) (w : world) : pstate :=
  match w_sig w sig with
  | SIG_IGN => Running p w
  | SIG_DFL => Killed sig
  end.

(** Does the action write to the standard output: [printf] does, and so
    does the dispatch loop of a shell that echoes there when it has lines
    to echo. *)
Definition writes_stdout (E : env) (a : action) (w : world) : bool :=
  match a with
  | c_printf _ => true
  | c_clish_shell_loop =>
      match w_shell w with
      | Some sh =>
          bool_decide (sh_ostream sh = stdout)
          && negb (bool_decide ((shell_loop E (sh_core sh) (w_my_hooks w)).2 = []))
      | None => false
      end
  | _ => false
  end.

(** Modelled from the spec: the dispatch loop, which is not in [src/],
    when its output stream is a broken pipe and [SIGPIPE] is ignored.
    Spec 5: "a broken-pipe style signal on the output stream is ignored at
    the process boundary, not surfaced as a command failure": the loop
    consumes its sources and gives the result it gives otherwise; the echo
    does not reach the stream. *)
Definition clish_shell_loop_epipe (E : env) (w : world) : Z * world :=
  match w_shell w with
  | Some sh =>
      let '(result, echo) := shell_loop E (sh_core sh) (w_my_hooks w) in
      (result,
       with_loop (Some {| le_core := sh_core sh; le_hooks := w_my_hooks w;
                          le_ostream := sh_ostream sh;
                          le_result := result; le_echo := echo |}) w)
  | None => (0, w)
  end.

(** A write to a broken pipe by a process that ignores [SIGPIPE]: the
    write fails with [EPIPE], nothing reaches the stream, and [printf]
    returns a negative value. *)
Definition handle_epipe (E : env) (a : action) (w : world) : ans a * world :=
  match a as a0 return ans a0 * world -> ans a0 * world with
  | c_printf _ => fun _ => (-1, w)
  | c_clish_shell_loop => fun _ => clish_shell_loop_epipe E w
  | _ => fun r => r
  end (handle E a w).

(** The next action of the program. *)
Definition perform (E : env) (p : prog Z) (w : world) : pstate :=
  match p with
  | Return v => Gone (Returns v) w
  | Exit z => Gone (Exits z) w
  | Act a k =>
      if fatal E a then Gone Crashes (handle E a w).2
      else Running (k (handle E a w).1) (handle E a w).2
  end.

(** The next action of the program on a broken pipe: a write to the
    standard output raises [SIGPIPE] in the process and, if the process
    lives on, fails. *)
Definition perform_epipe (E : env) (p : prog Z) (w : world) : pstate :=
  match p with
  | Act a k =>
      if writes_stdout E a w then
        match w_sig w SIGPIPE with
        | SIG_DFL => Killed SIGPIPE
        | SIG_IGN => Running (k (handle_epipe E a w).1) (handle_epipe E a w).2
        end
      else perform E p w
  | _ => perform E p w
  end.

Definition step (E : env) (s : pstate) (t : tick) : pstate :=
  match s with
  | Running p w =>
      match t with
      | Tsignal sig => deliver sig p w
      | Tact => perform E p w
      | Tepipe => perform_epipe E p w
      end
  | _ => s
  end.

Definition sched (E : env) (ts : list tick) (s : pstate) : pstate :=
  fold_left (step E) ts s.

(** *** Vocabulary for statements about runs *)

(** What an action is about. *)
Inductive kind : Set :=
| KEnv        (* reads the environment or sets the locale *)
| KSignal     (* changes a signal disposition *)
| KPrint      (* writes to stdout or stderr *)
| KStream     (* opens or closes a stream *)
| KHook       (* stores into [my_hooks] *)
| KNew        (* creates the shell *)
| KSetting    (* configures the shell *)
| KStartup    (* starts the shell *)
| KPush       (* pushes an input source *)
| KLoop       (* runs the dispatch loop *)
| KDelete.    (* destroys the shell *)

#[global] Instance kind_eq_dec : EqDecision kind.
Proof. solve_decision. Defined.

Definition kind_of (a : action) : kind :=
  match a with
  | c_getenv _ | c_setlocale_LC_ALL | c_nl_langinfo_CODESET => KEnv
  | c_sigaction _ _ => KSignal
  | c_printf _ | c_fprintf_stderr _ => KPrint
  | c_fopen_dev_null | c_fdopen_dup_stdin | c_fclose _ => KStream
  | c_store_script_fn _ => KHook
  | c_clish_shell_new _ _ => KNew
  | c_clish_shell_load_scheme _ | c_clish_shell__set_socket _
  | c_clish_shell__set_lockfile _ | c_clish_shell__set_interactive _
  | c_clish_shell__set_startup_view _ | c_clish_shell__set_startup_viewid _
  | c_clish_shell__set_utf8 _ => KSetting
  | c_clish_shell_startup => KStartup
  | c_clish_shell_push_file _ _ | c_clish_shell_push_fd _ _ => KPush
  | c_clish_shell_loop => KLoop
  | c_clish_shell_delete => KDelete
  end.

(** The actions of a kind among [ks]. *)
Definition of_kinds (ks : list kind) (a : action) : bool :=
  bool_decide (kind_of a ∈ ks).

(** Every action the program can perform, whatever it is handed back,
    satisfies [P]. *)
Inductive only (P : action -> Prop) {A : Type} : prog A -> Prop :=
| only_Return (a : A) : only P (Return a)
| only_Exit (z : Z) : only P (Exit z)
| only_Act (a : action) (k : ans a -> prog A) :
    P a -> (forall x, only P (k x)) -> only P (Act a k).

(** The same, by recursion on the program. *)
Fixpoint only_rec (P : action -> Prop) {A : Type} (p : prog A) : Prop :=
  match p with
  | Return _ => True
  | Exit _ => True
  | Act a k => P a /\ forall x, only_rec P (k x)
  end.

(** The option characters after which the option loop goes on. *)
Definition proceeds (c : ascii) : bool :=
  existsb (Ascii.eqb c) (list_ascii_of_string "sleqbu8dxwi").

(** Was option [c] among the values [getopt_long] returned. *)
Definition given (c : ascii) (gs : list getopt_ret) : bool :=
  existsb (fun g => Ascii.eqb (opt g) c) gs.

(** The returns of [getopt_long] that the option loop gets to see: all of
    them up to and including the first one that ends the process. *)
Fixpoint seen (gs : list getopt_ret) : list getopt_ret :=
  match gs with
  | [] => []
  | g :: gs' => if proceeds (opt g) then g :: seen gs' else [g]
  end.

(** The option loop runs to its end. *)
Definition parses (gs : list getopt_ret) : bool :=
  forallb (fun g => proceeds (opt g)) gs.

(** The source a file push leaves on the stack. *)
Definition file_source (soe : bool) (fname : string) : source :=
  {| src_of := SrcFile fname; src_stop_on_error := soe |}.

Definition stdin_source (soe : bool) : source :=
  {| src_of := SrcStream stdin_dup; src_stop_on_error := soe |}.

(** The file pushes among the actions of a run, by name, in order. *)
Definition pushed_files (tr : list action) : list string :=
  omap (fun a => match a with
                 | c_clish_shell_push_file f _ => Some f
                 | _ => None
                 end) tr.

(** The stream pushes among the actions of a run, in order. *)
Definition pushed_streams (tr : list action) : list FILE :=
  omap (fun a => match a with
                 | c_clish_shell_push_fd f _ => Some f
                 | _ => None
                 end) tr.

(** The shell after a list of configuration calls. *)
Definition add_settings (sts : list action) (sh : clish_shell_t) : clish_shell_t :=
  fold_left (fun sh a => add_setting a sh) sts sh.

Definition is_setting (a : action) : bool := bool_decide (kind_of a = KSetting).

(** The actions of the configuration block: they depend on the build, the
    locale and the locals, not on the world the block starts in. *)
Definition configure_trace (E : env) (cfg : config) (o : locals) : list action :=
  trace (exec E (configure_shell cfg o) (initial_world (fun _ => SIG_DFL))).

(** The shell after pushing, one after the other, the readable files of
    [fs] read from its end to its front: they lie on top of the stack in
    the order of [fs]. *)
Definition push_stack (E : env) (soe : bool) (fs : list string) (sh : clish_shell_t)
    : clish_shell_t :=
  {| sh_ostream := sh_ostream sh;
     sh_core := {| sh_stop_on_error := sh_stop_on_error (sh_core sh);
                   sh_settings := sh_settings (sh_core sh);
                   sh_sources := map (file_source soe) (filter (fun f => readable E f = true) fs)
                                 ++ sh_sources (sh_core sh) |} |}.

(** The actions of the input-source block. *)
Definition push_trace (cl : cmdline) (soe : bool) : list action :=
  match files cl with
  | [] => [c_fdopen_dup_stdin; c_clish_shell_push_fd stdin_dup soe]
  | _ :: _ => map (fun f => c_clish_shell_push_file f soe) (rev (files cl))
  end.

(** The input-source stack the block leaves, top first. *)
Definition pushed_stack (E : env) (cl : cmdline) (soe : bool) : list source :=
  match files cl with
  | [] => [stdin_source soe]
  | _ :: _ => map (file_source soe) (filter (fun f => readable E f = true) (files cl))
  end.

(** The stream handed to the shell. *)
Definition outfd_of (o : locals) : FILE := if quiet o then dev_null else stdout.

(** The shell's dispatch-relevant state once it is configured. *)
Definition configured_core (E : env) (cfg : config) (o : locals) : shell_core :=
  {| sh_stop_on_error := stop_on_error o;
     sh_settings := filter (fun a => is_setting a = true) (configure_trace E cfg o);
     sh_sources := [] |}.

(** The same with the input sources on the stack. *)
Definition loaded_core (E : env) (cfg : config) (cl : cmdline) (o : locals) : shell_core :=
  {| sh_stop_on_error := stop_on_error o;
     sh_settings := filter (fun a => is_setting a = true) (configure_trace E cfg o);
     sh_sources := pushed_stack E cl (stop_on_error o) |}.

(** The locals when the option loop starts. *)
Definition locals0 (E : env) (cfg : config) : locals :=
  initial_locals cfg (getenv E "CLISH_PATH") (getenv E "CLISH_VIEW") (getenv E "CLISH_VIEWID").

(** The actions before the option loop. *)
Definition startup_trace (cfg : config) : list action :=
  [c_getenv "CLISH_PATH"; c_getenv "CLISH_VIEW"; c_getenv "CLISH_VIEWID";
   c_sigaction SIGPIPE sigpipe_act]
  ++ (if HAVE_LOCALE_H cfg then [c_setlocale_LC_ALL] else []).

(** The world when the option loop starts. *)
Definition started (cfg : config) (w : world) : world :=
  if HAVE_LOCALE_H cfg
  then with_locale true (sigaction SIGPIPE sigpipe_act w)
  else sigaction SIGPIPE sigpipe_act w.

(** The run of the option loop inside a run of the client. *)
Definition parse_run (E : env) (cfg : config) (d : signal -> sighandler) (cl : cmdline)
    : finished locals :=
  exec E (parse_options cfg (argv0 cl) (opts cl) (locals0 E cfg))
    (started cfg (initial_world d)).

(** What a run that gets through to the dispatch loop does after the
    option loop, from the world [w] the option loop left. *)
Definition looped (E : env) (cfg : config) (cl : cmdline) (o : locals) (w : world)
    : finished Z :=
  let res := shell_loop E (loaded_core E cfg cl o) (w_my_hooks w) in
  let le := {| le_core := loaded_core E cfg cl o; le_hooks := w_my_hooks w;
               le_ostream := outfd_of o; le_result := res.1; le_echo := res.2 |} in
  let w1 := with_shell None (emit (outfd_of o) res.2 (with_loop (Some le) w)) in
  {| trace := (((if quiet o then [c_fopen_dev_null] else [])
                ++ [c_clish_shell_new (outfd_of o) (stop_on_error o)])
               ++ configure_trace E cfg o ++ [c_clish_shell_startup])
              ++ push_trace cl (stop_on_error o)
              ++ [c_clish_shell_loop; c_clish_shell_delete]
              ++ (if quiet o then [c_fclose dev_null] else []);
     ended := if quiet o && negb (fopen_ok E) then Crashes
              else Returns (if truthy res.1 then 0 else -1)%Z;
     final := if quiet o then with_closed (w_closed w ++ [dev_null]) w1 else w1 |}.

(** The stream opens for the interactive source among the actions of a
    run. *)
Definition stdin_opens (tr : list action) : list unit :=
  omap (fun a => match a with
                 | c_fdopen_dup_stdin => Some tt
                 | _ => None
                 end) tr.

(** The actions of a run without what only quiet mode adds: opening
    [/dev/null] and closing that stream, and which stream the shell is
    given. *)
Definition control (tr : list action) : list action :=
  omap (fun a => match a with
                 | c_fopen_dev_null => None
                 | c_fclose dev_null => None
                 | c_clish_shell_new _ soe => Some (c_clish_shell_new stdout soe)
                 | _ => Some a
                 end) tr.

(** What the dispatch loop was entered with and gave back, without the
    stream it echoed to. *)
Definition dispatch_view (le : loop_entry)
    : shell_core * clish_shell_hooks_t * Z * list string :=
  (le_core le, le_hooks le, le_result le, le_echo le).

(** The command line without its [-q] options. *)
Definition without_quiet (gs : list getopt_ret) : list getopt_ret :=
  List.filter (fun g => negb (Ascii.eqb (opt g) "q")) gs.

(** The kinds of action after the option loop. *)
Definition shell_kinds : list kind :=
  [KEnv; KPrint; KStream; KNew; KSetting; KStartup; KPush; KLoop; KDelete].

(** The actions on the shell: creating, configuring, starting, feeding,
    running and destroying it. *)
Definition shell_call (a : action) : bool :=
  of_kinds [KNew; KSetting; KStartup; KPush; KLoop; KDelete] a.

(** The program once the signal disposition is installed. *)
Definition after_sigaction (E : env) (cfg : config) (cl : cmdline) : prog Z :=
  let* o0 := (run (if HAVE_LOCALE_H cfg then act c_setlocale_LC_ALL else skip) in
              Return (locals0 E cfg)) in
  let* o := parse_options cfg (argv0 cl) (opts cl) o0 in
  run_shell cfg cl o.

(** The process will not be killed by [SIGPIPE]: it ignores the signal
    and what remains of the program never changes a disposition. *)
Definition sigpipe_safe (s : pstate) : Prop :=
  match s with
  | Running p w => only (fun a => kind_of a <> KSignal) p /\ w_sig w SIGPIPE = SIG_IGN
  | Killed sig => sig <> SIGPIPE
  | Gone _ w => w_sig w SIGPIPE = SIG_IGN
  end.

Definition is_sigpipe (t : tick) : bool :=
  match t with
  | Tsignal SIGPIPE => true
  | _ => false
  end.

Definition is_printf (a : action) : bool :=
  match a with
  | c_printf _ => true
  | _ => false
  end.

(** The program does not look at what [printf] returns: after a [printf]
    it goes on in the same way whatever the value. *)
Fixpoint deaf {A : Type} (p : prog A) : Prop :=
  match p with
  | Return _ => True
  | Exit _ => True
  | Act a k => (is_printf a = true -> forall x y, k x = k y) /\ forall x, deaf (k x)
  end.

(** The world without what reached the standard output. *)
Definition besides_stdout (w : world) : world := with_stdout [] w.

(** Does the string hold a slash. *)
Fixpoint has_slash (s : string) : bool :=
  match s with
  | EmptyString => false
  | String c s' => Ascii.eqb c "/" || has_slash s'
  end.

(** What [help] prints with status 0, and with any other status. *)
Definition help_text (a0 : option string) : list string :=
  match a0 with
  | Some a => usage (basename a)
  | None => []
  end.

Definition help_hint (a0 : option string) : list string :=
  match a0 with
  | Some a => ["Try `" ++ basename a ++ " -h' for more information." ++ LF]
  | None => []
  end.

(** The option character that ends the option loop, if there is one: the
    first after which the loop does not go on. *)
Definition first_stop (gs : list getopt_ret) : option ascii :=
  opt <$> List.find (fun g => negb (proceeds (opt g))) gs.

(** The argument of the last [c] among the options. *)
Fixpoint last_arg (c : ascii) (gs : list getopt_ret) : option string :=
  match gs with
  | [] => None
  | g :: gs' =>
      match last_arg c gs' with
      | Some v => Some v
      | None => if Ascii.eqb (opt g) c then Some (optarg g) else None
      end
  end.

(** The locals after an option loop that went through all of [gs],
    starting from [o]: a flag is set when its option was given, a value is
    that of the option's last occurrence. *)
Definition settled (gs : list getopt_ret) (o : locals) : locals :=
  {| socket_path := default (socket_path o) (last_arg "s" gs);
     lockless := lockless o || given "l" gs;
     stop_on_error := stop_on_error o || given "e" gs;
     interactive := interactive o && negb (given "b" gs);
     quiet := quiet o || given "q" gs;
     utf8 := utf8 o || given "u" gs;
     bit8 := bit8 o || given "8" gs;
     xml_path := match last_arg "x" gs with Some v => Some v | None => xml_path o end;
     view := match last_arg "w" gs with Some v => Some v | None => view o end;
     viewid := match last_arg "i" gs with Some v => Some v | None => viewid o end |}.

(** The hooks after an option loop that went through all of [gs]. *)
Definition hooks_of (gs : list getopt_ret) : clish_shell_hooks_t :=
  if given "d" gs then set_script_fn clish_dryrun_callback my_hooks else my_hooks.

(** The world such an option loop leaves. *)
Definition parsed_world (cfg : config) (d : signal -> sighandler) (gs : list getopt_ret)
    : world :=
  with_my_hooks (hooks_of gs) (started cfg (initial_world d)).

(** The calls on the shell among the actions of a run, in order. *)
Definition shell_calls (tr : list action) : list action :=
  filter (fun a => shell_call a = true) tr.

(** The arguments of the configuration calls among the actions of a run,
    call by call, in order. *)
Definition loaded_schemes (tr : list action) : list (option string) :=
  omap (fun a => match a with
                 | c_clish_shell_load_scheme p => Some p
                 | _ => None
                 end) tr.

Definition sockets_set (tr : list action) : list string :=
  omap (fun a => match a with
                 | c_clish_shell__set_socket p => Some p
                 | _ => None
                 end) tr.

Definition lockfiles_set (tr : list action) : list (option string) :=
  omap (fun a => match a with
                 | c_clish_shell__set_lockfile p => Some p
                 | _ => None
                 end) tr.

Definition interactive_set (tr : list action) : list bool :=
  omap (fun a => match a with
                 | c_clish_shell__set_interactive b => Some b
                 | _ => None
                 end) tr.

Definition views_set (tr : list action) : list string :=
  omap (fun a => match a with
                 | c_clish_shell__set_startup_view v => Some v
                 | _ => None
                 end) tr.

Definition viewids_set (tr : list action) : list string :=
  omap (fun a => match a with
                 | c_clish_shell__set_startup_viewid v => Some v
                 | _ => None
                 end) tr.

Definition utf8_set (tr : list action) : list bool :=
  omap (fun a => match a with
                 | c_clish_shell__set_utf8 b => Some b
                 | _ => None
                 end) tr.

(** The reads of the locale's codeset among the actions of a run. *)
Definition codeset_reads (tr : list action) : list unit :=
  omap (fun a => match a with
                 | c_nl_langinfo_CODESET => Some tt
                 | _ => None
                 end) tr.

(** The actions of a run without the stores into [my_hooks]. *)
Definition without_stores (tr : list action) : list action :=
  filter (fun a => kind_of a <> KHook) tr.

(** The value of an option that takes one: the argument of its last
    occurrence, or else what the variable was initialised with. *)
Definition chosen (c : ascii) (gs : list getopt_ret) (init : option string)
    : option string :=
  match last_arg c gs with
  | Some v => Some v
  | None => init
  end.

(** Two option lists make the same choices: the same flags are given,
    and each option that takes a value has the same last value. *)
Definition same_choices (gs1 gs2 : list getopt_ret) : Prop :=
  Forall (fun c => given c gs1 = given c gs2) (list_ascii_of_string "lebqu8d") /\
  Forall (fun c => last_arg c gs1 = last_arg c gs2) (list_ascii_of_string "sxwi").

(** Sample environment, configuration and command lines. *)
Definition sample_env : env :=
  {| getenv := fun _ => None;
     nl_langinfo_CODESET := "UTF-8";
     fopen_ok := true;
     fdopen_ok := true;
     shell_new_ok := true;
     readable := fun _ => true;
     shell_startup := fun _ _ => true;
     shell_loop := fun c _ =>
       (1, map (fun s => match src_of s with
                         | SrcFile f => f
                         | SrcStream _ => "stdin"
                         end) (sh_sources c)) |}.

Definition sample_config : config :=
  {| HAVE_LOCALE_H := true; HAVE_LANGINFO_CODESET := true;
     VERSION := "1.2.2"; KONFD_SOCKET_PATH := "/tmp/.konfd.socket" |}.

Definition flag (c : ascii) : getopt_ret := {| opt := c; optarg := "" |}.

Definition default_signals : signal -> sighandler := fun _ => SIG_DFL.

(** [clish A B C] *)
Definition cl_files : cmdline :=
  {| argv := ["clish"; "A"; "B"; "C"]; opts := []; optind := 1 |}.

(** [clish] *)
Definition cl_plain : cmdline :=
  {| argv := ["clish"]; opts := []; optind := 1 |}.

(** [clish -q A B] *)
Definition cl_quiet : cmdline :=
  {| argv := ["clish"; "-q"; "A"; "B"]; opts := [flag "q"]; optind := 2 |}.

(** [clish A B] *)
Definition cl_loud : cmdline :=
  {| argv := ["clish"; "A"; "B"]; opts := []; optind := 1 |}.

(** [clish -d -e] *)
Definition cl_dry : cmdline :=
  {| argv := ["clish"; "-d"; "-e"]; opts := [flag "d"; flag "e"]; optind := 3 |}.

(** [clish -u -8] *)
Definition cl_u8 : cmdline :=
  {| argv := ["clish"; "-u"; "-8"]; opts := [flag "u"; flag "8"]; optind := 3 |}.

(** [clish -u -8 -h] *)
Definition cl_u8h : cmdline :=
  {| argv := ["clish"; "-u"; "-8"; "-h"];
     opts := [flag "u"; flag "8"; flag "h"]; optind := 4 |}.

(** [/usr/bin/clish -q -h -u -8] *)
Definition cl_help : cmdline :=
  {| argv := ["/usr/bin/clish"; "-q"; "-h"; "-u"; "-8"];
     opts := [flag "q"; flag "h"; flag "u"; flag "8"]; optind := 5 |}.

(** [./clish -d -v A] *)
Definition cl_version : cmdline :=
  {| argv := ["./clish"; "-d"; "-v"; "A"]; opts := [flag "d"; flag "v"]; optind := 3 |}.

(** [bin/clish -e -z], for which [getopt_long] returns ['?']. *)
Definition cl_unknown : cmdline :=
  {| argv := ["bin/clish"; "-e"; "-z"]; opts := [flag "e"; flag "?"]; optind := 3 |}.

(** A system on which [/dev/null] cannot be opened for writing: the
    process is at its limit of open files, or runs in a root without the
    device. *)
Definition env_no_dev_null : env :=
  {| getenv := getenv sample_env;
     nl_langinfo_CODESET := nl_langinfo_CODESET sample_env;
     fopen_ok := false;
     fdopen_ok := true;
     shell_new_ok := true;
     readable := readable sample_env;
     shell_startup := shell_startup sample_env;
     shell_loop := shell_loop sample_env |}.

(** A system on which the shell cannot be created. *)
Definition env_no_shell : env :=
  {| getenv := getenv sample_env;
     nl_langinfo_CODESET := nl_langinfo_CODESET sample_env;
     fopen_ok := true;
     fdopen_ok := true;
     shell_new_ok := false;
     readable := readable sample_env;
     shell_startup := shell_startup sample_env;
     shell_loop := shell_loop sample_env |}.

(** A system on which the shell does not start. *)
Definition env_no_startup : env :=
  {| getenv := getenv sample_env;
     nl_langinfo_CODESET := nl_langinfo_CODESET sample_env;
     fopen_ok := true;
     fdopen_ok := true;
     shell_new_ok := true;
     readable := readable sample_env;
     shell_startup := fun _ _ => false;
     shell_loop := shell_loop sample_env |}.

(** An environment that sets [CLISH_PATH] and [CLISH_VIEW], in a Latin-1
    locale. *)
Definition env_vars : env :=
  {| getenv := fun n => if String.eqb n "CLISH_PATH" then Some "/etc/clish"
                        else if String.eqb n "CLISH_VIEW" then Some "root-view"
                        else None;
     nl_langinfo_CODESET := "ISO-8859-1";
     fopen_ok := true;
     fdopen_ok := true;
     shell_new_ok := true;
     readable := readable sample_env;
     shell_startup := shell_startup sample_env;
     shell_loop := shell_loop sample_env |}.

(** [clish -s /a -x /xml -s /b -l -b -e -i 7] *)
Definition cl_opts : cmdline :=
  {| argv := ["clish"; "-s"; "/a"; "-x"; "/xml"; "-s"; "/b"; "-l"; "-b"; "-e"; "-i"; "7"];
     opts := [ {| opt := "s"; optarg := "/a" |}; {| opt := "x"; optarg := "/xml" |};
               {| opt := "s"; optarg := "/b" |}; flag "l"; flag "b"; flag "e";
               {| opt := "i"; optarg := "7" |} ];
     optind := 12 |}.

(** [clish -8] *)
Definition cl_8bit : cmdline :=
  {| argv := ["clish"; "-8"]; opts := [flag "8"]; optind := 2 |}.

(** [clish -e -q -d A B] and [clish -d -q -e -q -d -e A B] *)
Definition cl_flags : cmdline :=
  {| argv := ["clish"; "-e"; "-q"; "-d"; "A"; "B"];
     opts := [flag "e"; flag "q"; flag "d"]; optind := 4 |}.

Definition cl_flags_again : cmdline :=
  {| argv := ["clish"; "-d"; "-q"; "-e"; "-q"; "-d"; "-e"; "A"; "B"];
     opts := [flag "d"; flag "q"; flag "e"; flag "q"; flag "d"; flag "e"]; optind := 7 |}.

End Clish.

(** ** Sample runs *)

Section SessionSamples.
Import KtpSession.

Example new_session_on_empty_heap :
  (ktp_session_new false 3 (empty_heap 2)).1 = Ret (Some 1%positive).
Proof. reflexivity. Qed.

Example new_session_negative :
  ktp_session_new false (-1) (empty_heap 2) = (Ret NULL, empty_heap 2).
Proof. reflexivity. Qed.

Example new_session_no_memory :
  (ktp_session_new false 3 (empty_heap 0)).1 = Abort /\
  (ktp_session_new true 3 (empty_heap 0)).1 = Ret NULL.
Proof. split; reflexivity. Qed.

Example connected_by_state :
  (ktp_session_connected false (Some 1%positive)
     (one_session KTP_SESSION_STATE_DISCONNECTED)).1 = Ret false /\
  (ktp_session_connected false (Some 1%positive)
     (one_session KTP_SESSION_STATE_NOT_AUTHORIZED)).1 = Ret true /\
  (ktp_session_connected false (Some 1%positive)
     (one_session KTP_SESSION_STATE_AUTHORIZED)).1 = Ret true.
Proof. repeat split; reflexivity. Qed.

Example connected_null :
  (ktp_session_connected false NULL (empty_heap 0)).1 = Abort /\
  (ktp_session_connected true NULL (empty_heap 0)).1 = Ret false.
Proof. split; reflexivity. Qed.

End SessionSamples.

Section ClientSamples.
Import Clish.
Local Open Scope list_scope.

Example basename_of_path : basename "/usr/bin/clish" = "clish" /\ basename "clish" = "clish".
Proof. split; reflexivity. Qed.

(** [clish A B C] *)
Example run_with_files :
  trace (clish sample_env sample_config default_signals cl_files)
  = [c_getenv "CLISH_PATH"; c_getenv "CLISH_VIEW"; c_getenv "CLISH_VIEWID";
     c_sigaction SIGPIPE sigpipe_act; c_setlocale_LC_ALL;
     c_clish_shell_new stdout false; c_clish_shell_load_scheme None;
     c_clish_shell__set_socket "/tmp/.konfd.socket";
     c_nl_langinfo_CODESET; c_clish_shell__set_utf8 true;
     c_clish_shell_startup;
     c_clish_shell_push_file "C" false; c_clish_shell_push_file "B" false;
     c_clish_shell_push_file "A" false;
     c_clish_shell_loop; c_clish_shell_delete] /\
  ended (clish sample_env sample_config default_signals cl_files) = Returns 0 /\
  w_stdout (final (clish sample_env sample_config default_signals cl_files))
  = ["A"; "B"; "C"]%string.
Proof. repeat split; reflexivity. Qed.

(** [clish -q A B] *)
Example run_quiet :
  trace (clish sample_env sample_config default_signals cl_quiet)
  = [c_getenv "CLISH_PATH"; c_getenv "CLISH_VIEW"; c_getenv "CLISH_VIEWID";
     c_sigaction SIGPIPE sigpipe_act; c_setlocale_LC_ALL;
     c_fopen_dev_null;
     c_clish_shell_new dev_null false; c_clish_shell_load_scheme None;
     c_clish_shell__set_socket "/tmp/.konfd.socket";
     c_nl_langinfo_CODESET; c_clish_shell__set_utf8 true;
     c_clish_shell_startup;
     c_clish_shell_push_file "B" false; c_clish_shell_push_file "A" false;
     c_clish_shell_loop; c_clish_shell_delete; c_fclose dev_null] /\
  w_stdout (final (clish sample_env sample_config default_signals cl_quiet)) = [] /\
  w_null (final (clish sample_env sample_config default_signals cl_quiet))
  = ["A"; "B"]%string.
Proof. repeat split; reflexivity. Qed.

(** [clish -u -8] and [clish -u -8 -h] *)
Example run_both_encodings :
  ended (clish sample_env sample_config default_signals cl_u8) = Returns (-1) /\
  ended (clish sample_env sample_config default_signals cl_u8h) = Exits 0.
Proof. split; reflexivity. Qed.

End ClientSamples.

(** ** The transport session: properties *)

Section KtpSessionFacts.
Import KtpSession.

Lemma alloc_exhausted (b : block) (h : heap) :
  room h = O -> alloc b h = (Ret NULL, h).
Proof. intros Hr. unfold alloc. now rewrite Hr. Qed.

Lemma fresh_cell (m : gmap loc block) : m !! fresh (dom m) = None.
Proof. apply not_elem_of_dom, is_fresh. Qed.

(** With no memory left the constructor aborts in the failed [assert], or
    returns [NULL] when asserts are compiled out; the heap is untouched. *)
Lemma ktp_session_new_exhausted (ndebug : bool) (sock : Z) (h : heap) :
  0 <= sock -> room h = O ->
  ktp_session_new ndebug sock h = (if ndebug then Ret NULL else Abort, h).
Proof.
  intros Hs Hr. unfold ktp_session_new.
  destruct (sock <? 0) eqn:Hneg; [apply Z.ltb_lt in Hneg; lia|].
  unfold bind, faux_zmalloc. rewrite (alloc_exhausted _ _ Hr).
  unfold assert. simpl. now destruct ndebug.
Qed.




(** C4. Connection predicate: on a live session [ktp_session_connected]
    returns true exactly when the state is not Disconnected, so true in
    NotAuthorized and Authorized and false in Disconnected; it leaves the
    heap as it was. *)
Theorem ktp_session_connected_spec (ndebug : bool) (h : heap) (l : loc)
    (s : ktp_session_t) :
  cells h !! l = Some (Bsession s) ->
  exists b,
    ktp_session_connected ndebug (Some l) h = (Ret b, h) /\
    (b = true <-> state s <> KTP_SESSION_STATE_DISCONNECTED) /\
    b = match state s with
        | KTP_SESSION_STATE_DISCONNECTED => false
        | KTP_SESSION_STATE_NOT_AUTHORIZED => true
        | KTP_SESSION_STATE_AUTHORIZED => true
        end.
Proof.
  intros Hl.
  unfold ktp_session_connected, bind, assert, load_session, ret. simpl.
  rewrite Hl.
  destruct (state s) eqn:Hst; simpl.
  - exists false. repeat split; try congruence.
  - exists true. repeat split; congruence.
  - exists true. repeat split; congruence.
Qed.

Lemma ktp_session_connected_spec_witness :
  exists b,
    ktp_session_connected false (Some 1%positive)
      (one_session KTP_SESSION_STATE_AUTHORIZED)
    = (Ret b, one_session KTP_SESSION_STATE_AUTHORIZED) /\
    (b = true <-> KTP_SESSION_STATE_AUTHORIZED <> KTP_SESSION_STATE_DISCONNECTED) /\
    b = true.
Proof.
  apply (ktp_session_connected_spec false (one_session KTP_SESSION_STATE_AUTHORIZED)
           1%positive {| state := KTP_SESSION_STATE_AUTHORIZED; net := NULL |}).
  reflexivity.
Defined.

(** C7. Session destruction: [ktp_session_free(NULL)] succeeds and changes
    nothing, however often it is called; on a live session it succeeds,
    releases the socket (the descriptor the session's net object carries
    is closed, and no other descriptor is), and releases the buffers (the
    net object and the session block go back to the allocator); it
    touches no other block. *)
Theorem ktp_session_free_spec :
  (forall h, ktp_session_free NULL h = (Ret tt, h)) /\
  (forall h, (ktp_session_free NULL h).2 = h /\
             ktp_session_free NULL (ktp_session_free NULL h).2 = (Ret tt, h)) /\
  (forall h l s,
     session_at h l s ->
     exists h',
       ktp_session_free (Some l) h = (Ret tt, h') /\
       cells h' !! l = None /\
       (forall n nb, net s = Some n -> cells h !! n = Some (Bnet nb) ->
                     cells h' !! n = None /\
                     (fd nb ∉ open_fds h') /\
                     open_fds h' = open_fds h ∖ {[fd nb]}) /\
       (net s = None -> open_fds h' = open_fds h) /\
       (forall l', l' <> l -> net s <> Some l' -> cells h' !! l' = cells h !! l') /\
       room h' = (room h + if is_null (net s) then 1 else 2)%nat).
Proof.
  split; [reflexivity|]. split; [intros h; split; reflexivity|].
  intros h l s [Hl Hn].
  unfold ktp_session_free, bind, load_session, faux_net_free. rewrite Hl.
  destruct (net s) as [n|] eqn:Hnet.
  - destruct Hn as [nb Hnb].
    assert (Hne : n <> l) by (intros ->; congruence).
    unfold faux_free. rewrite Hnb. simpl.
    rewrite lookup_delete_ne by congruence. rewrite Hl.
    eexists. split; [reflexivity|]. simpl.
    split; [apply lookup_delete_eq|].
    split; [|split; [discriminate|split]].
    + intros n' nb' Heq Hnb'.
      assert (Hn' : n' = n) by congruence. rewrite Hn' in Hnb' |- *.
      assert (Hb : nb' = nb) by congruence. rewrite Hb.
      split; [|split; [|reflexivity]].
      2:{ intros [_ Hx]%elem_of_difference. apply Hx. now apply elem_of_singleton. }
      rewrite lookup_delete_ne by congruence. apply lookup_delete_eq.
    + intros l' Hl' Hn'.
      rewrite lookup_delete_ne by congruence.
      rewrite lookup_delete_ne by congruence. reflexivity.
    + lia.
  - unfold faux_free. simpl. rewrite Hl.
    eexists. split; [reflexivity|]. simpl.
    split; [apply lookup_delete_eq|].
    split; [|split; [reflexivity|split]].
    + intros n' nb' Heq. discriminate.
    + intros l' Hl' _. now rewrite lookup_delete_ne by congruence.
    + lia.
Qed.

Lemma ktp_session_free_spec_witness :
  exists h',
    ktp_session_free (Some 1%positive) session_with_net = (Ret tt, h') /\
    cells h' !! 1%positive = None /\
    (forall n nb, Some 2%positive = Some n ->
                  cells session_with_net !! n = Some (Bnet nb) ->
                  cells h' !! n = None /\
                  (fd nb ∉ open_fds h') /\
                  open_fds h' = open_fds session_with_net ∖ {[fd nb]}) /\
    (Some 2%positive = None -> open_fds h' = open_fds session_with_net) /\
    (forall l', l' <> 1%positive -> Some 2%positive <> Some l' ->
                cells h' !! l' = cells session_with_net !! l') /\
    room h' = 2%nat.
Proof.
  apply (proj2 (proj2 ktp_session_free_spec) session_with_net 1%positive
           {| state := KTP_SESSION_STATE_AUTHORIZED; net := Some 2%positive |}).
  split; [reflexivity|]. simpl. exists {| fd := 5 |}. reflexivity.
Defined.

End KtpSessionFacts.

(** ** The client: how programs run *)

Section Running.
Import Clish.
Variable E : env.

Lemma exec_bind {A B} (p : prog A) (f : A -> prog B) (w : world) :
  exec E (bind p f) w =
  match ended (exec E p w) with
  | Returns a =>
      {| trace := trace (exec E p w) ++ trace (exec E (f a) (final (exec E p w)));
         ended := ended (exec E (f a) (final (exec E p w)));
         final := final (exec E (f a) (final (exec E p w))) |}
  | Exits z =>
      {| trace := trace (exec E p w); ended := Exits z; final := final (exec E p w) |}
  | Crashes =>
      {| trace := trace (exec E p w); ended := Crashes; final := final (exec E p w) |}
  end.
Proof.
  revert w. induction p as [a|z|a k IH]; intros w; simpl.
  - now destruct (exec E (f a) w).
  - reflexivity.
  - destruct (fatal E a); [reflexivity|]. cbn [trace ended final].
    rewrite IH. now destruct (ended (exec E (k (handle E a w).1) (handle E a w).2)).
Qed.

Lemma exec_act (a : action) (w : world) :
  fatal E a = false ->
  exec E (act a) w =
  {| trace := [a]; ended := Returns (handle E a w).1; final := (handle E a w).2 |}.
Proof. intros Hf. simpl. now rewrite Hf. Qed.

Lemma only_mono {A} (P Q : action -> Prop) (p : prog A) :
  (forall a, P a -> Q a) -> only P p -> only Q p.
Proof. intros HPQ Hp. induction Hp; constructor; auto. Qed.

Lemma only_bind {A B} (P : action -> Prop) (p : prog A) (f : A -> prog B) :
  only P p -> (forall a, only P (f a)) -> only P (bind p f).
Proof. intros Hp Hf. induction Hp; simpl; try constructor; auto. Qed.

Lemma only_only_rec {A} (P : action -> Prop) (p : prog A) :
  only P p <-> only_rec P p.
Proof.
  split.
  - induction 1; simpl; auto.
  - induction p as [a|z|a k IH]; simpl; [constructor|constructor|].
    intros [Ha Hk]. constructor; auto.
Qed.

Lemma only_Act_inv {A} (P : action -> Prop) (a : action) (k : ans a -> prog A) :
  only P (Act a k) -> P a /\ forall x, only P (k x).
Proof.
  intros H. apply only_only_rec in H. destruct H as [Ha Hk].
  split; [exact Ha|]. intros x. apply only_only_rec, Hk.
Qed.

(** What holds of every action of a program holds of every action of
    each of its runs. *)
Lemma only_trace {A} (P : action -> Prop) (p : prog A) (w : world) :
  only P p -> Forall P (trace (exec E p w)).
Proof.
  intros Hp. revert w. induction Hp as [a|z|a k Ha Hk IH]; intros w; simpl.
  - constructor.
  - constructor.
  - destruct (fatal E a); cbn [trace]; [now repeat constructor|].
    constructor; [assumption|apply IH].
Qed.

(** A part of the world that none of the program's actions touches is the
    same after the run. *)
Lemma only_frame {A X} (P : action -> Prop) (f : world -> X) (p : prog A) (w : world) :
  (forall a w', P a -> f (handle E a w').2 = f w') ->
  only P p -> f (final (exec E p w)) = f w.
Proof.
  intros Hf Hp. revert w. induction Hp as [a|z|a k Ha Hk IH]; intros w; simpl.
  - reflexivity.
  - reflexivity.
  - destruct (fatal E a); cbn [final]; [now apply Hf|].
    rewrite IH. now apply Hf.
Qed.

End Running.

(** ** The client: the blocks of [main] *)

Section Blocks.
Import Clish.
Local Open Scope list_scope.
Variable E : env.
Variable cfg : config.

Lemma add_settings_core (sts acc : list action) (f : FILE) (soe : bool)
    (srcs : list source) :
  add_settings sts {| sh_ostream := f;
                      sh_core := {| sh_stop_on_error := soe; sh_settings := acc;
                                    sh_sources := srcs |} |}
  = {| sh_ostream := f;
       sh_core := {| sh_stop_on_error := soe; sh_settings := acc ++ sts;
                     sh_sources := srcs |} |}.
Proof.
  revert acc. induction sts as [|a sts IH]; intros acc; simpl.
  - now rewrite app_nil_r.
  - unfold add_setting. simpl. rewrite IH. now rewrite <- app_assoc.
Qed.

Lemma with_shell_twice (a b : option clish_shell_t) (w : world) :
  with_shell a (with_shell b w) = with_shell a w.
Proof. reflexivity. Qed.

Lemma exec_startup (w : world) :
  exec E (startup cfg) w =
  {| trace := startup_trace cfg; ended := Returns (locals0 E cfg); final := started cfg w |}.
Proof.
  unfold startup, startup_trace, started. destruct (HAVE_LOCALE_H cfg); reflexivity.
Qed.

Lemma exec_configure_shell (o : locals) (w : world) :
  exec E (configure_shell cfg o) w =
  {| trace := configure_trace E cfg o;
     ended := Returns tt;
     final := with_shell
                (add_settings (filter (fun a => is_setting a = true) (configure_trace E cfg o))
                   <$> w_shell w) w |}.
Proof.
  unfold configure_trace, configure_shell.
  destruct o as [sp ll soe ia q u8 b8 xp v vid]; simpl.
  destruct w as [hk sg lc sh so se nu cld lp].
  destruct ll, ia, v, vid, u8, b8, (HAVE_LANGINFO_CODESET cfg);
    simpl; try destruct (nl_langinfo_CODESET E =? "UTF-8")%string;
    destruct sh; reflexivity.
Qed.

Lemma push_stack_nil (soe : bool) (sh : option clish_shell_t) (w : world) :
  with_shell (push_stack E soe [] <$> sh) w = with_shell sh w.
Proof. destruct sh as [[f [a b c]]|]; reflexivity. Qed.

Lemma push_stack_snoc (soe : bool) (fs : list string) (x : string)
    (sh : option clish_shell_t) :
  push_stack E soe fs <$>
    (if readable E x then push_source (file_source soe x) <$> sh else sh)
  = push_stack E soe (fs ++ [x]) <$> sh.
Proof.
  unfold push_stack. rewrite filter_app, map_app.
  destruct (readable E x) eqn:Hx.
  - rewrite filter_cons_True by assumption. rewrite filter_nil. simpl.
    destruct sh as [[f [a b c]]|]; simpl; [|reflexivity].
    now rewrite <- app_assoc.
  - rewrite filter_cons_False by congruence. rewrite filter_nil. simpl.
    rewrite app_nil_r. reflexivity.
Qed.

(** The file loop walks [argv] from its last element down to [optind]. *)
Lemma exec_push_files (av : list string) (soe : bool) (oi n : nat) (w : world) :
  (oi + n <= length av)%nat ->
  exec E (push_files av soe oi n) w =
  {| trace := map (fun f => c_clish_shell_push_file f soe) (rev (take n (drop oi av)));
     ended := Returns tt;
     final := with_shell (push_stack E soe (take n (drop oi av)) <$> w_shell w) w |}.
Proof.
  revert w. induction n as [|n IH]; intros w Hlen.
  - simpl. rewrite take_0. simpl. rewrite push_stack_nil.
    now destruct w.
  - assert (Hx : drop oi av !! n = Some (nth (oi + n) av "")).
    { rewrite lookup_drop.
      destruct (lookup_lt_is_Some_2 av (oi + n)) as [x Hx]; [lia|].
      now rewrite (nth_lookup_Some _ _ "" _ Hx). }
    rewrite (take_S_r _ _ _ Hx). rewrite rev_app_distr. simpl.
    rewrite IH by lia. f_equal.
    unfold clish_shell_push_file.
    destruct (readable E (nth (oi + n) av "")) eqn:Hr; simpl.
    + rewrite <- (push_stack_snoc soe _ (nth (oi + n) av "")). rewrite Hr.
      reflexivity.
    + rewrite <- (push_stack_snoc soe _ (nth (oi + n) av "")). rewrite Hr.
      reflexivity.
Qed.

Lemma files_nil (cl : cmdline) :
  (optind cl <? argc cl)%nat = false -> files cl = [].
Proof.
  intros H. apply Nat.ltb_ge in H. unfold files, argc in *.
  now apply drop_ge.
Qed.

Lemma files_cons (cl : cmdline) :
  (optind cl <? argc cl)%nat = true -> exists f fs, files cl = f :: fs.
Proof.
  intros H. apply Nat.ltb_lt in H. unfold files, argc in *.
  destruct (drop (optind cl) (argv cl)) as [|f fs] eqn:Hd.
  - apply (f_equal length) in Hd. rewrite length_drop in Hd. simpl in Hd. lia.
  - eauto.
Qed.

Lemma exec_push_sources (cl : cmdline) (o : locals) (w : world) (sh : clish_shell_t) :
  w_shell w = Some sh -> sh_sources (sh_core sh) = [] ->
  exec E (push_sources cl o) w =
  {| trace := push_trace cl (stop_on_error o);
     ended := Returns tt;
     final := with_shell
                (Some {| sh_ostream := sh_ostream sh;
                         sh_core := {| sh_stop_on_error := sh_stop_on_error (sh_core sh);
                                       sh_settings := sh_settings (sh_core sh);
                                       sh_sources := pushed_stack E cl (stop_on_error o) |} |})
                w |}.
Proof.
  intros Hsh Hnil. unfold push_sources, push_trace, pushed_stack.
  destruct (optind cl <? argc cl)%nat eqn:Hlt.
  - destruct (files_cons cl Hlt) as (f & fs & Hf). rewrite Hf.
    rewrite exec_push_files by (apply Nat.ltb_lt in Hlt; unfold argc in *; lia).
    assert (Hall : take (argc cl - optind cl) (drop (optind cl) (argv cl)) = files cl).
    { unfold files. apply take_ge. rewrite length_drop. unfold argc. lia. }
    rewrite Hall, Hf, Hsh. simpl. unfold push_stack. rewrite Hnil, app_nil_r.
    reflexivity.
  - rewrite (files_nil cl Hlt). simpl. unfold clish_shell_push_fd. simpl.
    rewrite Hsh. simpl. unfold push_source, stdin_source. rewrite Hnil.
    reflexivity.
Qed.

Lemma exec_loop_and_cleanup (o : locals) (w : world) (sh : clish_shell_t) :
  w_shell w = Some sh ->
  exec E (loop_and_cleanup o (sh_ostream sh)) w =
  let res := shell_loop E (sh_core sh) (w_my_hooks w) in
  let le := {| le_core := sh_core sh; le_hooks := w_my_hooks w;
               le_ostream := sh_ostream sh; le_result := res.1; le_echo := res.2 |} in
  let w1 := with_shell None (emit (sh_ostream sh) res.2 (with_loop (Some le) w)) in
  {| trace := [c_clish_shell_loop; c_clish_shell_delete]
              ++ (if quiet o then [c_fclose (sh_ostream sh)] else []);
     ended := if quiet o && is_NULL E (sh_ostream sh) then Crashes
              else Returns (if truthy res.1 then 0 else -1);
     final := if quiet o then with_closed (w_closed w ++ [sh_ostream sh]) w1 else w1 |}.
Proof.
  intros Hsh. unfold loop_and_cleanup. simpl. unfold clish_shell_loop. rewrite Hsh.
  destruct (shell_loop E (sh_core sh) (w_my_hooks w)) as [res echo]. simpl.
  destruct (quiet o); simpl.
  - destruct (sh_ostream sh); simpl;
      [|destruct (fopen_ok E)|destruct (fdopen_ok E)]; reflexivity.
  - destruct (sh_ostream sh); reflexivity.
Qed.

(** Everything after the option loop, branch by branch. *)
Lemma exec_run_shell (cl : cmdline) (o : locals) (w : world) :
  exec E (run_shell cfg cl o) w =
  if utf8 o && bit8 o then
    {| trace := [c_fprintf_stderr ("The -u and -8 options can't be used together." ++ Clish.LF)%string];
       ended := Returns (-1);
       final := with_stderr
                  (w_stderr w ++ [("The -u and -8 options can't be used together." ++ Clish.LF)%string]) w |}
  else
    let pre := ((if quiet o then [c_fopen_dev_null] else [])
                ++ [c_clish_shell_new (outfd_of o) (stop_on_error o)])%list in
    if negb (shell_new_ok E) then
      {| trace := (pre ++ [c_fprintf_stderr ("Cannot run clish." ++ Clish.LF)%string])%list;
         ended := Returns (-1);
         final := with_stderr (w_stderr w ++ [("Cannot run clish." ++ Clish.LF)%string]) w |}
    else
      let trc := (pre ++ configure_trace E cfg o ++ [c_clish_shell_startup])%list in
      if negb (shell_startup E (configured_core E cfg o) (w_my_hooks w)) then
        {| trace := (trc ++ [c_fprintf_stderr ("Cannot startup clish." ++ Clish.LF)%string;
                             c_clish_shell_delete])%list;
           ended := Returns (-1);
           final := with_shell None
                      (with_stderr (w_stderr w ++ [("Cannot startup clish." ++ Clish.LF)%string]) w) |}
      else
        let res := shell_loop E (loaded_core E cfg cl o) (w_my_hooks w) in
        let le := {| le_core := loaded_core E cfg cl o; le_hooks := w_my_hooks w;
                     le_ostream := outfd_of o; le_result := res.1; le_echo := res.2 |} in
        let w1 := with_shell None (emit (outfd_of o) res.2 (with_loop (Some le) w)) in
        {| trace := (trc ++ push_trace cl (stop_on_error o)
                     ++ [c_clish_shell_loop; c_clish_shell_delete]
                     ++ (if quiet o then [c_fclose dev_null] else []))%list;
           ended := if quiet o && negb (fopen_ok E) then Crashes
                    else Returns (if truthy res.1 then 0 else -1);
           final := if quiet o then with_closed (w_closed w ++ [dev_null]) w1 else w1 |}.
Proof.
  unfold run_shell.
  destruct (utf8 o && bit8 o); [reflexivity|].
  rewrite exec_bind.
  assert (Hout : exec E (if quiet o then act c_fopen_dev_null else Return stdout) w =
                 {| trace := if quiet o then [c_fopen_dev_null] else [];
                    ended := Returns (outfd_of o); final := w |}).
  { unfold outfd_of. destruct (quiet o); reflexivity. }
  rewrite Hout. cbn [ended final trace]. clear Hout.
  rewrite exec_bind, exec_act by reflexivity. cbn [ended final trace handle fst snd].
  unfold clish_shell_new.
  destruct (shell_new_ok E); cbn [negb fst snd];
    [|simpl; rewrite <- ?app_assoc; reflexivity].
  set (sh0 := {| sh_ostream := outfd_of o;
                 sh_core := {| sh_stop_on_error := stop_on_error o;
                               sh_settings := []; sh_sources := [] |} |}).
  rewrite exec_bind, exec_configure_shell. cbn [ended final trace].
  rewrite exec_bind, exec_act by reflexivity. cbn [ended final trace handle fst snd].
  unfold clish_shell_startup. cbn [w_shell with_shell fmap option_fmap option_map].
  set (sh1 := add_settings _ sh0).
  assert (Hsh1 : sh1 = {| sh_ostream := outfd_of o; sh_core := configured_core E cfg o |}).
  { unfold sh1, sh0. now rewrite add_settings_core. }
  rewrite Hsh1. cbn [sh_core fst snd]. rewrite !with_shell_twice.
  change (w_my_hooks (with_shell ?a w)) with (w_my_hooks w).
  destruct (shell_startup E (configured_core E cfg o) (w_my_hooks w)); cbn [negb].
  - rewrite exec_bind.
    rewrite (exec_push_sources cl o
               (with_shell (Some {| sh_ostream := outfd_of o;
                                    sh_core := configured_core E cfg o |}) w)
               {| sh_ostream := outfd_of o; sh_core := configured_core E cfg o |}
               eq_refl eq_refl).
    cbn [ended final trace sh_ostream sh_core sh_stop_on_error sh_settings configured_core].
    fold (loaded_core E cfg cl o).
    rewrite with_shell_twice.
    pose proof (exec_loop_and_cleanup o
                  (with_shell (Some {| sh_ostream := outfd_of o;
                                       sh_core := loaded_core E cfg cl o |}) w)
                  {| sh_ostream := outfd_of o; sh_core := loaded_core E cfg cl o |}
                  eq_refl) as Hloop.
    cbn [sh_ostream sh_core] in Hloop. rewrite Hloop. clear Hloop.
    change (w_my_hooks (with_shell ?a w)) with (w_my_hooks w).
    destruct (shell_loop E (loaded_core E cfg cl o) (w_my_hooks w)) as [res echo].
    cbn [fst snd].
    unfold outfd_of. destruct (quiet o); simpl; rewrite <- ?app_assoc;
      try destruct (fopen_ok E); reflexivity.
  - simpl. unfold outfd_of. destruct (quiet o); simpl; rewrite <- ?app_assoc; reflexivity.
Qed.

(** The option loop *)

Lemma switch_cases (c : ascii) :
  c = "s"%char \/ c = "l"%char \/ c = "e"%char \/ c = "b"%char \/ c = "q"%char \/
  c = "u"%char \/ c = "8"%char \/ c = "d"%char \/ c = "x"%char \/ c = "w"%char \/
  c = "i"%char \/ c = "h"%char \/ c = "v"%char \/
  (Ascii.eqb c "s" = false /\ Ascii.eqb c "l" = false /\ Ascii.eqb c "e" = false /\
   Ascii.eqb c "b" = false /\ Ascii.eqb c "q" = false /\ Ascii.eqb c "u" = false /\
   Ascii.eqb c "8" = false /\ Ascii.eqb c "d" = false /\ Ascii.eqb c "x" = false /\
   Ascii.eqb c "w" = false /\ Ascii.eqb c "i" = false /\ Ascii.eqb c "h" = false /\
   Ascii.eqb c "v" = false).
Proof.
  destruct (Ascii.eqb c "s") eqn:Hs; [apply Ascii.eqb_eq in Hs; tauto|].
  destruct (Ascii.eqb c "l") eqn:Hl; [apply Ascii.eqb_eq in Hl; tauto|].
  destruct (Ascii.eqb c "e") eqn:He; [apply Ascii.eqb_eq in He; tauto|].
  destruct (Ascii.eqb c "b") eqn:Hb; [apply Ascii.eqb_eq in Hb; tauto|].
  destruct (Ascii.eqb c "q") eqn:Hq; [apply Ascii.eqb_eq in Hq; tauto|].
  destruct (Ascii.eqb c "u") eqn:Hu; [apply Ascii.eqb_eq in Hu; tauto|].
  destruct (Ascii.eqb c "8") eqn:H8; [apply Ascii.eqb_eq in H8; tauto|].
  destruct (Ascii.eqb c "d") eqn:Hd; [apply Ascii.eqb_eq in Hd; tauto|].
  destruct (Ascii.eqb c "x") eqn:Hx; [apply Ascii.eqb_eq in Hx; tauto|].
  destruct (Ascii.eqb c "w") eqn:Hw; [apply Ascii.eqb_eq in Hw; tauto|].
  destruct (Ascii.eqb c "i") eqn:Hi; [apply Ascii.eqb_eq in Hi; tauto|].
  destruct (Ascii.eqb c "h") eqn:Hh; [apply Ascii.eqb_eq in Hh; tauto|].
  destruct (Ascii.eqb c "v") eqn:Hv; [apply Ascii.eqb_eq in Hv; tauto|].
  tauto.
Qed.

Lemma printf_all_only (ls : list string) :
  only (fun a => kind_of a = KPrint) (printf_all ls).
Proof.
  induction ls as [|l ls IH]; simpl; [constructor|].
  constructor; [reflexivity|]. intros x. exact IH.
Qed.

Lemma printf_all_returns (ls : list string) (w : world) :
  ended (exec E (printf_all ls) w) = Returns tt.
Proof. revert w. induction ls as [|l ls IH]; intros w; simpl; [reflexivity|apply IH]. Qed.

Lemma help_only (st : Z) (a0 : option string) :
  only (fun a => kind_of a = KPrint) (help st a0).
Proof.
  unfold help. destruct a0 as [a0|]; [|constructor].
  destruct (negb (st =? 0)%Z).
  - constructor; [reflexivity|]. intros x. constructor.
  - apply printf_all_only.
Qed.

Lemma help_returns (st : Z) (a0 : option string) (w : world) :
  ended (exec E (help st a0) w) = Returns tt.
Proof.
  unfold help. destruct a0 as [a0|]; [|reflexivity].
  destruct (negb (st =? 0)%Z); [reflexivity|apply printf_all_returns].
Qed.

(** The option loop only prints and stores the dry-run callback. *)
Lemma parse_only (a0 : option string) (gs : list getopt_ret) (o : locals) :
  only (fun a => a = c_store_script_fn clish_dryrun_callback \/ kind_of a = KPrint)
    (parse_options cfg a0 gs o).
Proof.
  revert o. induction gs as [|[c arg] gs IH]; intros o; [constructor|].
  assert (Hhelp : forall st z,
            only (fun a => a = c_store_script_fn clish_dryrun_callback \/ kind_of a = KPrint)
              (run help st a0 in (Exit z : prog locals))).
  { intros st z. apply only_bind; [|intros; constructor].
    eapply only_mono; [|apply help_only]. intros a Ha; now right. }
  destruct (switch_cases c) as
    [->|[->|[->|[->|[->|[->|[->|[->|[->|[->|[->|[->|[->|Hother]]]]]]]]]]]]];
    simpl; try apply IH.
  - constructor; [now left|]. intros x. apply IH.
  - apply Hhelp.
  - constructor; [now right|]. intros x. constructor.
  - destruct Hother as (H1&H2&H3&H4&H5&H6&H7&H8&H9&H10&H11&H12&H13).
    rewrite H1, H2, H3, H4, H5, H6, H7, H8, H9, H10, H11, H12, H13.
    apply Hhelp.
Qed.

Lemma proceeds_other (c : ascii) :
  Ascii.eqb c "s" = false -> Ascii.eqb c "l" = false -> Ascii.eqb c "e" = false ->
  Ascii.eqb c "b" = false -> Ascii.eqb c "q" = false -> Ascii.eqb c "u" = false ->
  Ascii.eqb c "8" = false -> Ascii.eqb c "d" = false -> Ascii.eqb c "x" = false ->
  Ascii.eqb c "w" = false -> Ascii.eqb c "i" = false ->
  proceeds c = false.
Proof.
  intros H1 H2 H3 H4 H5 H6 H7 H8 H9 H10 H11. unfold proceeds. simpl.
  now rewrite H1, H2, H3, H4, H5, H6, H7, H8, H9, H10, H11.
Qed.

(** When every option lets the loop go on, the loop returns, with the
    flags that were given switched on. *)
Lemma parse_returns (a0 : option string) (gs : list getopt_ret) (o : locals) (w : world) :
  parses gs = true ->
  exists o',
    ended (exec E (parse_options cfg a0 gs o) w) = Returns o' /\
    utf8 o' = utf8 o || given "u" gs /\
    bit8 o' = bit8 o || given "8" gs /\
    quiet o' = quiet o || given "q" gs /\
    stop_on_error o' = stop_on_error o || given "e" gs.
Proof.
  revert o w. induction gs as [|[c arg] gs IH]; intros o w Hp.
  - exists o. simpl. now rewrite !orb_false_r.
  - simpl in Hp. apply andb_true_iff in Hp as [Hc Hp].
    destruct (switch_cases c) as
      [->|[->|[->|[->|[->|[->|[->|[->|[->|[->|[->|[->|[->|Hother]]]]]]]]]]]]];
      try discriminate Hc; simpl;
      try (edestruct IH as (o' & He & Hu & Hb & Hq & Hs); [exact Hp|];
           exists o'; rewrite He, Hu, Hb, Hq, Hs; simpl;
           rewrite ?orb_true_r, ?orb_assoc; repeat split; reflexivity).
    destruct Hother as (H1&H2&H3&H4&H5&H6&H7&H8&H9&H10&H11&H12&H13).
    rewrite proceeds_other in Hc by assumption. discriminate.
Qed.

(** When some option ends the process, the loop exits, with status 0
    after help or version and -1 otherwise. *)
Lemma parse_exits (a0 : option string) (gs : list getopt_ret) (o : locals) (w : world) :
  parses gs = false ->
  exists z,
    ended (exec E (parse_options cfg a0 gs o) w) = Exits z /\ (z = 0 \/ z = -1).
Proof.
  revert o w. induction gs as [|[c arg] gs IH]; intros o w Hp; [discriminate|].
  simpl in Hp.
  assert (Hhelp : forall st z w',
            ended (exec E (run help st a0 in (Exit z : prog locals)) w') = Exits z).
  { intros st z w'. rewrite exec_bind, help_returns. reflexivity. }
  destruct (switch_cases c) as
    [->|[->|[->|[->|[->|[->|[->|[->|[->|[->|[->|[->|[->|Hother]]]]]]]]]]]]];
    simpl in Hp |- *; try (apply IH; exact Hp).
  - exists 0. rewrite Hhelp. auto.
  - exists 0. auto.
  - destruct Hother as (H1&H2&H3&H4&H5&H6&H7&H8&H9&H10&H11&H12&H13).
    rewrite H1, H2, H3, H4, H5, H6, H7, H8, H9, H10, H11, H12, H13.
    exists (-1). rewrite Hhelp. auto.
Qed.

(** What the option loop leaves untouched. *)
Lemma parse_frame {X} (f : world -> X) (a0 : option string) (gs : list getopt_ret)
    (o : locals) (w : world) :
  (forall w' s, f (emit stdout [s] w') = f w') ->
  (forall w' v, f (with_stderr v w') = f w') ->
  (forall w' v, f (with_my_hooks v w') = f w') ->
  f (final (exec E (parse_options cfg a0 gs o) w)) = f w.
Proof.
  intros Hout Herr Hhk.
  apply (only_frame E _ f _ w) with (2 := parse_only a0 gs o).
  intros a w' [->|Ha]; [apply Hhk|].
  destruct a; try discriminate Ha; simpl; [apply Hout|apply Herr].
Qed.

(** The hooks after the option loop: the script slot holds the dry-run
    callback exactly when the loop got to see [-d]; nothing else changed. *)
Lemma parse_hooks (a0 : option string) (gs : list getopt_ret) (o : locals) (w : world) :
  w_my_hooks (final (exec E (parse_options cfg a0 gs o) w)) =
  if given "d" (seen gs)
  then set_script_fn clish_dryrun_callback (w_my_hooks w)
  else w_my_hooks w.
Proof.
  revert o w. induction gs as [|[c arg] gs IH]; intros o w; [reflexivity|].
  assert (Hhelp : forall st z w',
            w_my_hooks (final (exec E (run help st a0 in (Exit z : prog locals)) w'))
            = w_my_hooks w').
  { intros st z w'.
    apply (only_frame E (fun a => kind_of a = KPrint) w_my_hooks).
    - intros a w'' Ha. destruct a; try discriminate Ha; reflexivity.
    - apply only_bind; [apply help_only|intros; constructor]. }
  destruct (switch_cases c) as
    [->|[->|[->|[->|[->|[->|[->|[->|[->|[->|[->|[->|[->|Hother]]]]]]]]]]]]];
    simpl; try (rewrite IH; reflexivity).
  - rewrite IH. simpl. now destruct (given "d" (seen gs)).
  - apply Hhelp.
  - reflexivity.
  - destruct Hother as (H1&H2&H3&H4&H5&H6&H7&H8&H9&H10&H11&H12&H13).
    rewrite proceeds_other by assumption. simpl.
    rewrite H1, H2, H3, H4, H5, H6, H7, H8, H9, H10, H11, H12, H13.
    simpl. rewrite ?H8. simpl. apply Hhelp.
Qed.

(** A run of the client: the start, the option loop, and the rest when
    the loop returns. *)
Lemma clish_unfold (d : signal -> sighandler) (cl : cmdline) :
  clish E cfg d cl =
  match ended (parse_run E cfg d cl) with
  | Returns o =>
      let r := exec E (run_shell cfg cl o) (final (parse_run E cfg d cl)) in
      {| trace := startup_trace cfg ++ trace (parse_run E cfg d cl) ++ trace r;
         ended := ended r; final := final r |}
  | Exits z =>
      {| trace := startup_trace cfg ++ trace (parse_run E cfg d cl);
         ended := Exits z; final := final (parse_run E cfg d cl) |}
  | Crashes =>
      {| trace := startup_trace cfg ++ trace (parse_run E cfg d cl);
         ended := Crashes; final := final (parse_run E cfg d cl) |}
  end.
Proof.
  unfold clish, main, parse_run.
  rewrite exec_bind, exec_startup. cbn [ended final trace].
  rewrite exec_bind.
  destruct (ended (exec E (parse_options cfg (argv0 cl) (opts cl) (locals0 E cfg))
                     (started cfg (initial_world d)))); reflexivity.
Qed.

End Blocks.

(** ** The client: the shape of a run *)

Section Anatomy.
Import Clish.
Local Open Scope list_scope.
Variable E : env.
Variable cfg : config.

Lemma omap_none {X} (f : action -> option X) (tr : list action) :
  Forall (fun a => f a = None) tr -> omap f tr = [].
Proof.
  induction 1 as [|a tr Ha _ IH]; [reflexivity|]. simpl. rewrite Ha. exact IH.
Qed.

Lemma push_files_only (av : list string) (soe : bool) (oi n : nat) :
  only (fun a => kind_of a = KPush) (push_files av soe oi n).
Proof.
  induction n as [|n IH]; simpl; [constructor|].
  constructor; [reflexivity|]. intros x. exact IH.
Qed.

Ltac only_step :=
  match goal with
  | |- only _ (Return _) => constructor
  | |- only _ skip => constructor
  | |- only _ (act _) => unfold act
  | |- only _ (Act _ _) => constructor; [vm_compute; reflexivity|intros ?]
  | |- only _ (bind _ _) => apply only_bind; [|intros ?]
  | |- only _ (if ?b then _ else _) => destruct b
  | |- only _ (match ?x with Some _ => _ | None => _ end) => destruct x
  end.

Ltac kinds_mono :=
  let x := fresh "x" in
  let Hx := fresh "Hx" in
  intros x Hx; destruct x; vm_compute in Hx; try discriminate Hx;
  vm_compute; reflexivity.

Lemma configure_shell_only (o : locals) :
  only (fun a => of_kinds [KEnv; KSetting] a = true) (configure_shell cfg o).
Proof. unfold configure_shell. repeat only_step. Qed.

(** After the option loop the program stores no hook and changes no
    signal disposition. *)
Lemma run_shell_only (cl : cmdline) (o : locals) :
  only (fun a => of_kinds shell_kinds a = true) (run_shell cfg cl o).
Proof.
  unfold run_shell, loop_and_cleanup, push_sources.
  repeat first
    [ only_step
    | eapply only_mono; [|apply configure_shell_only]; kinds_mono
    | eapply only_mono; [|apply push_files_only]; kinds_mono ].
Qed.

Lemma parse_trace_kinds (d : signal -> sighandler) (cl : cmdline) :
  Forall (fun a => a = c_store_script_fn clish_dryrun_callback \/ kind_of a = KPrint)
    (trace (parse_run E cfg d cl)).
Proof. unfold parse_run. apply only_trace, parse_only. Qed.

Lemma configure_trace_kinds (o : locals) :
  Forall (fun a => of_kinds [KEnv; KSetting] a = true) (configure_trace E cfg o).
Proof. unfold configure_trace. apply only_trace, configure_shell_only. Qed.

Lemma shell_trace_kinds (cl : cmdline) (o : locals) (w : world) :
  Forall (fun a => of_kinds shell_kinds a = true) (trace (exec E (run_shell cfg cl o) w)).
Proof. apply only_trace, run_shell_only. Qed.

Lemma startup_trace_kinds :
  Forall (fun a => of_kinds [KEnv; KSignal] a = true) (startup_trace cfg).
Proof.
  unfold startup_trace. destruct (HAVE_LOCALE_H cfg); repeat constructor.
Qed.

(** An action of some kind is not in a list of actions of other kinds. *)
Lemma not_in_kinds (ks : list kind) (a : action) (tr : list action) :
  Forall (fun b => of_kinds ks b = true) tr -> of_kinds ks a = false -> a ∉ tr.
Proof.
  intros Hall Ha Hin. rewrite Forall_forall in Hall.
  specialize (Hall a Hin). congruence.
Qed.

Lemma not_in_parse (d : signal -> sighandler) (cl : cmdline) (a : action) :
  kind_of a <> KHook -> kind_of a <> KPrint -> a ∉ trace (parse_run E cfg d cl).
Proof.
  intros Hh Hp Hin. pose proof (parse_trace_kinds d cl) as Hall.
  rewrite Forall_forall in Hall.
  destruct (Hall a Hin) as [->|Hk]; [now apply Hh|now apply Hp].
Qed.

Lemma parse_run_ended (d : signal -> sighandler) (cl : cmdline) (o : locals) :
  ended (parse_run E cfg d cl) = Returns o -> parses (opts cl) = true.
Proof.
  intros Hend. destruct (parses (opts cl)) eqn:Hp; [reflexivity|].
  destruct (parse_exits E cfg (argv0 cl) (opts cl) (locals0 E cfg)
              (started cfg (initial_world d)) Hp) as (z & Hz & _).
  unfold parse_run in Hend. congruence.
Qed.

(** A run that gets to the dispatch loop parsed all its options, passed
    the validation, created and started the shell, and went on as
    [looped] says. *)
Lemma loop_reached (d : signal -> sighandler) (cl : cmdline) :
  c_clish_shell_loop ∈ trace (clish E cfg d cl) ->
  exists o,
    ended (parse_run E cfg d cl) = Returns o /\
    parses (opts cl) = true /\
    utf8 o && bit8 o = false /\
    clish E cfg d cl =
    {| trace := startup_trace cfg ++ trace (parse_run E cfg d cl)
                ++ trace (looped E cfg cl o (final (parse_run E cfg d cl)));
       ended := ended (looped E cfg cl o (final (parse_run E cfg d cl)));
       final := final (looped E cfg cl o (final (parse_run E cfg d cl))) |}.
Proof.
  rewrite clish_unfold.
  assert (Hs : c_clish_shell_loop ∉ startup_trace cfg).
  { apply (not_in_kinds _ _ _ startup_trace_kinds). reflexivity. }
  assert (Hp : c_clish_shell_loop ∉ trace (parse_run E cfg d cl)).
  { apply not_in_parse; discriminate. }
  assert (Hc : forall o, c_clish_shell_loop ∉ configure_trace E cfg o).
  { intros o. apply (not_in_kinds _ _ _ (configure_trace_kinds o)). reflexivity. }
  destruct (ended (parse_run E cfg d cl)) as [o|z|] eqn:Hend; cbn [trace].
  - rewrite exec_run_shell. intros Hin. exists o.
    split; [reflexivity|]. split; [exact (parse_run_ended d cl o Hend)|].
    destruct (utf8 o && bit8 o) eqn:Hu8.
    { cbn [trace] in Hin. rewrite !elem_of_app in Hin.
      destruct Hin as [?|[?|Hin]]; try tauto.
      apply list_elem_of_singleton in Hin. discriminate. }
    split; [reflexivity|].
    cbv zeta in Hin |- *.
    destruct (shell_new_ok E); cbn [negb] in Hin |- *.
    2:{ cbn [trace] in Hin. rewrite !elem_of_app in Hin.
        destruct Hin as [?|[?|[[Hin|Hin]|Hin]]]; try tauto.
        - destruct (quiet o); inversion Hin; subst;
            match goal with H : _ ∈ [] |- _ => inversion H end.
        - apply list_elem_of_singleton in Hin. discriminate.
        - apply list_elem_of_singleton in Hin. discriminate. }
    destruct (shell_startup E (configured_core E cfg o)
                (w_my_hooks (final (parse_run E cfg d cl)))); cbn [negb] in Hin |- *.
    + reflexivity.
    + cbn [trace] in Hin. rewrite !elem_of_app in Hin. specialize (Hc o).
      destruct Hin as [?|[?|[[[Hin|Hin]|[?|Hin]]|Hin]]]; try tauto.
      * destruct (quiet o); inversion Hin; subst;
          match goal with H : _ ∈ [] |- _ => inversion H end.
      * apply list_elem_of_singleton in Hin. discriminate.
      * apply list_elem_of_singleton in Hin. discriminate.
      * inversion Hin as [|? ? ? Hin']; subst.
        apply list_elem_of_singleton in Hin'. discriminate.
  - rewrite elem_of_app. tauto.
  - rewrite elem_of_app. tauto.
Qed.

(** Every run: the start, the option loop, and then only actions of the
    kinds that follow the option loop. *)
Lemma clish_trace_split (d : signal -> sighandler) (cl : cmdline) :
  exists rest,
    trace (clish E cfg d cl) = (startup_trace cfg ++ trace (parse_run E cfg d cl)) ++ rest /\
    Forall (fun a => of_kinds shell_kinds a = true) rest /\
    (parses (opts cl) = false -> rest = []).
Proof.
  rewrite clish_unfold.
  destruct (ended (parse_run E cfg d cl)) as [o|z|] eqn:Hend; cbn [trace].
  - eexists. split; [apply app_assoc|]. split; [apply shell_trace_kinds|].
    intros Hp. rewrite (parse_run_ended d cl o Hend) in Hp. discriminate.
  - exists []. split; [now rewrite app_nil_r|]. split; [constructor|reflexivity].
  - exists []. split; [now rewrite app_nil_r|]. split; [constructor|reflexivity].
Qed.

Lemma looped_w_loop (cl : cmdline) (o : locals) (w : world) :
  w_loop (final (looped E cfg cl o w)) =
  Some {| le_core := loaded_core E cfg cl o; le_hooks := w_my_hooks w;
          le_ostream := outfd_of o;
          le_result := (shell_loop E (loaded_core E cfg cl o) (w_my_hooks w)).1;
          le_echo := (shell_loop E (loaded_core E cfg cl o) (w_my_hooks w)).2 |}.
Proof. unfold looped, outfd_of. cbn [final]. destruct (quiet o); reflexivity. Qed.

Lemma looped_w_my_hooks (cl : cmdline) (o : locals) (w : world) :
  w_my_hooks (final (looped E cfg cl o w)) = w_my_hooks w.
Proof. unfold looped, outfd_of. cbn [final]. destruct (quiet o); reflexivity. Qed.

Lemma parses_seen (gs : list getopt_ret) : parses gs = true -> seen gs = gs.
Proof.
  induction gs as [|g gs IH]; [reflexivity|]. simpl.
  intros H. apply andb_true_iff in H as [Hg Hgs]. rewrite Hg. now rewrite IH.
Qed.

End Anatomy.

(** ** The client: input sources and exit status *)

Section Sources.
Import Clish.
Local Open Scope list_scope.
Variable E : env.
Variable cfg : config.

(** A selector that skips every action of the kinds [ks] finds nothing in
    a list of such actions. *)
Lemma omap_kinds {X} (f : action -> option X) (ks : list kind) (tr : list action) :
  (forall a, of_kinds ks a = true -> f a = None) ->
  Forall (fun a => of_kinds ks a = true) tr -> omap f tr = [].
Proof.
  intros Hf Hall. apply omap_none. eapply Forall_impl; [exact Hall|]. exact Hf.
Qed.

Lemma omap_parse {X} (f : action -> option X) (d : signal -> sighandler) (cl : cmdline) :
  (forall a, kind_of a = KHook \/ kind_of a = KPrint -> f a = None) ->
  omap f (trace (parse_run E cfg d cl)) = [].
Proof.
  intros Hf. apply omap_none.
  eapply Forall_impl; [apply parse_trace_kinds|].
  intros a [->|Ha]; apply Hf; [now left|now right].
Qed.

Ltac other_kinds :=
  repeat first
    [ assumption
    | apply Forall_app; split
    | constructor; [split; discriminate|]
    | constructor ].

Lemma pushed_files_push_trace (cl : cmdline) (soe : bool) :
  pushed_files (push_trace cl soe) = rev (files cl).
Proof.
  unfold push_trace. destruct (files cl) as [|f fs]; [reflexivity|].
  generalize (rev (f :: fs)). intros l.
  induction l as [|x l IH]; [reflexivity|]. simpl. f_equal. exact IH.
Qed.

Lemma pushed_streams_push_trace (cl : cmdline) (soe : bool) :
  pushed_streams (push_trace cl soe) =
  match files cl with [] => [stdin_dup] | _ :: _ => [] end.
Proof.
  unfold push_trace. destruct (files cl) as [|f fs]; [reflexivity|].
  generalize (rev (f :: fs)). intros l.
  induction l as [|x l IH]; [reflexivity|]. simpl. exact IH.
Qed.

Lemma stdin_opens_push_trace (cl : cmdline) (soe : bool) :
  stdin_opens (push_trace cl soe) =
  match files cl with [] => [tt] | _ :: _ => [] end.
Proof.
  unfold push_trace. destruct (files cl) as [|f fs]; [reflexivity|].
  generalize (rev (f :: fs)). intros l.
  induction l as [|x l IH]; [reflexivity|]. simpl. exact IH.
Qed.

(** The pushes of a run that gets to the dispatch loop are those of its
    input-source block. *)
Lemma looped_selects {X} (f : action -> option X) (cl : cmdline) (o : locals) (w : world) :
  (forall a, kind_of a <> KPush -> a <> c_fdopen_dup_stdin -> f a = None) ->
  omap f (trace (looped E cfg cl o w)) = omap f (push_trace cl (stop_on_error o)).
Proof.
  intros Hf. unfold looped. cbn [trace]. rewrite !omap_app.
  rewrite (omap_kinds f [KEnv; KSetting] _ ltac:(intros a Ha; apply Hf;
             destruct a; vm_compute in Ha; discriminate) (configure_trace_kinds E cfg o)).
  assert (H1 : omap f (if quiet o then [c_fopen_dev_null] else []) = []).
  { destruct (quiet o); simpl; [|reflexivity]. rewrite Hf; [reflexivity| |]; discriminate. }
  assert (H2 : omap f (if quiet o then [c_fclose dev_null] else []) = []).
  { destruct (quiet o); simpl; [|reflexivity]. rewrite Hf; [reflexivity| |]; discriminate. }
  rewrite H1, H2. simpl.
  rewrite !Hf by discriminate. simpl. now rewrite app_nil_r.
Qed.

Lemma reached_selects {X} (f : action -> option X) (d : signal -> sighandler)
    (cl : cmdline) :
  (forall a, kind_of a <> KPush -> a <> c_fdopen_dup_stdin -> f a = None) ->
  c_clish_shell_loop ∈ trace (clish E cfg d cl) ->
  exists o,
    ended (parse_run E cfg d cl) = Returns o /\
    omap f (trace (clish E cfg d cl)) = omap f (push_trace cl (stop_on_error o)).
Proof.
  intros Hf Hin. destruct (loop_reached E cfg d cl Hin) as (o & Hend & Hp & Hu & Hrun).
  exists o. split; [exact Hend|]. rewrite Hrun. cbn [trace]. rewrite !omap_app.
  rewrite (looped_selects f) by exact Hf.
  rewrite (omap_kinds f [KEnv; KSignal] _ ltac:(intros a Ha; apply Hf;
             destruct a; vm_compute in Ha; discriminate) (startup_trace_kinds cfg)).
  rewrite (omap_parse f) by (intros a [Ha|Ha]; apply Hf; destruct a; discriminate).
  reflexivity.
Qed.

(** In no run, however it ends, does the part after the option loop push
    a source of the other kind. *)
Lemma run_shell_pushes (cl : cmdline) (o : locals) (w : world) :
  (files cl <> [] ->
   pushed_streams (trace (exec E (run_shell cfg cl o) w)) = [] /\
   stdin_opens (trace (exec E (run_shell cfg cl o) w)) = []) /\
  (files cl = [] -> pushed_files (trace (exec E (run_shell cfg cl o) w)) = []).
Proof.
  assert (Hfail : forall tr (X : Type) (f : action -> option X),
            (forall a, kind_of a <> KPush -> a <> c_fdopen_dup_stdin -> f a = None) ->
            Forall (fun a => kind_of a <> KPush /\ a <> c_fdopen_dup_stdin) tr ->
            omap f tr = []).
  { intros tr X f Hf Hall. apply omap_none. eapply Forall_impl; [exact Hall|].
    intros a [? ?]. now apply Hf. }
  assert (Hc : Forall (fun a => kind_of a <> KPush /\ a <> c_fdopen_dup_stdin)
                 (configure_trace E cfg o)).
  { eapply Forall_impl; [apply configure_trace_kinds|].
    intros a Ha. destruct a; vm_compute in Ha; try discriminate Ha; split; discriminate. }
  assert (Hpre : Forall (fun a => kind_of a <> KPush /\ a <> c_fdopen_dup_stdin)
                   ((if quiet o then [c_fopen_dev_null] else [])
                    ++ [c_clish_shell_new (outfd_of o) (stop_on_error o)])).
  { destruct (quiet o); other_kinds. }
  assert (Hsel : forall (X : Type) (f : action -> option X),
            (forall a, kind_of a <> KPush -> a <> c_fdopen_dup_stdin -> f a = None) ->
            omap f (trace (exec E (run_shell cfg cl o) w)) = [] \/
            omap f (trace (exec E (run_shell cfg cl o) w))
            = omap f (push_trace cl (stop_on_error o))).
  { intros X f Hf. rewrite exec_run_shell.
    destruct (utf8 o && bit8 o); [left; apply Hfail; [exact Hf|]; other_kinds|].
    cbv zeta. destruct (shell_new_ok E); cbn [negb].
    2:{ left. cbn [trace]. apply Hfail; [exact Hf|]. other_kinds. }
    destruct (shell_startup E (configured_core E cfg o) (w_my_hooks w)); cbn [negb].
    - right. apply (looped_selects f cl o w Hf).
    - left. cbn [trace]. apply Hfail; [exact Hf|]. other_kinds. }
  split.
  - intros Hne. split.
    + destruct (Hsel _ (fun a => match a with c_clish_shell_push_fd f _ => Some f | _ => None end))
        as [H|H]; try exact H.
      * intros a H1 H2. destruct a; try reflexivity. now elim H1.
      * unfold pushed_streams. rewrite H. fold (pushed_streams (push_trace cl (stop_on_error o))).
        rewrite pushed_streams_push_trace. destruct (files cl); [now elim Hne|reflexivity].
    + destruct (Hsel _ (fun a => match a with c_fdopen_dup_stdin => Some tt | _ => None end))
        as [H|H]; try exact H.
      * intros a H1 H2. destruct a; try reflexivity. now elim H2.
      * unfold stdin_opens. rewrite H. fold (stdin_opens (push_trace cl (stop_on_error o))).
        rewrite stdin_opens_push_trace. destruct (files cl); [now elim Hne|reflexivity].
  - intros Hnil.
    destruct (Hsel _ (fun a => match a with c_clish_shell_push_file f _ => Some f | _ => None end))
      as [H|H]; try exact H.
    + intros a H1 H2. destruct a; try reflexivity. now elim H1.
    + unfold pushed_files. rewrite H. fold (pushed_files (push_trace cl (stop_on_error o))).
      rewrite pushed_files_push_trace, Hnil. reflexivity.
Qed.

End Sources.

Section Reached.
Import Clish.
Local Open Scope list_scope.

(** The flags the locals hold when the option loop returns. *)
Lemma parse_run_flags (E : env) (cfg : config) (d : signal -> sighandler)
    (cl : cmdline) (o : locals) :
  ended (parse_run E cfg d cl) = Returns o ->
  utf8 o = given "u" (opts cl) /\ bit8 o = given "8" (opts cl) /\
  quiet o = given "q" (opts cl) /\ stop_on_error o = given "e" (opts cl).
Proof.
  intros Hend.
  destruct (parse_returns E cfg (argv0 cl) (opts cl) (locals0 E cfg)
              (started cfg (initial_world d)) (parse_run_ended E cfg d cl o Hend))
    as (o' & Ho' & Hu & Hb & Hq & Hs).
  unfold parse_run in Hend. rewrite Hend in Ho'. inversion Ho'; subst o'.
  simpl in Hu, Hb, Hq, Hs. auto.
Qed.

(** What the dispatch loop was entered with in a run that got there. *)
Lemma reached_entry (E : env) (cfg : config) (d : signal -> sighandler) (cl : cmdline) :
  c_clish_shell_loop ∈ trace (clish E cfg d cl) ->
  exists o hooks,
    ended (parse_run E cfg d cl) = Returns o /\
    hooks = w_my_hooks (final (parse_run E cfg d cl)) /\
    w_loop (final (clish E cfg d cl)) =
      Some {| le_core := loaded_core E cfg cl o; le_hooks := hooks;
              le_ostream := outfd_of o;
              le_result := (shell_loop E (loaded_core E cfg cl o) hooks).1;
              le_echo := (shell_loop E (loaded_core E cfg cl o) hooks).2 |} /\
    w_my_hooks (final (clish E cfg d cl)) = hooks /\
    ended (clish E cfg d cl) =
      (if quiet o && negb (fopen_ok E) then Crashes
       else Returns (if truthy (shell_loop E (loaded_core E cfg cl o) hooks).1
                     then 0 else -1)%Z).
Proof.
  intros Hin. destruct (loop_reached E cfg d cl Hin) as (o & Hend & Hp & Hu & Hrun).
  exists o, (w_my_hooks (final (parse_run E cfg d cl))).
  split; [exact Hend|]. split; [reflexivity|].
  rewrite Hrun. cbn [final ended].
  rewrite looped_w_loop, looped_w_my_hooks. auto.
Qed.

End Reached.

(** C2. File source ordering: in a run that gets to the dispatch loop with
    file arguments [A1 .. An], the files are pushed in the order
    [An .. A1] and nothing else is pushed, so the stack the loop starts
    with holds, top first, the files that could be opened in the order
    [A1 .. An] (all of them when all can be opened), each with the
    stop-on-error flag of the command line. *)
Theorem file_push_order (E : Clish.env) (cfg : Clish.config)
    (d : Clish.signal -> Clish.sighandler) (cl : Clish.cmdline) :
  Clish.c_clish_shell_loop ∈ Clish.trace (Clish.clish E cfg d cl) ->
  Clish.files cl <> [] ->
  Clish.pushed_files (Clish.trace (Clish.clish E cfg d cl)) = rev (Clish.files cl) /\
  Clish.pushed_streams (Clish.trace (Clish.clish E cfg d cl)) = [] /\
  exists le,
    Clish.w_loop (Clish.final (Clish.clish E cfg d cl)) = Some le /\
    Clish.sh_sources (Clish.le_core le)
    = map (Clish.file_source (Clish.given "e" (Clish.opts cl)))
        (filter (fun f => Clish.readable E f = true) (Clish.files cl)) /\
    (Forall (fun f => Clish.readable E f = true) (Clish.files cl) ->
     map Clish.src_of (Clish.sh_sources (Clish.le_core le))
     = map Clish.SrcFile (Clish.files cl)).
Proof.
  intros Hin Hne.
  destruct (reached_selects E cfg
              (fun a => match a with
                        | Clish.c_clish_shell_push_file f _ => Some f
                        | _ => None
                        end) d cl) as (o & Hend & Hpf); [|exact Hin|].
  { intros a H1 H2. destruct a; try reflexivity. now elim H1. }
  destruct (reached_selects E cfg
              (fun a => match a with
                        | Clish.c_clish_shell_push_fd f _ => Some f
                        | _ => None
                        end) d cl) as (o' & Hend' & Hps); [|exact Hin|].
  { intros a H1 H2. destruct a; try reflexivity. now elim H1. }
  destruct (reached_entry E cfg d cl Hin) as (o2 & hooks & Hend2 & Hhooks & Hloop & _ & _).
  rewrite Hend in Hend', Hend2. inversion Hend'; inversion Hend2; subst o' o2.
  destruct (parse_run_flags E cfg d cl o Hend) as (_ & _ & _ & Hsoe).
  split; [|split].
  - unfold Clish.pushed_files. rewrite Hpf. apply pushed_files_push_trace.
  - unfold Clish.pushed_streams. rewrite Hps.
    fold (Clish.pushed_streams (Clish.push_trace cl (Clish.stop_on_error o))).
    rewrite pushed_streams_push_trace. destruct (Clish.files cl); [now elim Hne|reflexivity].
  - eexists. split; [exact Hloop|]. cbn [Clish.le_core Clish.loaded_core Clish.sh_sources].
    unfold Clish.pushed_stack. rewrite Hsoe.
    destruct (Clish.files cl) as [|f fs] eqn:Hf; [now elim Hne|].
    split; [reflexivity|].
    intros Hall. rewrite map_map. simpl.
    assert (Hfilter : filter (fun f0 => Clish.readable E f0 = true) (f :: fs) = f :: fs).
    { clear -Hall. induction Hall as [|x l Hx _ IH]; [reflexivity|].
      rewrite filter_cons_True by exact Hx. now rewrite IH. }
    now rewrite Hfilter.
Qed.

Lemma file_push_order_witness :
  Clish.pushed_files
    (Clish.trace (Clish.clish Clish.sample_env Clish.sample_config
                    Clish.default_signals Clish.cl_files))
  = rev (Clish.files Clish.cl_files) /\
  Clish.pushed_streams
    (Clish.trace (Clish.clish Clish.sample_env Clish.sample_config
                    Clish.default_signals Clish.cl_files)) = [] /\
  exists le,
    Clish.w_loop (Clish.final (Clish.clish Clish.sample_env Clish.sample_config
                                 Clish.default_signals Clish.cl_files)) = Some le /\
    Clish.sh_sources (Clish.le_core le)
    = map (Clish.file_source (Clish.given "e" (Clish.opts Clish.cl_files)))
        (filter (fun f => Clish.readable Clish.sample_env f = true)
           (Clish.files Clish.cl_files)) /\
    (Forall (fun f => Clish.readable Clish.sample_env f = true)
       (Clish.files Clish.cl_files) ->
     map Clish.src_of (Clish.sh_sources (Clish.le_core le))
     = map Clish.SrcFile (Clish.files Clish.cl_files)).
Proof.
  apply (file_push_order Clish.sample_env Clish.sample_config Clish.default_signals
           Clish.cl_files).
  - apply list_elem_of_In. vm_compute. repeat ((left; reflexivity) || right).
  - vm_compute. discriminate.
Defined.

(** X22. Process exit disposition where the output stream is sound: in
    a run that gets to the dispatch loop, and in which, if it is quiet,
    the open of [/dev/null] had succeeded, [main] returns 0 when the value
    [clish_shell_loop] gave back is non-zero ([bool_t] true, the aggregate
    result "success") and -1 otherwise, so the exit status is 0 exactly
    when the loop succeeded and 255 when it did not. *)
Theorem exit_disposition (E : Clish.env) (cfg : Clish.config)
    (d : Clish.signal -> Clish.sighandler) (cl : Clish.cmdline) :
  Clish.c_clish_shell_loop ∈ Clish.trace (Clish.clish E cfg d cl) ->
  Clish.given "q" (Clish.opts cl) && negb (Clish.fopen_ok E) = false ->
  exists le,
    Clish.w_loop (Clish.final (Clish.clish E cfg d cl)) = Some le /\
    Clish.le_result le
    = (Clish.shell_loop E (Clish.le_core le) (Clish.le_hooks le)).1 /\
    Clish.ended (Clish.clish E cfg d cl)
    = Clish.Returns (if Clish.truthy (Clish.le_result le) then 0 else -1) /\
    (Clish.exit_status (Clish.ended (Clish.clish E cfg d cl)) = 0
     <-> Clish.le_result le <> 0) /\
    (Clish.le_result le = 0 ->
     Clish.exit_status (Clish.ended (Clish.clish E cfg d cl)) = 255).
Proof.
  intros Hin Hstream.
  destruct (reached_entry E cfg d cl Hin) as (o & hooks & Hpr & _ & Hloop & _ & Hend).
  destruct (parse_run_flags E cfg d cl o Hpr) as (_ & _ & Hq & _).
  rewrite Hq, Hstream in Hend.
  eexists. split; [exact Hloop|]. cbn [Clish.le_result Clish.le_core Clish.le_hooks].
  split; [reflexivity|]. split; [exact Hend|]. rewrite Hend.
  unfold Clish.truthy.
  destruct ((Clish.shell_loop E (Clish.loaded_core E cfg cl o) hooks).1 =? 0) eqn:Hz.
  - apply Z.eqb_eq in Hz. rewrite Hz. simpl. split; [|reflexivity].
    split; [discriminate|intros H; now elim H].
  - apply Z.eqb_neq in Hz. simpl. split; [|intros H; now elim Hz].
    split; [intros _; exact Hz|reflexivity].
Qed.

Lemma exit_disposition_witness :
  exists le,
    Clish.w_loop (Clish.final (Clish.clish Clish.sample_env Clish.sample_config
                                 Clish.default_signals Clish.cl_plain)) = Some le /\
    Clish.le_result le
    = (Clish.shell_loop Clish.sample_env (Clish.le_core le) (Clish.le_hooks le)).1 /\
    Clish.ended (Clish.clish Clish.sample_env Clish.sample_config
                   Clish.default_signals Clish.cl_plain)
    = Clish.Returns (if Clish.truthy (Clish.le_result le) then 0 else -1) /\
    (Clish.exit_status
       (Clish.ended (Clish.clish Clish.sample_env Clish.sample_config
                       Clish.default_signals Clish.cl_plain)) = 0
     <-> Clish.le_result le <> 0) /\
    (Clish.le_result le = 0 ->
     Clish.exit_status
       (Clish.ended (Clish.clish Clish.sample_env Clish.sample_config
                       Clish.default_signals Clish.cl_plain)) = 255).
Proof.
  apply (exit_disposition Clish.sample_env Clish.sample_config Clish.default_signals
           Clish.cl_plain); [|reflexivity].
  apply list_elem_of_In. vm_compute. repeat ((left; reflexivity) || right).
Defined.

(** C3, where the code fails it: [clish -q A B] on a system where
    [/dev/null] cannot be opened.  [main] does not test what [fopen]
    returned (as it tests what [clish_shell_new] returned); the run gets to
    the dispatch loop, the loop gives success, and then [fclose(outfd)] is
    called on [NULL] and the process is killed there instead of exiting
    with status 0. *)
Lemma exit_disposition_null_stream :
  Clish.c_clish_shell_loop
  ∈ Clish.trace (Clish.clish Clish.env_no_dev_null Clish.sample_config
                   Clish.default_signals Clish.cl_quiet) /\
  Clish.le_result <$>
    Clish.w_loop (Clish.final (Clish.clish Clish.env_no_dev_null Clish.sample_config
                                 Clish.default_signals Clish.cl_quiet)) = Some 1 /\
  last (Clish.trace (Clish.clish Clish.env_no_dev_null Clish.sample_config
                       Clish.default_signals Clish.cl_quiet))
  = Some (Clish.c_fclose Clish.dev_null) /\
  Clish.is_NULL Clish.env_no_dev_null Clish.dev_null = true /\
  Clish.ended (Clish.clish Clish.env_no_dev_null Clish.sample_config
                 Clish.default_signals Clish.cl_quiet) = Clish.Crashes /\
  Clish.exit_status
    (Clish.ended (Clish.clish Clish.env_no_dev_null Clish.sample_config
                    Clish.default_signals Clish.cl_quiet)) = 139.
Proof.
  split; [|repeat split].
  apply list_elem_of_In. vm_compute. repeat ((left; reflexivity) || right).
Qed.

(** C5. Source exclusivity: no run pushes both kinds of source.  With file
    arguments, no stream is pushed and the standard input is never
    duplicated; without file arguments, no file is pushed.  A run that
    gets to the dispatch loop has exactly one kind: with file arguments it
    pushes those files and the loop starts on file sources only; without,
    it pushes exactly one source, the duplicate of the standard input, and
    the loop starts on that source alone. *)
Theorem source_exclusivity (E : Clish.env) (cfg : Clish.config)
    (d : Clish.signal -> Clish.sighandler) (cl : Clish.cmdline) :
  (Clish.files cl <> [] ->
   Clish.pushed_streams (Clish.trace (Clish.clish E cfg d cl)) = [] /\
   Clish.stdin_opens (Clish.trace (Clish.clish E cfg d cl)) = []) /\
  (Clish.files cl = [] ->
   Clish.pushed_files (Clish.trace (Clish.clish E cfg d cl)) = []) /\
  (Clish.c_clish_shell_loop ∈ Clish.trace (Clish.clish E cfg d cl) ->
   exists le,
     Clish.w_loop (Clish.final (Clish.clish E cfg d cl)) = Some le /\
     (Clish.files cl <> [] ->
      Clish.pushed_files (Clish.trace (Clish.clish E cfg d cl)) = rev (Clish.files cl) /\
      Forall (fun s => exists f, Clish.src_of s = Clish.SrcFile f)
        (Clish.sh_sources (Clish.le_core le))) /\
     (Clish.files cl = [] ->
      Clish.pushed_streams (Clish.trace (Clish.clish E cfg d cl)) = [Clish.stdin_dup] /\
      Clish.stdin_opens (Clish.trace (Clish.clish E cfg d cl)) = [tt] /\
      Clish.sh_sources (Clish.le_core le)
      = [Clish.stdin_source (Clish.given "e" (Clish.opts cl))])).
Proof.
  assert (Hany : forall (X : Type) (f : Clish.action -> option X),
            (forall a, Clish.kind_of a <> Clish.KPush ->
                       a <> Clish.c_fdopen_dup_stdin -> f a = None) ->
            omap f (Clish.trace (Clish.clish E cfg d cl)) = [] \/
            exists o w,
              omap f (Clish.trace (Clish.clish E cfg d cl))
              = omap f (Clish.trace (Clish.exec E (Clish.run_shell cfg cl o) w))).
  { intros X f Hf. rewrite clish_unfold.
    assert (Hs : omap f (Clish.startup_trace cfg) = []).
    { apply (omap_kinds f [Clish.KEnv; Clish.KSignal]); [|apply startup_trace_kinds].
      intros a Ha. apply Hf; destruct a; vm_compute in Ha; discriminate. }
    assert (Hp : omap f (Clish.trace (Clish.parse_run E cfg d cl)) = []).
    { apply omap_parse. intros a [Ha|Ha]; apply Hf; destruct a; discriminate. }
    destruct (Clish.ended (Clish.parse_run E cfg d cl)) as [o|z|]; cbn [Clish.trace].
    - right. exists o, (Clish.final (Clish.parse_run E cfg d cl)).
      rewrite !omap_app, Hs, Hp. reflexivity.
    - left. rewrite !omap_app, Hs, Hp. reflexivity.
    - left. rewrite !omap_app, Hs, Hp. reflexivity. }
  split; [|split].
  - intros Hne. split.
    + destruct (Hany _ (fun a => match a with
                                 | Clish.c_clish_shell_push_fd f _ => Some f
                                 | _ => None
                                 end)) as [H|(o & w & H)]; [|exact H|].
      * intros a H1 H2. destruct a; try reflexivity. now elim H1.
      * unfold Clish.pushed_streams. rewrite H.
        apply (proj1 (run_shell_pushes E cfg cl o w) Hne).
    + destruct (Hany _ (fun a => match a with
                                 | Clish.c_fdopen_dup_stdin => Some tt
                                 | _ => None
                                 end)) as [H|(o & w & H)]; [|exact H|].
      * intros a H1 H2. destruct a; try reflexivity. now elim H2.
      * unfold Clish.stdin_opens. rewrite H.
        apply (proj1 (run_shell_pushes E cfg cl o w) Hne).
  - intros Hnil.
    destruct (Hany _ (fun a => match a with
                               | Clish.c_clish_shell_push_file f _ => Some f
                               | _ => None
                               end)) as [H|(o & w & H)]; [|exact H|].
    + intros a H1 H2. destruct a; try reflexivity. now elim H1.
    + unfold Clish.pushed_files. rewrite H.
      apply (proj2 (run_shell_pushes E cfg cl o w) Hnil).
  - intros Hin.
    destruct (reached_entry E cfg d cl Hin) as (o & hooks & Hend & _ & Hloop & _ & _).
    destruct (parse_run_flags E cfg d cl o Hend) as (_ & _ & _ & Hsoe).
    eexists. split; [exact Hloop|].
    cbn [Clish.le_core Clish.loaded_core Clish.sh_sources]. unfold Clish.pushed_stack.
    split.
    + intros Hne. split.
      * destruct (reached_selects E cfg
                    (fun a => match a with
                              | Clish.c_clish_shell_push_file f _ => Some f
                              | _ => None
                              end) d cl) as (o' & _ & Hpf); [|exact Hin|].
        { intros a H1 H2. destruct a; try reflexivity. now elim H1. }
        unfold Clish.pushed_files. rewrite Hpf. apply pushed_files_push_trace.
      * destruct (Clish.files cl) as [|f fs]; [now elim Hne|].
        apply Forall_map. apply Forall_forall. intros x _. now exists x.
    + intros Hnil. rewrite Hnil, Hsoe. split; [|split; [|reflexivity]].
      * destruct (reached_selects E cfg
                    (fun a => match a with
                              | Clish.c_clish_shell_push_fd f _ => Some f
                              | _ => None
                              end) d cl) as (o' & _ & Hps); [|exact Hin|].
        { intros a H1 H2. destruct a; try reflexivity. now elim H1. }
        unfold Clish.pushed_streams. rewrite Hps.
        fold (Clish.pushed_streams (Clish.push_trace cl (Clish.stop_on_error o'))).
        rewrite pushed_streams_push_trace. now rewrite Hnil.
      * destruct (reached_selects E cfg
                    (fun a => match a with
                              | Clish.c_fdopen_dup_stdin => Some tt
                              | _ => None
                              end) d cl) as (o' & _ & Hso); [|exact Hin|].
        { intros a H1 H2. destruct a; try reflexivity. now elim H2. }
        unfold Clish.stdin_opens. rewrite Hso.
        fold (Clish.stdin_opens (Clish.push_trace cl (Clish.stop_on_error o'))).
        rewrite stdin_opens_push_trace. now rewrite Hnil.
Qed.

Lemma source_exclusivity_witness :
  exists le,
    Clish.w_loop (Clish.final (Clish.clish Clish.sample_env Clish.sample_config
                                 Clish.default_signals Clish.cl_plain)) = Some le /\
    (Clish.files Clish.cl_plain <> [] ->
     Clish.pushed_files
       (Clish.trace (Clish.clish Clish.sample_env Clish.sample_config
                       Clish.default_signals Clish.cl_plain))
     = rev (Clish.files Clish.cl_plain) /\
     Forall (fun s => exists f, Clish.src_of s = Clish.SrcFile f)
       (Clish.sh_sources (Clish.le_core le))) /\
    (Clish.files Clish.cl_plain = [] ->
     Clish.pushed_streams
       (Clish.trace (Clish.clish Clish.sample_env Clish.sample_config
                       Clish.default_signals Clish.cl_plain)) = [Clish.stdin_dup] /\
     Clish.stdin_opens
       (Clish.trace (Clish.clish Clish.sample_env Clish.sample_config
                       Clish.default_signals Clish.cl_plain)) = [tt] /\
     Clish.sh_sources (Clish.le_core le)
     = [Clish.stdin_source (Clish.given "e" (Clish.opts Clish.cl_plain))]).
Proof.
  apply (proj2 (proj2 (source_exclusivity Clish.sample_env Clish.sample_config
                         Clish.default_signals Clish.cl_plain))).
  apply list_elem_of_In. vm_compute. repeat ((left; reflexivity) || right).
Defined.

(** ** The client: hooks *)

Section Hooks.
Import Clish.
Local Open Scope list_scope.
Variable E : env.
Variable cfg : config.

(** Only the store into the script slot changes [my_hooks]. *)
Lemma handle_my_hooks (a : action) (w : world) :
  kind_of a <> KHook -> w_my_hooks (handle E a w).2 = w_my_hooks w.
Proof.
  intros Ha. destruct a; try reflexivity; simpl; try (now elim Ha).
  - unfold clish_shell_new. now destruct (shell_new_ok E).
  - unfold clish_shell_startup. now destruct (w_shell w).
  - unfold clish_shell_push_file. now destruct (readable E fname).
  - unfold clish_shell_loop. destruct (w_shell w) as [sh|]; [|reflexivity].
    destruct (shell_loop E (sh_core sh) (w_my_hooks w)). simpl.
    now destruct (sh_ostream sh).
Qed.

Lemma run_shell_my_hooks (cl : cmdline) (o : locals) (w : world) :
  w_my_hooks (final (exec E (run_shell cfg cl o) w)) = w_my_hooks w.
Proof.
  apply (only_frame E (fun a => of_kinds shell_kinds a = true) w_my_hooks).
  - intros a w' Ha. apply handle_my_hooks. intros Hk.
    destruct a; try discriminate Hk. vm_compute in Ha. discriminate.
  - apply run_shell_only.
Qed.

Lemma started_my_hooks (d : signal -> sighandler) :
  w_my_hooks (started cfg (initial_world d)) = my_hooks.
Proof. unfold started. now destruct (HAVE_LOCALE_H cfg). Qed.

(** The hooks when the option loop is over. *)
Lemma parse_run_hooks (d : signal -> sighandler) (cl : cmdline) :
  w_my_hooks (final (parse_run E cfg d cl)) =
  if given "d" (seen (opts cl))
  then set_script_fn clish_dryrun_callback my_hooks
  else my_hooks.
Proof. unfold parse_run. now rewrite parse_hooks, started_my_hooks. Qed.

(** The hooks when the run is over. *)
Lemma clish_my_hooks (d : signal -> sighandler) (cl : cmdline) :
  w_my_hooks (final (clish E cfg d cl)) = w_my_hooks (final (parse_run E cfg d cl)).
Proof.
  rewrite clish_unfold.
  destruct (ended (parse_run E cfg d cl)); cbn [final]; [|reflexivity|reflexivity].
  apply run_shell_my_hooks.
Qed.

End Hooks.

(** C6. Dry-run hook replacement: the registry has one script slot, which
    always holds one callback.  The only store into it is that of the
    dry-run callback, made by the option loop, and every such store comes
    before every action on the shell, its creation included; so the slot
    is the same from the creation of the shell to the end of the run: the
    dry-run callback when the option loop got to see [-d], the script
    callback otherwise.  A run that gets to the dispatch loop runs the
    loop with exactly these hooks. *)
Theorem dry_run_hook (E : Clish.env) (cfg : Clish.config)
    (d : Clish.signal -> Clish.sighandler) (cl : Clish.cmdline) :
  Forall (fun a => Clish.kind_of a = Clish.KHook ->
                   a = Clish.c_store_script_fn Clish.clish_dryrun_callback)
    (Clish.trace (Clish.clish E cfg d cl)) /\
  (forall (i j : nat) a b,
     Clish.trace (Clish.clish E cfg d cl) !! i = Some a ->
     Clish.trace (Clish.clish E cfg d cl) !! j = Some b ->
     Clish.kind_of a = Clish.KHook -> Clish.shell_call b = true -> (i < j)%nat) /\
  Clish.w_my_hooks (Clish.final (Clish.clish E cfg d cl))
  = (if Clish.given "d" (Clish.seen (Clish.opts cl))
     then Clish.set_script_fn Clish.clish_dryrun_callback Clish.my_hooks
     else Clish.my_hooks) /\
  Clish.script_fn (Clish.w_my_hooks (Clish.final (Clish.clish E cfg d cl)))
  = Some (if Clish.given "d" (Clish.seen (Clish.opts cl))
          then Clish.clish_dryrun_callback else Clish.clish_script_callback) /\
  (Clish.c_clish_shell_loop ∈ Clish.trace (Clish.clish E cfg d cl) ->
   exists le,
     Clish.w_loop (Clish.final (Clish.clish E cfg d cl)) = Some le /\
     Clish.le_hooks le = Clish.w_my_hooks (Clish.final (Clish.clish E cfg d cl)) /\
     Clish.script_fn (Clish.le_hooks le)
     = Some (if Clish.given "d" (Clish.opts cl)
             then Clish.clish_dryrun_callback else Clish.clish_script_callback)).
Proof.
  destruct (clish_trace_split E cfg d cl) as (rest & Htr & Hrest & _).
  assert (Hpre : Forall (fun a => Clish.shell_call a = false /\
                                  (Clish.kind_of a = Clish.KHook ->
                                   a = Clish.c_store_script_fn Clish.clish_dryrun_callback))
                   (Clish.startup_trace cfg ++ Clish.trace (Clish.parse_run E cfg d cl))).
  { apply Forall_app. split.
    - eapply Forall_impl; [apply startup_trace_kinds|].
      intros a Ha. destruct a; vm_compute in Ha; try discriminate Ha;
        (split; [reflexivity|discriminate]).
    - eapply Forall_impl; [apply parse_trace_kinds|].
      intros a [->|Ha]; [split; [reflexivity|reflexivity]|].
      destruct a; try discriminate Ha; (split; [reflexivity|discriminate]). }
  assert (Hpost : Forall (fun a => Clish.kind_of a <> Clish.KHook) rest).
  { eapply Forall_impl; [exact Hrest|].
    intros a Ha Hk. destruct a; try discriminate Hk. vm_compute in Ha. discriminate. }
  assert (Hhooks := clish_my_hooks E cfg d cl).
  rewrite parse_run_hooks in Hhooks.
  split; [|split; [|split; [|split]]].
  - rewrite Htr. apply Forall_app. split.
    + eapply Forall_impl; [exact Hpre|]. intros a [_ H]. exact H.
    + eapply Forall_impl; [exact Hpost|]. intros a H Hk. now elim H.
  - intros i j a b Hi Hj Ha Hb. rewrite Htr in Hi, Hj.
    apply lookup_app_Some in Hi as [Hi|[Hlen Hi]].
    + apply lookup_app_Some in Hj as [Hj|[Hlen Hj]].
      * rewrite Forall_forall in Hpre.
        destruct (Hpre b (list_elem_of_lookup_2 _ _ _ Hj)) as [Hb' _]. congruence.
      * apply lookup_lt_Some in Hi. lia.
    + rewrite Forall_forall in Hpost.
      elim (Hpost a (list_elem_of_lookup_2 _ _ _ Hi)). exact Ha.
  - exact Hhooks.
  - rewrite Hhooks. now destruct (Clish.given "d" (Clish.seen (Clish.opts cl))).
  - intros Hin.
    destruct (reached_entry E cfg d cl Hin) as (o & hooks & Hend & Hh & Hloop & Hfin & _).
    eexists. split; [exact Hloop|]. cbn [Clish.le_hooks].
    split; [now rewrite Hfin|].
    rewrite Hh, parse_run_hooks.
    rewrite (parses_seen _ (parse_run_ended E cfg d cl o Hend)).
    now destruct (Clish.given "d" (Clish.opts cl)).
Qed.

Lemma dry_run_hook_witness :
  exists le,
    Clish.w_loop (Clish.final (Clish.clish Clish.sample_env Clish.sample_config
                                 Clish.default_signals Clish.cl_dry)) = Some le /\
    Clish.le_hooks le
    = Clish.w_my_hooks (Clish.final (Clish.clish Clish.sample_env Clish.sample_config
                                       Clish.default_signals Clish.cl_dry)) /\
    Clish.script_fn (Clish.le_hooks le)
    = Some (if Clish.given "d" (Clish.opts Clish.cl_dry)
            then Clish.clish_dryrun_callback else Clish.clish_script_callback).
Proof.
  apply (proj2 (proj2 (proj2 (proj2
           (dry_run_hook Clish.sample_env Clish.sample_config Clish.default_signals
              Clish.cl_dry))))).
  apply list_elem_of_In. vm_compute. repeat ((left; reflexivity) || right).
Defined.

(** ** The client: option validation *)

Section Validation.
Import Clish.
Local Open Scope list_scope.
Variable E : env.
Variable cfg : config.

(** An option loop that runs to its end prints nothing. *)
Lemma parse_silent (a0 : option string) (gs : list getopt_ret) (o : locals) (w : world) :
  parses gs = true ->
  w_stderr (final (exec E (parse_options cfg a0 gs o) w)) = w_stderr w /\
  w_stdout (final (exec E (parse_options cfg a0 gs o) w)) = w_stdout w.
Proof.
  revert o w. induction gs as [|[c arg] gs IH]; intros o w Hp; [split; reflexivity|].
  simpl in Hp. apply andb_true_iff in Hp as [Hc Hp].
  destruct (switch_cases c) as
    [->|[->|[->|[->|[->|[->|[->|[->|[->|[->|[->|[->|[->|Hother]]]]]]]]]]]]];
    try discriminate Hc; simpl; try (apply IH; exact Hp).
  - destruct (IH o (with_my_hooks (set_script_fn clish_dryrun_callback (w_my_hooks w)) w) Hp)
      as [H1 H2].
    split; [exact H1|exact H2].
  - destruct Hother as (H1&H2&H3&H4&H5&H6&H7&H8&H9&H10&H11&H12&H13).
    rewrite proceeds_other in Hc by assumption. discriminate.
Qed.

Lemma parse_run_shell (d : signal -> sighandler) (cl : cmdline) :
  w_shell (final (parse_run E cfg d cl)) = None.
Proof.
  unfold parse_run. rewrite parse_frame by reflexivity.
  unfold started. now destruct (HAVE_LOCALE_H cfg).
Qed.

End Validation.

(** C10, as the code has it. Encoding-flag exclusivity: when the option
    loop runs to its end (no help, version or unrecognised option stops
    the process first) and both [-u] and [-8] were given, validation fails:
    the only thing written is the message on the standard error, [main]
    returns -1 (exit status 255), and up to there no stream was opened and
    no action on a shell was performed, so there is no shell and no input
    source. *)
Theorem encoding_flags_exclusive (E : Clish.env) (cfg : Clish.config)
    (d : Clish.signal -> Clish.sighandler) (cl : Clish.cmdline) :
  Clish.parses (Clish.opts cl) = true ->
  Clish.given "u" (Clish.opts cl) = true ->
  Clish.given "8" (Clish.opts cl) = true ->
  Clish.ended (Clish.clish E cfg d cl) = Clish.Returns (-1) /\
  Clish.exit_status (Clish.ended (Clish.clish E cfg d cl)) = 255 /\
  Clish.w_stderr (Clish.final (Clish.clish E cfg d cl))
  = [("The -u and -8 options can't be used together." ++ Clish.LF)%string] /\
  Clish.w_stdout (Clish.final (Clish.clish E cfg d cl)) = [] /\
  Forall (fun a => Clish.shell_call a = false /\ Clish.kind_of a <> Clish.KStream)
    (Clish.trace (Clish.clish E cfg d cl)) /\
  Clish.w_shell (Clish.final (Clish.clish E cfg d cl)) = None.
Proof.
  intros Hp Hu H8.
  destruct (parse_returns E cfg (Clish.argv0 cl) (Clish.opts cl) (Clish.locals0 E cfg)
              (Clish.started cfg (Clish.initial_world d)) Hp)
    as (o & Hend & Hou & Ho8 & _ & _).
  rewrite Hu in Hou. rewrite H8 in Ho8. rewrite orb_true_r in Hou, Ho8.
  destruct (parse_silent E cfg (Clish.argv0 cl) (Clish.opts cl) (Clish.locals0 E cfg)
              (Clish.started cfg (Clish.initial_world d)) Hp) as [Herr Hout].
  fold (Clish.parse_run E cfg d cl) in Hend, Herr, Hout.
  rewrite clish_unfold, Hend. cbv zeta. rewrite exec_run_shell, Hou, Ho8.
  cbn [andb Clish.ended Clish.final Clish.trace Clish.exit_status].
  split; [reflexivity|]. split; [reflexivity|].
  split; [|split; [|split]].
  - cbn [Clish.w_stderr Clish.with_stderr]. rewrite Herr.
    unfold Clish.started. now destruct (Clish.HAVE_LOCALE_H cfg).
  - cbn [Clish.w_stdout Clish.with_stderr]. rewrite Hout.
    unfold Clish.started. now destruct (Clish.HAVE_LOCALE_H cfg).
  - apply Forall_app; split; [|apply Forall_app; split].
    + eapply Forall_impl; [apply startup_trace_kinds|].
      intros a Ha. destruct a; vm_compute in Ha; try discriminate Ha;
        (split; [reflexivity|discriminate]).
    + eapply Forall_impl; [apply parse_trace_kinds|].
      intros a [->|Ha]; [split; [reflexivity|discriminate]|].
      destruct a; try discriminate Ha; (split; [reflexivity|discriminate]).
    + repeat constructor. discriminate.
  - cbn [Clish.w_shell Clish.with_stderr]. apply parse_run_shell.
Qed.

Lemma encoding_flags_exclusive_witness :
  Clish.ended (Clish.clish Clish.sample_env Clish.sample_config
                 Clish.default_signals Clish.cl_u8) = Clish.Returns (-1) /\
  Clish.exit_status
    (Clish.ended (Clish.clish Clish.sample_env Clish.sample_config
                    Clish.default_signals Clish.cl_u8)) = 255 /\
  Clish.w_stderr
    (Clish.final (Clish.clish Clish.sample_env Clish.sample_config
                    Clish.default_signals Clish.cl_u8))
  = [("The -u and -8 options can't be used together." ++ Clish.LF)%string] /\
  Clish.w_stdout
    (Clish.final (Clish.clish Clish.sample_env Clish.sample_config
                    Clish.default_signals Clish.cl_u8)) = [] /\
  Forall (fun a => Clish.shell_call a = false /\ Clish.kind_of a <> Clish.KStream)
    (Clish.trace (Clish.clish Clish.sample_env Clish.sample_config
                    Clish.default_signals Clish.cl_u8)) /\
  Clish.w_shell
    (Clish.final (Clish.clish Clish.sample_env Clish.sample_config
                    Clish.default_signals Clish.cl_u8)) = None.
Proof.
  apply (encoding_flags_exclusive Clish.sample_env Clish.sample_config
           Clish.default_signals Clish.cl_u8); reflexivity.
Defined.

(** C10, as the claim has it, fails: on [clish -u -8 -h] both flags are
    given, yet the process prints the usage, reports no error and exits
    with status 0, because [-h] leaves from inside the option loop before the
    validation is reached. *)
Lemma encoding_flags_help_exits_zero :
  Clish.given "u" (Clish.opts Clish.cl_u8h) = true /\
  Clish.given "8" (Clish.opts Clish.cl_u8h) = true /\
  Clish.ended (Clish.clish Clish.sample_env Clish.sample_config
                 Clish.default_signals Clish.cl_u8h) = Clish.Exits 0 /\
  Clish.exit_status
    (Clish.ended (Clish.clish Clish.sample_env Clish.sample_config
                    Clish.default_signals Clish.cl_u8h)) = 0 /\
  Clish.w_stderr
    (Clish.final (Clish.clish Clish.sample_env Clish.sample_config
                    Clish.default_signals Clish.cl_u8h)) = [].
Proof. vm_compute. repeat split. Qed.

(** ** The client: the broken-pipe signal *)

Section Signals.
Import Clish.
Local Open Scope list_scope.
Variable E : env.
Variable cfg : config.

(** Only [sigaction] changes a signal disposition. *)
Lemma handle_sig (a : action) (w : world) :
  kind_of a <> KSignal -> w_sig (handle E a w).2 = w_sig w.
Proof.
  intros Ha. destruct a; try reflexivity; simpl; try (now elim Ha).
  - unfold clish_shell_new. now destruct (shell_new_ok E).
  - unfold clish_shell_startup. now destruct (w_shell w).
  - unfold clish_shell_push_file. now destruct (readable E fname).
  - unfold clish_shell_loop. destruct (w_shell w) as [sh|]; [|reflexivity].
    destruct (shell_loop E (sh_core sh) (w_my_hooks w)). simpl.
    now destruct (sh_ostream sh).
Qed.

(** Once the disposition is installed, the rest of the program never
    changes one. *)
Lemma after_sigaction_only (cl : cmdline) :
  only (fun a => kind_of a <> KSignal) (after_sigaction E cfg cl).
Proof.
  unfold after_sigaction. apply only_bind.
  - destruct (HAVE_LOCALE_H cfg); simpl; repeat constructor; discriminate.
  - intros o0. apply only_bind.
    + eapply only_mono; [|apply parse_only].
      intros a [->|Ha]; [discriminate|]. intros Hk. congruence.
    + intros o. eapply only_mono; [|apply run_shell_only].
      intros a Ha Hk. destruct a; try discriminate Hk. vm_compute in Ha. discriminate.
Qed.

Lemma handle_epipe_sig (a : action) (w : world) :
  kind_of a <> KSignal -> w_sig (handle_epipe E a w).2 = w_sig w.
Proof.
  intros Ha. destruct a; try (now apply handle_sig); [reflexivity|].
  unfold handle_epipe, clish_shell_loop_epipe.
  destruct (w_shell w) as [sh|]; [|reflexivity].
  now destruct (shell_loop E (sh_core sh) (w_my_hooks w)).
Qed.

Lemma perform_safe (p : prog Z) (w : world) :
  sigpipe_safe (Running p w) -> sigpipe_safe (perform E p w).
Proof.
  intros [Hp Hw]. destruct p as [v|z|a k]; simpl; [exact Hw|exact Hw|].
  apply only_Act_inv in Hp as [Ha Hk].
  destruct (fatal E a); simpl; [now rewrite handle_sig|].
  split; [apply Hk|]. now rewrite handle_sig.
Qed.

Lemma step_safe (s : pstate) (t : tick) :
  sigpipe_safe s -> sigpipe_safe (step E s t).
Proof.
  destruct s as [p w|sig|e w]; simpl; [|auto|auto].
  intros Hs. destruct t as [| |sig].
  - now apply perform_safe.
  - destruct p as [v|z|a k]; try (now apply (perform_safe _ w)).
    unfold perform_epipe. destruct (writes_stdout E a w); [|now apply perform_safe].
    destruct Hs as [Hp Hw]. rewrite Hw.
    apply only_Act_inv in Hp as [Ha Hk].
    split; [apply Hk|]. now rewrite handle_epipe_sig.
  - destruct Hs as [Hp Hw]. unfold deliver. destruct (w_sig w sig) eqn:Hsig; simpl.
    + intros ->. congruence.
    + split; assumption.
Qed.

Lemma step_sigpipe (s : pstate) :
  sigpipe_safe s -> step E s (Tsignal SIGPIPE) = s.
Proof.
  destruct s as [p w|sig|e w]; simpl; [|reflexivity|reflexivity].
  intros [_ Hw]. unfold deliver. now rewrite Hw.
Qed.

Lemma sched_safe (ts : list tick) (s : pstate) :
  sigpipe_safe s -> sigpipe_safe (sched E ts s).
Proof.
  revert s. induction ts as [|t ts IH]; intros s Hs; [exact Hs|].
  simpl. apply IH. now apply step_safe.
Qed.

(** Deliveries of [SIGPIPE] to a process that ignores it change nothing. *)
Lemma sched_without_sigpipe (ts : list tick) (s : pstate) :
  sigpipe_safe s ->
  sched E ts s = sched E (List.filter (fun t => negb (is_sigpipe t)) ts) s.
Proof.
  revert s. induction ts as [|t ts IH]; intros s Hs; [reflexivity|].
  simpl. destruct (is_sigpipe t) eqn:Ht; simpl.
  - destruct t as [| |[| |]]; try discriminate Ht.
    rewrite step_sigpipe by exact Hs. now apply IH.
  - apply IH. now apply step_safe.
Qed.

Lemma sched_gone (ts : list tick) (e : ending Z) (w : world) :
  sched E ts (Gone e w) = Gone e w.
Proof. induction ts as [|t ts IH]; [reflexivity|]. simpl. exact IH. Qed.

(** Without signals and broken pipes the scheduler performs the actions
    of the run one by one and then lets the process go. *)
Lemma sched_exec (p : prog Z) (w : world) (n : nat) :
  (length (trace (exec E p w)) < n)%nat ->
  sched E (replicate n Tact) (Running p w) = Gone (ended (exec E p w)) (final (exec E p w)).
Proof.
  revert w n. induction p as [v|z|a k IH]; intros w n Hn.
  - destruct n as [|n]; [simpl in Hn; lia|]. simpl. apply sched_gone.
  - destruct n as [|n]; [simpl in Hn; lia|]. simpl. apply sched_gone.
  - destruct n as [|n]; [simpl in Hn; lia|]. simpl in Hn |- *.
    destruct (fatal E a); [apply sched_gone|].
    cbn [trace ended final length] in Hn |- *. apply IH. lia.
Qed.

(** What an action hands back and does to the world, apart from what it
    writes to the standard output, does not depend on what was written
    there before. *)
Lemma handle_besides_stdout (a : action) (w w0 : world) :
  besides_stdout w = besides_stdout w0 ->
  (handle E a w).1 = (handle E a w0).1 /\
  besides_stdout (handle E a w).2 = besides_stdout (handle E a w0).2.
Proof.
  intros Hw. destruct w as [hk sg lc sh so se nu cld lp], w0 as [hk0 sg0 lc0 sh0 so0 se0 nu0 cld0 lp0].
  unfold besides_stdout, with_stdout in Hw. simpl in Hw. inversion Hw; subst. clear Hw.
  destruct a; simpl; try (split; reflexivity).
  - unfold clish_shell_new. simpl. destruct (shell_new_ok E); split; reflexivity.
  - unfold clish_shell_startup. simpl. destruct sh0; split; reflexivity.
  - unfold clish_shell_push_file. simpl. destruct (readable E fname); split; reflexivity.
  - unfold clish_shell_loop. simpl. destruct sh0 as [sh|]; [|split; reflexivity].
    destruct (shell_loop E (sh_core sh) hk0). simpl.
    destruct (sh_ostream sh); split; reflexivity.
Qed.

(** The same for a write to a broken pipe, which writes nothing. *)
Lemma handle_epipe_besides_stdout (a : action) (w w0 : world) :
  besides_stdout w = besides_stdout w0 ->
  writes_stdout E a w = true ->
  (is_printf a = false -> (handle_epipe E a w).1 = (handle E a w0).1) /\
  besides_stdout (handle_epipe E a w).2 = besides_stdout (handle E a w0).2.
Proof.
  intros Hw Hwr. destruct w as [hk sg lc sh so se nu cld lp], w0 as [hk0 sg0 lc0 sh0 so0 se0 nu0 cld0 lp0].
  unfold besides_stdout, with_stdout in Hw. simpl in Hw. inversion Hw; subst. clear Hw.
  destruct a; try discriminate Hwr.
  - split; [discriminate|reflexivity].
  - simpl in Hwr. unfold handle_epipe, handle, clish_shell_loop_epipe, clish_shell_loop.
    simpl. destruct sh0 as [sh|]; [|discriminate Hwr].
    apply andb_true_iff in Hwr as [Hwr _]. apply bool_decide_eq_true in Hwr.
    destruct (shell_loop E (sh_core sh) hk0). simpl. rewrite Hwr.
    split; reflexivity.
Qed.

(** A process that ignores [SIGPIPE] and does not look at what [printf]
    returns ends, on whatever writes the pipe is broken, as the
    undisturbed run ends, in the same world apart from what reached the
    standard output. *)
Lemma sched_epipe (p : prog Z) (ts : list tick) (w w0 : world) :
  deaf p -> only (fun a => kind_of a <> KSignal) p ->
  w_sig w SIGPIPE = SIG_IGN ->
  besides_stdout w = besides_stdout w0 ->
  Forall (fun t => t = Tact \/ t = Tepipe) ts ->
  (length (trace (exec E p w0)) < length ts)%nat ->
  exists w',
    sched E ts (Running p w) = Gone (ended (exec E p w0)) w' /\
    besides_stdout w' = besides_stdout (final (exec E p w0)).
Proof.
  revert ts w w0. induction p as [v|z|a k IH]; intros ts w w0 Hd Ho Hsig Hw Hts Hlen.
  - destruct ts as [|t ts]; [simpl in Hlen; lia|].
    apply Forall_cons in Hts as [[->| ->] _]; simpl; rewrite sched_gone; eauto.
  - destruct ts as [|t ts]; [simpl in Hlen; lia|].
    apply Forall_cons in Hts as [[->| ->] _]; simpl; rewrite sched_gone; eauto.
  - destruct ts as [|t ts]; [simpl in Hlen; lia|].
    apply Forall_cons in Hts as [Ht Hts].
    destruct Hd as [Hpr Hd]. apply only_Act_inv in Ho as [Ha Ho].
    destruct (handle_besides_stdout a w w0 Hw) as [Hans Hwo].
    assert (Hplain : exists w',
              sched E ts (perform E (Act a k) w) = Gone (ended (exec E (Act a k) w0)) w' /\
              besides_stdout w' = besides_stdout (final (exec E (Act a k) w0))).
    { simpl in Hlen |- *. destruct (fatal E a).
      - rewrite sched_gone. eauto.
      - cbn [trace ended final length] in Hlen |- *. rewrite Hans.
        apply IH; try assumption; [apply Hd|apply Ho| |lia].
        now rewrite handle_sig. }
    destruct Ht as [->| ->]; [exact Hplain|].
    simpl. destruct (writes_stdout E a w) eqn:Hwr; [|exact Hplain].
    rewrite Hsig.
    destruct (handle_epipe_besides_stdout a w w0 Hw Hwr) as [Hans' Hwo'].
    assert (Hf : fatal E a = false) by (destruct a; try reflexivity; discriminate Hwr).
    simpl in Hlen |- *. rewrite Hf in Hlen |- *.
    cbn [trace ended final length] in Hlen |- *.
    assert (Hk : k (handle_epipe E a w).1 = k (handle E a w0).1).
    { destruct (is_printf a) eqn:Hp; [now apply Hpr|]. now rewrite Hans'. }
    rewrite Hk.
    apply IH; try assumption; [apply Hd|apply Ho| |lia].
    now rewrite handle_epipe_sig.
Qed.

Lemma deaf_bind {A B} (p : prog A) (f : A -> prog B) :
  deaf p -> (forall a, deaf (f a)) -> deaf (bind p f).
Proof.
  intros Hp Hf. induction p as [v|z|a k IH]; simpl; [apply Hf|exact I|].
  destruct Hp as [Hpr Hk]. split.
  - intros Ha x y. now rewrite (Hpr Ha x y).
  - intros x. apply IH, Hk.
Qed.

(** A program without a [printf] is deaf to it. *)
Lemma only_deaf {A} (p : prog A) :
  only (fun a => is_printf a = false) p -> deaf p.
Proof.
  induction 1 as [v|z|a k Ha Hk IH]; simpl; [exact I|exact I|].
  split; [congruence|exact IH].
Qed.

Lemma printf_all_deaf (ls : list string) : deaf (printf_all ls).
Proof.
  induction ls as [|l ls IH]; simpl; [exact I|].
  split; [reflexivity|]. intros x. exact IH.
Qed.

Lemma help_deaf (st : Z) (a0 : option string) : deaf (help st a0).
Proof.
  unfold help. destruct a0 as [a0|]; [|exact I].
  destruct (negb (st =? 0)%Z); [|apply printf_all_deaf].
  simpl. split; [discriminate|]. intros x. exact I.
Qed.

Lemma parse_deaf (a0 : option string) (gs : list getopt_ret) (o : locals) :
  deaf (parse_options cfg a0 gs o).
Proof.
  revert o. induction gs as [|[c arg] gs IH]; intros o; [exact I|].
  assert (Hhelp : forall st z, deaf (run help st a0 in (Exit z : prog locals))).
  { intros st z. apply deaf_bind; [apply help_deaf|]. intros; exact I. }
  destruct (switch_cases c) as
    [->|[->|[->|[->|[->|[->|[->|[->|[->|[->|[->|[->|[->|Hother]]]]]]]]]]]]];
    simpl; try apply IH.
  - split; [discriminate|]. intros x. apply IH.
  - apply Hhelp.
  - split; [reflexivity|]. intros x. exact I.
  - destruct Hother as (H1&H2&H3&H4&H5&H6&H7&H8&H9&H10&H11&H12&H13).
    rewrite H1, H2, H3, H4, H5, H6, H7, H8, H9, H10, H11, H12, H13.
    apply Hhelp.
Qed.

Ltac quiet_step :=
  match goal with
  | |- only _ (Return _) => constructor
  | |- only _ skip => constructor
  | |- only _ (act _) => unfold act
  | |- only _ (Act _ _) => constructor; [reflexivity|intros ?]
  | |- only _ (bind _ _) => apply only_bind; [|intros ?]
  | |- only _ (if ?b then _ else _) => destruct b
  | |- only _ (match ?x with Some _ => _ | None => _ end) => destruct x
  end.

Lemma run_shell_deaf (cl : cmdline) (o : locals) : deaf (run_shell cfg cl o).
Proof.
  apply only_deaf. unfold run_shell, loop_and_cleanup, push_sources.
  repeat first
    [ quiet_step
    | eapply only_mono; [|apply configure_shell_only];
      (let x := fresh "x" in let Hx := fresh "Hx" in
       intros x Hx; destruct x; vm_compute in Hx; try discriminate Hx; reflexivity)
    | eapply only_mono; [|apply push_files_only];
      (let x := fresh "x" in let Hx := fresh "Hx" in
       intros x Hx; destruct x; try discriminate Hx; reflexivity) ].
Qed.

Lemma after_sigaction_deaf (cl : cmdline) : deaf (after_sigaction E cfg cl).
Proof.
  unfold after_sigaction. apply deaf_bind.
  - destruct (HAVE_LOCALE_H cfg); simpl; [split; [discriminate|intros; exact I]|exact I].
  - intros o0. apply deaf_bind; [apply parse_deaf|]. intros o. apply run_shell_deaf.
Qed.


Lemma main_installs (d : signal -> sighandler) (cl : cmdline) :
  sched E [Tact; Tact; Tact; Tact] (Running (main cfg cl) (initial_world d))
  = Running (after_sigaction E cfg cl) (sigaction SIGPIPE sigpipe_act (initial_world d)).
Proof. reflexivity. Qed.

Lemma clish_after_sigaction (d : signal -> sighandler) (cl : cmdline) :
  clish E cfg d cl =
  let r := exec E (after_sigaction E cfg cl) (sigaction SIGPIPE sigpipe_act (initial_world d)) in
  {| trace := c_getenv "CLISH_PATH" :: c_getenv "CLISH_VIEW" :: c_getenv "CLISH_VIEWID"
              :: c_sigaction SIGPIPE sigpipe_act :: trace r;
     ended := ended r; final := final r |}.
Proof. reflexivity. Qed.

End Signals.

(** C8. Broken-pipe suppression: the first thing [main] does after reading
    three environment variables, before it writes anything or touches a
    stream or the shell, is to set the disposition of [SIGPIPE] to
    [SIG_IGN]; no later action changes a signal disposition.  From then on,
    whenever and however often [SIGPIPE] is delivered, the process is not
    killed by it and goes on exactly as if it had not been delivered, so
    the run ends with the same result and the same world as the run
    without signals.  And on whatever writes the standard output is a
    broken pipe, the process is not killed and the run ends as the
    undisturbed run ends: [main] ignores what [printf] returns, so the
    value it returns or exits with, what it wrote to the standard error,
    and the result and the sources of the dispatch loop are the same; only
    what reached the standard output is less.  The disposition is still
    [SIG_IGN] at the end. *)
Theorem sigpipe_ignored (E : Clish.env) (cfg : Clish.config)
    (d : Clish.signal -> Clish.sighandler) (cl : Clish.cmdline) :
  (exists rest,
     Clish.trace (Clish.clish E cfg d cl)
     = Clish.c_getenv "CLISH_PATH" :: Clish.c_getenv "CLISH_VIEW"
       :: Clish.c_getenv "CLISH_VIEWID"
       :: Clish.c_sigaction Clish.SIGPIPE Clish.sigpipe_act :: rest /\
     Forall (fun a => Clish.kind_of a <> Clish.KSignal) rest) /\
  Clish.sa_handler Clish.sigpipe_act = Clish.SIG_IGN /\
  (exists p w,
     Clish.sched E [Clish.Tact; Clish.Tact; Clish.Tact; Clish.Tact]
       (Clish.Running (Clish.main cfg cl) (Clish.initial_world d))
     = Clish.Running p w /\
     Clish.w_sig w Clish.SIGPIPE = Clish.SIG_IGN /\
     Clish.w_stdout w = [] /\ Clish.w_stderr w = [] /\ Clish.w_shell w = None /\
     (forall ts,
        Clish.sched E ts (Clish.Running p w) <> Clish.Killed Clish.SIGPIPE /\
        Clish.sched E ts (Clish.Running p w)
        = Clish.sched E (List.filter (fun t => negb (Clish.is_sigpipe t)) ts)
            (Clish.Running p w) /\
        Clish.sigpipe_safe (Clish.sched E ts (Clish.Running p w))) /\
     (forall ts,
        Forall (fun t => t = Clish.Tact \/ t = Clish.Tsignal Clish.SIGPIPE) ts ->
        (length (Clish.trace (Clish.clish E cfg d cl)) - 4
         < length (List.filter (fun t => negb (Clish.is_sigpipe t)) ts))%nat ->
        Clish.sched E ts (Clish.Running p w)
        = Clish.Gone (Clish.ended (Clish.clish E cfg d cl))
            (Clish.final (Clish.clish E cfg d cl))) /\
     (forall ts,
        Forall (fun t => t = Clish.Tact \/ t = Clish.Tepipe
                         \/ t = Clish.Tsignal Clish.SIGPIPE) ts ->
        (length (Clish.trace (Clish.clish E cfg d cl)) - 4
         < length (List.filter (fun t => negb (Clish.is_sigpipe t)) ts))%nat ->
        exists w',
          Clish.sched E ts (Clish.Running p w)
          = Clish.Gone (Clish.ended (Clish.clish E cfg d cl)) w' /\
          Clish.besides_stdout w'
          = Clish.besides_stdout (Clish.final (Clish.clish E cfg d cl)) /\
          Clish.w_loop w' = Clish.w_loop (Clish.final (Clish.clish E cfg d cl)) /\
          Clish.w_stderr w' = Clish.w_stderr (Clish.final (Clish.clish E cfg d cl)))) /\
  Clish.w_sig (Clish.final (Clish.clish E cfg d cl)) Clish.SIGPIPE = Clish.SIG_IGN.
Proof.
  set (w4 := Clish.sigaction Clish.SIGPIPE Clish.sigpipe_act (Clish.initial_world d)).
  assert (Hsafe : Clish.sigpipe_safe (Clish.Running (Clish.after_sigaction E cfg cl) w4)).
  { split; [apply after_sigaction_only|reflexivity]. }
  assert (Hfin : Clish.w_sig (Clish.final (Clish.exec E (Clish.after_sigaction E cfg cl) w4))
                   Clish.SIGPIPE = Clish.SIG_IGN).
  { rewrite (only_frame E (fun a => Clish.kind_of a <> Clish.KSignal) Clish.w_sig).
    - reflexivity.
    - intros a w' Ha. now apply handle_sig.
    - apply after_sigaction_only. }
  split; [|split; [reflexivity|split]].
  - eexists. split; [rewrite clish_after_sigaction; reflexivity|].
    apply only_trace, after_sigaction_only.
  - exists (Clish.after_sigaction E cfg cl), w4.
    split; [apply main_installs|]. split; [reflexivity|].
    split; [reflexivity|]. split; [reflexivity|]. split; [reflexivity|].
    split; [|split].
    + intros ts. pose proof (sched_safe E ts _ Hsafe) as Hts.
      split; [|split; [now apply sched_without_sigpipe|exact Hts]].
      intros Hk. rewrite Hk in Hts. simpl in Hts. now elim Hts.
    + intros ts Hall Hlen.
      rewrite sched_without_sigpipe by exact Hsafe.
      assert (Hrep : List.filter (fun t => negb (Clish.is_sigpipe t)) ts
                     = replicate (length (List.filter
                                            (fun t => negb (Clish.is_sigpipe t)) ts))
                         Clish.Tact).
      { clear Hlen. induction Hall as [|t ts [->| ->] _ IH]; simpl.
        - reflexivity.
        - now rewrite <- IH.
        - exact IH. }
      rewrite Hrep. rewrite clish_after_sigaction in Hlen |- *.
      cbv zeta in Hlen |- *. cbn [Clish.trace Clish.ended Clish.final] in Hlen |- *.
      apply sched_exec. cbn [length] in Hlen. fold w4 in Hlen |- *. lia.
    + intros ts Hall Hlen.
      rewrite sched_without_sigpipe by exact Hsafe.
      assert (Hrest : Forall (fun t => t = Clish.Tact \/ t = Clish.Tepipe)
                        (List.filter (fun t => negb (Clish.is_sigpipe t)) ts)).
      { clear Hlen. induction Hall as [|t ts [->|[->| ->]] _ IH]; simpl.
        - constructor.
        - constructor; [now left|exact IH].
        - constructor; [now right|exact IH].
        - exact IH. }
      rewrite clish_after_sigaction in Hlen |- *.
      cbv zeta in Hlen |- *. cbn [Clish.trace Clish.ended Clish.final] in Hlen |- *.
      cbn [length] in Hlen. fold w4 in Hlen |- *.
      destruct (sched_epipe E (Clish.after_sigaction E cfg cl) _ w4 w4
                  (after_sigaction_deaf E cfg cl) (after_sigaction_only E cfg cl)
                  eq_refl eq_refl Hrest ltac:(lia)) as (w' & Hs & Hw).
      exists w'. split; [exact Hs|]. split; [exact Hw|].
      split; [exact (f_equal Clish.w_loop Hw)|exact (f_equal Clish.w_stderr Hw)].
  - rewrite clish_after_sigaction. exact Hfin.
Qed.

Lemma sigpipe_ignored_witness :
  exists w',
    Clish.sched Clish.sample_env
      (Clish.Tsignal Clish.SIGPIPE :: replicate 20 Clish.Tepipe
       ++ [Clish.Tsignal Clish.SIGPIPE])
      (Clish.sched Clish.sample_env [Clish.Tact; Clish.Tact; Clish.Tact; Clish.Tact]
         (Clish.Running (Clish.main Clish.sample_config Clish.cl_files)
            (Clish.initial_world Clish.default_signals)))
    = Clish.Gone
        (Clish.ended (Clish.clish Clish.sample_env Clish.sample_config
                        Clish.default_signals Clish.cl_files)) w' /\
    Clish.besides_stdout w'
    = Clish.besides_stdout
        (Clish.final (Clish.clish Clish.sample_env Clish.sample_config
                        Clish.default_signals Clish.cl_files)) /\
    Clish.w_loop w'
    = Clish.w_loop (Clish.final (Clish.clish Clish.sample_env Clish.sample_config
                                   Clish.default_signals Clish.cl_files)) /\
    Clish.w_stderr w'
    = Clish.w_stderr (Clish.final (Clish.clish Clish.sample_env Clish.sample_config
                                     Clish.default_signals Clish.cl_files)).
Proof.
  destruct (sigpipe_ignored Clish.sample_env Clish.sample_config Clish.default_signals
              Clish.cl_files) as (_ & _ & (p & w & H4 & _ & _ & _ & _ & _ & _ & Hend) & _).
  rewrite H4. apply Hend.
  - simpl.
    repeat (apply List.Forall_cons;
            [first [left; reflexivity|right; left; reflexivity|right; right; reflexivity]|]).
    apply List.Forall_nil.
  - vm_compute. lia.
Defined.

(** ** The client: quiet mode *)

Section Quiet.
Import Clish.
Local Open Scope list_scope.
Variable E : env.
Variable cfg : config.

Ltac same_but_quiet :=
  match goal with
  | H : set_quiet false ?o1 = set_quiet false ?o2 |- _ =>
      destruct o1, o2; unfold set_quiet in H; simpl in H; inversion H; subst;
      reflexivity
  end.

(** Two option loops that differ only in the [-q] options do and print the
    same, end the same way, and leave locals that differ in [quiet] only. *)
Lemma parse_without_quiet (a0 : option string) (gs : list getopt_ret)
    (o1 o2 : locals) (w : world) :
  set_quiet false o1 = set_quiet false o2 ->
  trace (exec E (parse_options cfg a0 gs o1) w)
  = trace (exec E (parse_options cfg a0 (without_quiet gs) o2) w) /\
  final (exec E (parse_options cfg a0 gs o1) w)
  = final (exec E (parse_options cfg a0 (without_quiet gs) o2) w) /\
  match ended (exec E (parse_options cfg a0 gs o1) w),
        ended (exec E (parse_options cfg a0 (without_quiet gs) o2) w) with
  | Returns o1', Returns o2' =>
      set_quiet false o1' = set_quiet false o2' /\ quiet o2' = quiet o2
  | Exits z1, Exits z2 => z1 = z2
  | _, _ => False
  end.
Proof.
  revert o1 o2 w. induction gs as [|[c arg] gs IH]; intros o1 o2 w Hrel.
  - simpl. auto.
  - assert (Hhelp : forall st z,
              ended (exec E (run help st a0 in (Exit z : prog locals)) w) = Exits z).
    { intros st z. rewrite exec_bind, help_returns. reflexivity. }
    destruct (switch_cases c) as
      [->|[->|[->|[->|[->|[->|[->|[->|[->|[->|[->|[->|[->|Hother]]]]]]]]]]]]];
      simpl.
    + apply (IH (set_socket_path arg o1) (set_socket_path arg o2) w). same_but_quiet.
    + apply (IH (set_lockless true o1) (set_lockless true o2) w). same_but_quiet.
    + apply (IH (set_stop_on_error true o1) (set_stop_on_error true o2) w). same_but_quiet.
    + apply (IH (set_interactive false o1) (set_interactive false o2) w). same_but_quiet.
    + apply (IH (set_quiet true o1) o2 w). same_but_quiet.
    + apply (IH (set_utf8 true o1) (set_utf8 true o2) w). same_but_quiet.
    + apply (IH (set_bit8 true o1) (set_bit8 true o2) w). same_but_quiet.
    + destruct (IH o1 o2 (with_my_hooks (set_script_fn clish_dryrun_callback (w_my_hooks w)) w)
                  Hrel) as (Ht & Hf & He).
      split; [now f_equal|]. split; [exact Hf|exact He].
    + apply (IH (set_xml_path (Some arg) o1) (set_xml_path (Some arg) o2) w).
      same_but_quiet.
    + apply (IH (set_view (Some arg) o1) (set_view (Some arg) o2) w). same_but_quiet.
    + apply (IH (set_viewid (Some arg) o1) (set_viewid (Some arg) o2) w). same_but_quiet.
    + split; [reflexivity|]. split; [reflexivity|]. now rewrite Hhelp.
    + split; [reflexivity|]. split; reflexivity.
    + destruct Hother as (H1&H2&H3&H4&H5&H6&H7&H8&H9&H10&H11&H12&H13).
      rewrite H5. simpl.
      rewrite H1, H2, H3, H4, H5, H6, H7, H8, H9, H10, H11, H12, H13.
      split; [reflexivity|]. split; [reflexivity|]. now rewrite Hhelp.
Qed.

Lemma quiet_blocks (cl1 cl2 : cmdline) (o1 o2 : locals) :
  files cl1 = files cl2 ->
  set_quiet false o1 = set_quiet false o2 ->
  utf8 o1 = utf8 o2 /\ bit8 o1 = bit8 o2 /\ stop_on_error o1 = stop_on_error o2 /\
  configure_trace E cfg o1 = configure_trace E cfg o2 /\
  configured_core E cfg o1 = configured_core E cfg o2 /\
  loaded_core E cfg cl1 o1 = loaded_core E cfg cl2 o2 /\
  push_trace cl1 (stop_on_error o1) = push_trace cl2 (stop_on_error o2).
Proof.
  intros Hfiles Hrel.
  assert (Hct : configure_trace E cfg o1 = configure_trace E cfg o2).
  { change (configure_trace E cfg (set_quiet false o1)
            = configure_trace E cfg (set_quiet false o2)).
    now rewrite Hrel. }
  assert (Hs : stop_on_error o1 = stop_on_error o2).
  { change (stop_on_error (set_quiet false o1) = stop_on_error (set_quiet false o2)).
    now rewrite Hrel. }
  assert (Hu : utf8 o1 = utf8 o2).
  { change (utf8 (set_quiet false o1) = utf8 (set_quiet false o2)). now rewrite Hrel. }
  assert (Hb : bit8 o1 = bit8 o2).
  { change (bit8 (set_quiet false o1) = bit8 (set_quiet false o2)). now rewrite Hrel. }
  repeat split; try assumption.
  - unfold configured_core. now rewrite Hct, Hs.
  - unfold loaded_core, pushed_stack. now rewrite Hct, Hs, Hfiles.
  - unfold push_trace. now rewrite Hs, Hfiles.
Qed.

Lemma control_app (t1 t2 : list action) : control (t1 ++ t2) = control t1 ++ control t2.
Proof. apply omap_app. Qed.

End Quiet.

(** X23. What quiet mode changes in [main]: take a command line and the
    same command line without its [-q] options.  The two runs perform the
    same actions apart from opening [/dev/null], closing that stream, and
    the stream the shell is given; they write the same to the standard
    error, leave the same hooks, and enter the dispatch loop (if at all)
    with the same sources, settings and hooks, on which the result and the
    echo of the loop depend.  They differ in where the echo goes: what the
    quiet run sends to [/dev/null] is what the other run writes to the
    standard output after everything both of them write there.  Unless the
    quiet run was handed [NULL] by [fopen], the two runs end the same way
    with the same exit status. *)
Theorem quiet_noninterference (E : Clish.env) (cfg : Clish.config)
    (d : Clish.signal -> Clish.sighandler) (cl1 cl2 : Clish.cmdline) :
  Clish.argv0 cl1 = Clish.argv0 cl2 ->
  Clish.files cl1 = Clish.files cl2 ->
  Clish.opts cl2 = Clish.without_quiet (Clish.opts cl1) ->
  (Clish.given "q" (Clish.opts cl1) && negb (Clish.fopen_ok E) = false ->
   Clish.ended (Clish.clish E cfg d cl1) = Clish.ended (Clish.clish E cfg d cl2) /\
   Clish.exit_status (Clish.ended (Clish.clish E cfg d cl1))
   = Clish.exit_status (Clish.ended (Clish.clish E cfg d cl2))) /\
  Clish.control (Clish.trace (Clish.clish E cfg d cl1))
  = Clish.control (Clish.trace (Clish.clish E cfg d cl2)) /\
  Clish.w_stderr (Clish.final (Clish.clish E cfg d cl1))
  = Clish.w_stderr (Clish.final (Clish.clish E cfg d cl2)) /\
  Clish.w_my_hooks (Clish.final (Clish.clish E cfg d cl1))
  = Clish.w_my_hooks (Clish.final (Clish.clish E cfg d cl2)) /\
  Clish.dispatch_view <$> Clish.w_loop (Clish.final (Clish.clish E cfg d cl1))
  = Clish.dispatch_view <$> Clish.w_loop (Clish.final (Clish.clish E cfg d cl2)) /\
  Clish.w_stdout (Clish.final (Clish.clish E cfg d cl1))
  ++ Clish.w_null (Clish.final (Clish.clish E cfg d cl1))
  = Clish.w_stdout (Clish.final (Clish.clish E cfg d cl2)) /\
  Clish.w_null (Clish.final (Clish.clish E cfg d cl2)) = [] /\
  (forall le, Clish.w_loop (Clish.final (Clish.clish E cfg d cl1)) = Some le ->
              Clish.le_ostream le
              = if Clish.given "q" (Clish.opts cl1) then Clish.dev_null else Clish.stdout) /\
  (forall le, Clish.w_loop (Clish.final (Clish.clish E cfg d cl2)) = Some le ->
              Clish.le_ostream le = Clish.stdout).
Proof.
  intros Ha0 Hfiles Hopts.
  pose proof (parse_without_quiet E cfg (Clish.argv0 cl1) (Clish.opts cl1)
                (Clish.locals0 E cfg) (Clish.locals0 E cfg)
                (Clish.started cfg (Clish.initial_world d)) eq_refl) as (Htr & Hfin & Hend).
  assert (Hflags := parse_run_flags E cfg d cl1).
  assert (Hnull : Clish.w_null (Clish.final (Clish.parse_run E cfg d cl1)) = []).
  { unfold Clish.parse_run. rewrite parse_frame by reflexivity.
    unfold Clish.started. now destruct (Clish.HAVE_LOCALE_H cfg). }
  assert (Hloop : Clish.w_loop (Clish.final (Clish.parse_run E cfg d cl1)) = None).
  { unfold Clish.parse_run. rewrite parse_frame by reflexivity.
    unfold Clish.started. now destruct (Clish.HAVE_LOCALE_H cfg). }
  rewrite !clish_unfold.
  assert (Hp2 : Clish.parse_run E cfg d cl2
                = Clish.exec E (Clish.parse_options cfg (Clish.argv0 cl1)
                                  (Clish.without_quiet (Clish.opts cl1))
                                  (Clish.locals0 E cfg))
                    (Clish.started cfg (Clish.initial_world d))).
  { unfold Clish.parse_run. now rewrite Hopts, Ha0. }
  rewrite Hp2. clear Hp2. fold (Clish.parse_run E cfg d cl1) in Htr, Hfin, Hend |- *.
  rewrite <- Htr, <- Hfin.
  destruct (Clish.ended (Clish.parse_run E cfg d cl1)) as [o1|z1|] eqn:Hend1;
    destruct (Clish.ended (Clish.exec E
                (Clish.parse_options cfg (Clish.argv0 cl1)
                   (Clish.without_quiet (Clish.opts cl1)) (Clish.locals0 E cfg))
                (Clish.started cfg (Clish.initial_world d)))) as [o2|z2|];
    try contradiction.
  - destruct Hend as [Hrel Hq2]. simpl in Hq2.
    destruct (Hflags o1 eq_refl) as (_ & _ & Hq1 & _).
    destruct (quiet_blocks E cfg cl1 cl2 o1 o2 Hfiles Hrel)
      as (Hu & Hb & Hs & Hct & Hcc & Hlc & Hpt).
    cbv zeta. cbn [Clish.trace Clish.ended Clish.final].
    rewrite !exec_run_shell. rewrite Hpt, Hlc, Hcc, Hct, Hu, Hb, Hs, <- Hq1.
    unfold Clish.outfd_of. rewrite Hq2. cbv zeta.
    set (w := Clish.final (Clish.parse_run E cfg d cl1)) in *.
    set (pt := Clish.trace (Clish.parse_run E cfg d cl1)).
    destruct (Clish.utf8 o2 && Clish.bit8 o2).
    { cbn [Clish.trace Clish.ended Clish.final]. simpl.
      rewrite Hnull, Hloop, app_nil_r. repeat split; try reflexivity; discriminate. }
    destruct (Clish.shell_new_ok E); cbn [negb].
    2:{ cbn [Clish.trace Clish.ended Clish.final].
        rewrite !control_app. destruct (Clish.quiet o1); simpl;
          rewrite Hnull, Hloop, app_nil_r; repeat split; try reflexivity; discriminate. }
    destruct (Clish.shell_startup E (Clish.configured_core E cfg o2) (Clish.w_my_hooks w));
      cbn [negb].
    + cbn [Clish.trace Clish.ended Clish.final].
      rewrite !control_app.
      destruct (Clish.shell_loop E (Clish.loaded_core E cfg cl2 o2) (Clish.w_my_hooks w))
        as [res echo].
      destruct (Clish.quiet o1), (Clish.fopen_ok E); simpl; rewrite ?Hnull, ?app_nil_r;
        (split; [first [discriminate|split; reflexivity]|]);
        repeat split; try reflexivity;
        intros le Hle; inversion Hle; reflexivity.
    + cbn [Clish.trace Clish.ended Clish.final].
      rewrite !control_app. destruct (Clish.quiet o1); simpl;
        rewrite Hnull, Hloop, app_nil_r; repeat split; try reflexivity; discriminate.
  - subst z2. cbn [Clish.trace Clish.ended Clish.final].
    rewrite Hnull, Hloop, app_nil_r. repeat split; try reflexivity; discriminate.
Qed.

Lemma quiet_noninterference_witness :
  Clish.ended (Clish.clish Clish.sample_env Clish.sample_config Clish.default_signals
                 Clish.cl_quiet)
  = Clish.ended (Clish.clish Clish.sample_env Clish.sample_config Clish.default_signals
                   Clish.cl_loud) /\
  Clish.exit_status
    (Clish.ended (Clish.clish Clish.sample_env Clish.sample_config Clish.default_signals
                    Clish.cl_quiet))
  = Clish.exit_status
      (Clish.ended (Clish.clish Clish.sample_env Clish.sample_config Clish.default_signals
                      Clish.cl_loud)) /\
  Clish.control
    (Clish.trace (Clish.clish Clish.sample_env Clish.sample_config Clish.default_signals
                    Clish.cl_quiet))
  = Clish.control
      (Clish.trace (Clish.clish Clish.sample_env Clish.sample_config Clish.default_signals
                      Clish.cl_loud)) /\
  Clish.w_stderr
    (Clish.final (Clish.clish Clish.sample_env Clish.sample_config Clish.default_signals
                    Clish.cl_quiet))
  = Clish.w_stderr
      (Clish.final (Clish.clish Clish.sample_env Clish.sample_config Clish.default_signals
                      Clish.cl_loud)) /\
  Clish.w_my_hooks
    (Clish.final (Clish.clish Clish.sample_env Clish.sample_config Clish.default_signals
                    Clish.cl_quiet))
  = Clish.w_my_hooks
      (Clish.final (Clish.clish Clish.sample_env Clish.sample_config Clish.default_signals
                      Clish.cl_loud)) /\
  Clish.dispatch_view <$>
    Clish.w_loop
      (Clish.final (Clish.clish Clish.sample_env Clish.sample_config Clish.default_signals
                      Clish.cl_quiet))
  = Clish.dispatch_view <$>
      Clish.w_loop
        (Clish.final (Clish.clish Clish.sample_env Clish.sample_config
                        Clish.default_signals Clish.cl_loud)) /\
  Clish.w_stdout
    (Clish.final (Clish.clish Clish.sample_env Clish.sample_config Clish.default_signals
                    Clish.cl_quiet))
  ++ Clish.w_null
       (Clish.final (Clish.clish Clish.sample_env Clish.sample_config
                       Clish.default_signals Clish.cl_quiet))
  = Clish.w_stdout
      (Clish.final (Clish.clish Clish.sample_env Clish.sample_config Clish.default_signals
                      Clish.cl_loud)) /\
  Clish.w_null
    (Clish.final (Clish.clish Clish.sample_env Clish.sample_config Clish.default_signals
                    Clish.cl_loud)) = [] /\
  (forall le,
     Clish.w_loop
       (Clish.final (Clish.clish Clish.sample_env Clish.sample_config
                       Clish.default_signals Clish.cl_quiet)) = Some le ->
     Clish.le_ostream le
     = if Clish.given "q" (Clish.opts Clish.cl_quiet) then Clish.dev_null
       else Clish.stdout) /\
  (forall le,
     Clish.w_loop
       (Clish.final (Clish.clish Clish.sample_env Clish.sample_config
                       Clish.default_signals Clish.cl_loud)) = Some le ->
     Clish.le_ostream le = Clish.stdout).
Proof.
  destruct (quiet_noninterference Clish.sample_env Clish.sample_config
              Clish.default_signals Clish.cl_quiet Clish.cl_loud eq_refl eq_refl eq_refl)
    as (Hend & Hrest).
  destruct (Hend eq_refl) as [He Hs].
  split; [exact He|]. split; [exact Hs|exact Hrest].
Defined.

(** C9, where the code fails it: [clish -q A B] and [clish A B] on a system
    where [/dev/null] cannot be opened.  Both runs enter the dispatch loop
    with the same sources, settings and hooks and get the same result from
    it, success; the run without [-q] returns 0, and the quiet run, which
    did not test what [fopen] returned, is killed in [fclose(NULL)]. *)
Lemma quiet_null_stream_interferes :
  Clish.opts Clish.cl_loud = Clish.without_quiet (Clish.opts Clish.cl_quiet) /\
  Clish.files Clish.cl_loud = Clish.files Clish.cl_quiet /\
  Clish.dispatch_view <$>
    Clish.w_loop (Clish.final (Clish.clish Clish.env_no_dev_null Clish.sample_config
                                 Clish.default_signals Clish.cl_quiet))
  = Clish.dispatch_view <$>
      Clish.w_loop (Clish.final (Clish.clish Clish.env_no_dev_null Clish.sample_config
                                   Clish.default_signals Clish.cl_loud)) /\
  Clish.le_result <$>
    Clish.w_loop (Clish.final (Clish.clish Clish.env_no_dev_null Clish.sample_config
                                 Clish.default_signals Clish.cl_quiet)) = Some 1 /\
  Clish.ended (Clish.clish Clish.env_no_dev_null Clish.sample_config
                 Clish.default_signals Clish.cl_loud) = Clish.Returns 0 /\
  Clish.ended (Clish.clish Clish.env_no_dev_null Clish.sample_config
                 Clish.default_signals Clish.cl_quiet) = Clish.Crashes.
Proof. repeat split. Qed.

(** ** The transport session: further properties *)

Section KtpSessionMore.
Import KtpSession.

(** The heap a successful creation leaves. *)
Lemma ktp_session_new_heap (ndebug : bool) (sock : Z) (m : gmap loc block) (r : nat)
    (o : gset Z) :
  0 <= sock ->
  exists l n,
    m !! l = None /\ m !! n = None /\ l <> n /\
    ktp_session_new ndebug sock {| cells := m; room := S (S r); open_fds := o |}
    = (Ret (Some l),
       {| cells := <[n := Bnet {| fd := sock |}]>
                     (<[l := Bsession {| state := KTP_SESSION_STATE_NOT_AUTHORIZED;
                                         net := Some n |}]> m);
          room := r; open_fds := o |}).
Proof.
  intros Hs.
  set (l := fresh (dom m)).
  set (m1 := <[l := Bsession {| state := KTP_SESSION_STATE_NOT_AUTHORIZED;
                                net := NULL |}]> (<[l := Bzero]> m)).
  set (n := fresh (dom m1)).
  assert (Hl : m !! l = None) by apply fresh_cell.
  assert (Hn1 : m1 !! n = None) by apply fresh_cell.
  assert (Hln : l <> n).
  { intros Heq. rewrite <- Heq in Hn1. unfold m1 in Hn1.
    rewrite lookup_insert_eq in Hn1. discriminate. }
  assert (Hn : m !! n = None).
  { unfold m1 in Hn1. now rewrite !lookup_insert_ne in Hn1 by exact Hln. }
  exists l, n. split; [exact Hl|]. split; [exact Hn|]. split; [exact Hln|].
  unfold ktp_session_new.
  destruct (sock <? 0) eqn:Hneg; [apply Z.ltb_lt in Hneg; lia|].
  unfold bind, faux_zmalloc, faux_net_new, alloc, assert, store_state,
    store_net, faux_net_set_fd, ret. simpl.
  fold l. rewrite lookup_insert_eq. simpl. fold m1. fold n.
  rewrite lookup_insert_ne by congruence.
  unfold m1 at 1. rewrite lookup_insert_eq. simpl.
  rewrite lookup_insert_ne by congruence.
  rewrite lookup_insert_eq. simpl. f_equal. f_equal.
  apply map_eq. intros i. unfold m1.
  destruct (decide (i = n)) as [->|Hin].
  - now rewrite !lookup_insert_eq.
  - rewrite !(lookup_insert_ne _ n i) by congruence.
    destruct (decide (i = l)) as [->|Hil].
    + now rewrite !lookup_insert_eq.
    + repeat (rewrite lookup_insert_ne by congruence). reflexivity.
Qed.

Lemma get_socket_live (ndebug : bool) (h : heap) (l n : loc) (s : ktp_session_t)
    (nb : faux_net_t) :
  cells h !! l = Some (Bsession s) -> net s = Some n -> cells h !! n = Some (Bnet nb) ->
  ktp_session_get_socket ndebug (Some l) h = (Ret (fd nb), h).
Proof.
  intros Hl Hn Hnb.
  unfold ktp_session_get_socket, bind, assert, load_session, faux_net_get_fd. simpl.
  rewrite Hl, Hn, Hnb. reflexivity.
Qed.

Lemma connected_live (ndebug : bool) (h : heap) (l : loc) (s : ktp_session_t) :
  cells h !! l = Some (Bsession s) ->
  ktp_session_connected ndebug (Some l) h
  = (Ret (negb (bool_decide (KTP_SESSION_STATE_DISCONNECTED = state s))), h).
Proof.
  intros Hl.
  unfold ktp_session_connected, bind, assert, load_session, ret. simpl.
  rewrite Hl. now destruct (state s).
Qed.

Lemma free_live (h : heap) (l n : loc) (s : ktp_session_t) (nb : faux_net_t) :
  cells h !! l = Some (Bsession s) -> net s = Some n -> cells h !! n = Some (Bnet nb) ->
  ktp_session_free (Some l) h
  = (Ret tt, {| cells := delete l (delete n (cells h)); room := S (S (room h));
                open_fds := open_fds h ∖ {[fd nb]} |}).
Proof.
  intros Hl Hn Hnb.
  assert (Hne : n <> l) by (intros ->; congruence).
  unfold ktp_session_free, bind, load_session, faux_net_free, faux_free.
  rewrite Hl, Hn, Hnb. simpl. rewrite lookup_delete_ne by congruence.
  now rewrite Hl.
Qed.

(** X1. A session that was just created is usable: it reports connected,
    and [ktp_session_get_socket] gives back the descriptor it was created
    with; neither call changes the heap. *)
Theorem new_session_usable (ndebug : bool) (sock : Z) (h : heap) :
  0 <= sock -> (2 <= room h)%nat ->
  exists l h',
    ktp_session_new ndebug sock h = (Ret (Some l), h') /\
    ktp_session_connected ndebug (Some l) h' = (Ret true, h') /\
    ktp_session_get_socket ndebug (Some l) h' = (Ret sock, h').
Proof.
  intros Hs Hroom. destruct h as [m [|[|r]] o]; simpl in Hroom; try lia.
  destruct (ktp_session_new_heap ndebug sock m r o Hs) as (l & n & Hl & Hn & Hln & Hnew).
  set (s := {| state := KTP_SESSION_STATE_NOT_AUTHORIZED; net := Some n |}) in *.
  set (h' := {| cells := <[n := Bnet {| fd := sock |}]> (<[l := Bsession s]> m);
                room := r; open_fds := o |}) in *.
  assert (Hcl : cells h' !! l = Some (Bsession s)).
  { simpl. rewrite lookup_insert_ne by congruence. apply lookup_insert_eq. }
  assert (Hcn : cells h' !! n = Some (Bnet {| fd := sock |})) by apply lookup_insert_eq.
  exists l, h'. split; [exact Hnew|]. split.
  - now rewrite (connected_live ndebug h' l s Hcl).
  - now rewrite (get_socket_live ndebug h' l n s _ Hcl eq_refl Hcn).
Qed.

Lemma new_session_usable_witness :
  exists l h',
    ktp_session_new false 7 (empty_heap 2) = (Ret (Some l), h') /\
    ktp_session_connected false (Some l) h' = (Ret true, h') /\
    ktp_session_get_socket false (Some l) h' = (Ret 7, h').
Proof. apply (new_session_usable false 7 (empty_heap 2)); simpl; lia. Defined.

(** X2. Creating a session and destroying it again leaves the memory
    exactly as it was, the same live blocks and the same room in the
    allocator, and of the descriptors it closes the one the session was
    created on and no other. *)
Theorem new_then_free_restores (ndebug : bool) (sock : Z) (h : heap) :
  0 <= sock -> (2 <= room h)%nat ->
  exists l h',
    ktp_session_new ndebug sock h = (Ret (Some l), h') /\
    ktp_session_free (Some l) h'
    = (Ret tt, {| cells := cells h; room := room h;
                  open_fds := open_fds h ∖ {[sock]} |}).
Proof.
  intros Hs Hroom. destruct h as [m [|[|r]] o]; simpl in Hroom; try lia.
  destruct (ktp_session_new_heap ndebug sock m r o Hs) as (l & n & Hl & Hn & Hln & Hnew).
  set (s := {| state := KTP_SESSION_STATE_NOT_AUTHORIZED; net := Some n |}) in *.
  set (h' := {| cells := <[n := Bnet {| fd := sock |}]> (<[l := Bsession s]> m);
                room := r; open_fds := o |}) in *.
  assert (Hcl : cells h' !! l = Some (Bsession s)).
  { simpl. rewrite lookup_insert_ne by congruence. apply lookup_insert_eq. }
  assert (Hcn : cells h' !! n = Some (Bnet {| fd := sock |})) by apply lookup_insert_eq.
  exists l, h'. split; [exact Hnew|].
  rewrite (free_live h' l n s _ Hcl eq_refl Hcn).
  simpl. f_equal. f_equal.
  apply map_eq. intros i.
  destruct (decide (i = l)) as [->|Hil]; [now rewrite lookup_delete_eq|].
  rewrite lookup_delete_ne by congruence.
  destruct (decide (i = n)) as [->|Hin]; [now rewrite lookup_delete_eq|].
  rewrite lookup_delete_ne by congruence.
  now rewrite !lookup_insert_ne by congruence.
Qed.

Lemma new_then_free_restores_witness :
  exists l h',
    ktp_session_new false 7 socket_heap = (Ret (Some l), h') /\
    ktp_session_free (Some l) h'
    = (Ret tt, {| cells := cells socket_heap; room := room socket_heap;
                  open_fds := open_fds socket_heap ∖ {[7]} |}).
Proof. apply (new_then_free_restores false 7 socket_heap); simpl; lia. Defined.

(** X3. Sessions do not interfere: two sessions created one after the
    other have different pointers and each gives back its own descriptor,
    and after the first is destroyed the second is still connected and
    still gives back its descriptor. *)
Theorem sessions_independent (ndebug : bool) (s1 s2 : Z) (h : heap) :
  0 <= s1 -> 0 <= s2 -> (4 <= room h)%nat ->
  exists l1 l2 h1 h2 h3,
    ktp_session_new ndebug s1 h = (Ret (Some l1), h1) /\
    ktp_session_new ndebug s2 h1 = (Ret (Some l2), h2) /\
    l1 <> l2 /\
    ktp_session_get_socket ndebug (Some l1) h2 = (Ret s1, h2) /\
    ktp_session_get_socket ndebug (Some l2) h2 = (Ret s2, h2) /\
    ktp_session_free (Some l1) h2 = (Ret tt, h3) /\
    ktp_session_connected ndebug (Some l2) h3 = (Ret true, h3) /\
    ktp_session_get_socket ndebug (Some l2) h3 = (Ret s2, h3).
Proof.
  intros H1 H2 Hroom. destruct h as [m [|[|[|[|r]]]] o]; simpl in Hroom; try lia.
  destruct (ktp_session_new_heap ndebug s1 m (S (S r)) o H1)
    as (l1 & n1 & Hl1 & Hn1 & Hln1 & Hnew1).
  set (m1 := <[n1 := Bnet {| fd := s1 |}]>
               (<[l1 := Bsession {| state := KTP_SESSION_STATE_NOT_AUTHORIZED;
                                    net := Some n1 |}]> m)) in *.
  destruct (ktp_session_new_heap ndebug s2 m1 r o H2)
    as (l2 & n2 & Hl2 & Hn2 & Hln2 & Hnew2).
  assert (Hm1l1 : m1 !! l1 = Some (Bsession {| state := KTP_SESSION_STATE_NOT_AUTHORIZED;
                                               net := Some n1 |})).
  { unfold m1. rewrite lookup_insert_ne by congruence. apply lookup_insert_eq. }
  assert (Hm1n1 : m1 !! n1 = Some (Bnet {| fd := s1 |})) by apply lookup_insert_eq.
  assert (Hl12 : l1 <> l2) by (intros ->; congruence).
  assert (Hl1n2 : l1 <> n2) by (intros ->; congruence).
  assert (Hn1l2 : n1 <> l2) by (intros ->; congruence).
  assert (Hn12 : n1 <> n2) by (intros ->; congruence).
  set (m2 := <[n2 := Bnet {| fd := s2 |}]>
               (<[l2 := Bsession {| state := KTP_SESSION_STATE_NOT_AUTHORIZED;
                                    net := Some n2 |}]> m1)) in *.
  assert (Hm2l1 : m2 !! l1 = Some (Bsession {| state := KTP_SESSION_STATE_NOT_AUTHORIZED;
                                               net := Some n1 |})).
  { unfold m2. now rewrite !lookup_insert_ne by congruence. }
  assert (Hm2n1 : m2 !! n1 = Some (Bnet {| fd := s1 |})).
  { unfold m2. now rewrite !lookup_insert_ne by congruence. }
  assert (Hm2l2 : m2 !! l2 = Some (Bsession {| state := KTP_SESSION_STATE_NOT_AUTHORIZED;
                                               net := Some n2 |})).
  { unfold m2. rewrite lookup_insert_ne by congruence. apply lookup_insert_eq. }
  assert (Hm2n2 : m2 !! n2 = Some (Bnet {| fd := s2 |})) by apply lookup_insert_eq.
  set (h2 := {| cells := m2; room := r; open_fds := o |}) in *.
  set (h3 := {| cells := delete l1 (delete n1 m2); room := S (S r);
                open_fds := o ∖ {[s1]} |}).
  assert (Hm3l2 : cells h3 !! l2 = Some (Bsession {| state := KTP_SESSION_STATE_NOT_AUTHORIZED;
                                                     net := Some n2 |})).
  { simpl. now rewrite !lookup_delete_ne by congruence. }
  assert (Hm3n2 : cells h3 !! n2 = Some (Bnet {| fd := s2 |})).
  { simpl. now rewrite !lookup_delete_ne by congruence. }
  exists l1, l2, {| cells := m1; room := S (S r); open_fds := o |}, h2, h3.
  split; [exact Hnew1|]. split; [exact Hnew2|]. split; [exact Hl12|].
  split; [now rewrite (get_socket_live ndebug h2 l1 n1 _ _ Hm2l1 eq_refl Hm2n1)|].
  split; [now rewrite (get_socket_live ndebug h2 l2 n2 _ _ Hm2l2 eq_refl Hm2n2)|].
  split; [now rewrite (free_live h2 l1 n1 _ _ Hm2l1 eq_refl Hm2n1)|].
  split.
  - now rewrite (connected_live ndebug h3 l2 _ Hm3l2).
  - now rewrite (get_socket_live ndebug h3 l2 n2 _ _ Hm3l2 eq_refl Hm3n2).
Qed.

Lemma sessions_independent_witness :
  exists l1 l2 h1 h2 h3,
    ktp_session_new false 3 (empty_heap 4) = (Ret (Some l1), h1) /\
    ktp_session_new false 9 h1 = (Ret (Some l2), h2) /\
    l1 <> l2 /\
    ktp_session_get_socket false (Some l1) h2 = (Ret 3, h2) /\
    ktp_session_get_socket false (Some l2) h2 = (Ret 9, h2) /\
    ktp_session_free (Some l1) h2 = (Ret tt, h3) /\
    ktp_session_connected false (Some l2) h3 = (Ret true, h3) /\
    ktp_session_get_socket false (Some l2) h3 = (Ret 9, h3).
Proof. apply (sessions_independent false 3 9 (empty_heap 4)); simpl; lia. Defined.

(** X4. Without memory the constructor never hands out a half-built
    session when asserts are on: if the allocator cannot supply both the
    session and its net object, the process stops in a failed [assert].
    With asserts compiled out and no room at all it returns [NULL] and
    leaves the heap as it was. *)
Theorem new_without_memory (sock : Z) (h : heap) :
  0 <= sock ->
  ((room h < 2)%nat -> (ktp_session_new false sock h).1 = Abort) /\
  (room h = O -> ktp_session_new true sock h = (Ret NULL, h)).
Proof.
  intros Hs. unfold ktp_session_new.
  destruct (sock <? 0) eqn:Hneg; [apply Z.ltb_lt in Hneg; lia|].
  destruct h as [m [|[|r]]]; simpl.
  - split; [reflexivity|reflexivity].
  - split; [|discriminate]. intros _.
    unfold bind, faux_zmalloc, faux_net_new, alloc, assert, store_state,
      store_net, ret. simpl.
    rewrite lookup_insert_eq. simpl. rewrite lookup_insert_eq. reflexivity.
  - split; [lia|discriminate].
Qed.

Lemma new_without_memory_witness :
  (ktp_session_new false 3 (empty_heap 1)).1 = Abort /\
  ktp_session_new true 3 (empty_heap 0) = (Ret NULL, empty_heap 0).
Proof.
  split.
  - apply (proj1 (new_without_memory 3 (empty_heap 1) ltac:(lia))). simpl. lia.
  - apply (proj2 (new_without_memory 3 (empty_heap 0) ltac:(lia))). reflexivity.
Defined.

(** X5. [ktp_session_get_socket]: on a live session it returns the
    descriptor held by the session's net object and changes nothing; on
    [NULL] it stops in the [assert], or, with asserts compiled out, returns
    0, which is also a valid descriptor. *)
Theorem ktp_session_get_socket_spec :
  (forall h, ktp_session_get_socket false NULL h = (Abort, h)) /\
  (forall h, ktp_session_get_socket true NULL h = (Ret 0, h)) /\
  (forall ndebug h l n s nb,
     cells h !! l = Some (Bsession s) -> net s = Some n ->
     cells h !! n = Some (Bnet nb) ->
     ktp_session_get_socket ndebug (Some l) h = (Ret (fd nb), h)).
Proof.
  split; [reflexivity|]. split; [reflexivity|].
  intros ndebug h l n s nb Hl Hn Hnb.
  unfold ktp_session_get_socket, bind, assert, load_session, faux_net_get_fd. simpl.
  rewrite Hl, Hn, Hnb. reflexivity.
Qed.

Lemma ktp_session_get_socket_spec_witness :
  ktp_session_get_socket false (Some 1%positive) session_with_net
  = (Ret 5, session_with_net).
Proof.
  apply (proj2 (proj2 ktp_session_get_socket_spec) false session_with_net
           1%positive 2%positive
           {| state := KTP_SESSION_STATE_AUTHORIZED; net := Some 2%positive |}
           {| fd := 5 |}); reflexivity.
Defined.

End KtpSessionMore.

(** ** The client: [help] and the options that end the process *)

Section Help.
Import Clish.
Local Open Scope list_scope.
Variable E : env.
Variable cfg : config.

Lemma strrchr_slash_none (s : string) :
  strrchr_slash s = None <-> has_slash s = false.
Proof.
  induction s as [|c s IH]; simpl; [tauto|].
  destruct (strrchr_slash s) as [r|].
  - split; [discriminate|]. intros H. apply orb_false_iff in H as [_ H].
    apply IH in H. discriminate.
  - destruct (Ascii.eqb c "/"); simpl; [split; discriminate|].
    split; intros _; [now apply IH|reflexivity].
Qed.

Lemma strrchr_slash_some (s r : string) :
  strrchr_slash s = Some r -> exists t, r = String "/" t /\ has_slash t = false.
Proof.
  induction s as [|c s IH]; simpl; [discriminate|].
  destruct (strrchr_slash s) as [r'|] eqn:Hs.
  - intros H. inversion H; subst. now apply IH.
  - destruct (Ascii.eqb c "/") eqn:Hc; [|discriminate].
    intros H. inversion H; subst. apply Ascii.eqb_eq in Hc. subst c.
    exists s. split; [reflexivity|]. now apply strrchr_slash_none.
Qed.

Lemma strrchr_slash_app (d f : string) :
  has_slash f = false ->
  strrchr_slash (d ++ String "/" f)%string = Some (String "/" f).
Proof.
  intros Hf. induction d as [|c d IH]; simpl.
  - apply strrchr_slash_none in Hf. now rewrite Hf.
  - now rewrite IH.
Qed.

Lemma with_stdout_same (w : world) : with_stdout (w_stdout w) w = w.
Proof. now destruct w. Qed.

Lemma with_stderr_same (w : world) : with_stderr (w_stderr w) w = w.
Proof. now destruct w. Qed.

Lemma exec_printf_all (ls : list string) (w : world) :
  exec E (printf_all ls) w =
  {| trace := map c_printf ls; ended := Returns tt;
     final := with_stdout (w_stdout w ++ ls) w |}.
Proof.
  revert w. induction ls as [|l ls IH]; intros w; simpl.
  - now rewrite app_nil_r, with_stdout_same.
  - rewrite IH. simpl. now rewrite <- app_assoc.
Qed.

(** [help] returns after writing to one stream: the usage text to the
    standard output when the status is 0, the hint to the standard error
    otherwise, and nothing when [argv0] is [NULL]. *)
Lemma exec_help (st : Z) (a0 : option string) (w : world) :
  ended (exec E (help st a0) w) = Returns tt /\
  final (exec E (help st a0) w) =
  (if (st =? 0)%Z
   then with_stdout (w_stdout w ++ help_text a0) w
   else with_stderr (w_stderr w ++ help_hint a0) w).
Proof.
  unfold help, help_text, help_hint. destruct a0 as [a|].
  - destruct (st =? 0)%Z; cbn [negb]; [|split; reflexivity].
    rewrite exec_printf_all. split; reflexivity.
  - simpl. rewrite !app_nil_r, with_stdout_same, with_stderr_same.
    now destruct (st =? 0)%Z.
Qed.

Lemma first_stop_cons_proceeds (g : getopt_ret) (gs : list getopt_ret) :
  proceeds (opt g) = true -> first_stop (g :: gs) = first_stop gs.
Proof. intros H. unfold first_stop. simpl. now rewrite H. Qed.

Lemma first_stop_parses (gs : list getopt_ret) (c : ascii) :
  first_stop gs = Some c -> parses gs = false.
Proof.
  induction gs as [|g gs IH]; [discriminate|]. simpl.
  destruct (proceeds (opt g)) eqn:Hg.
  - rewrite first_stop_cons_proceeds by assumption. intros H. simpl. now apply IH.
  - reflexivity.
Qed.

(** The option loop at the option that ends the process: what was
    written, and the status given to [exit]. *)
Lemma parse_stop (a0 : option string) (gs : list getopt_ret) (o : locals) (w : world)
    (c : ascii) :
  first_stop gs = Some c ->
  ended (exec E (parse_options cfg a0 gs o) w)
  = Exits (if Ascii.eqb c "h" || Ascii.eqb c "v" then 0 else -1) /\
  w_stdout (final (exec E (parse_options cfg a0 gs o) w))
  = w_stdout w ++ (if Ascii.eqb c "h" then help_text a0
                   else if Ascii.eqb c "v" then [(VERSION cfg ++ Clish.LF)%string] else []) /\
  w_stderr (final (exec E (parse_options cfg a0 gs o) w))
  = w_stderr w ++ (if Ascii.eqb c "h" || Ascii.eqb c "v" then [] else help_hint a0).
Proof.
  revert o w. induction gs as [|[c' arg] gs IH]; intros o w Hc; [discriminate|].
  assert (Hhelp : forall st z w',
            ended (exec E (run help st a0 in (Exit z : prog locals)) w') = Exits z /\
            final (exec E (run help st a0 in (Exit z : prog locals)) w')
            = final (exec E (help st a0) w')).
  { intros st z w'. rewrite exec_bind.
    destruct (exec_help st a0 w') as [He _]. rewrite He. simpl.
    split; reflexivity. }
  destruct (switch_cases c') as
    [->|[->|[->|[->|[->|[->|[->|[->|[->|[->|[->|[->|[->|Hother]]]]]]]]]]]]];
    try (rewrite first_stop_cons_proceeds in Hc by reflexivity; simpl; now apply IH).
  - rewrite first_stop_cons_proceeds in Hc by reflexivity. simpl.
    destruct (IH o (with_my_hooks (set_script_fn clish_dryrun_callback (w_my_hooks w)) w) Hc)
      as (H1 & H2 & H3).
    split; [exact H1|]. split; [exact H2|exact H3].
  - inversion Hc; subst c. simpl.
    destruct (Hhelp 0 0 w) as [He Hf]. rewrite He, Hf.
    destruct (exec_help 0 a0 w) as [_ Hf']. rewrite Hf'. simpl.
    now rewrite app_nil_r.
  - inversion Hc; subst c. simpl. now rewrite app_nil_r.
  - destruct Hother as (H1&H2&H3&H4&H5&H6&H7&H8&H9&H10&H11&H12&H13).
    unfold first_stop in Hc. simpl in Hc.
    rewrite proceeds_other in Hc by assumption. simpl in Hc.
    inversion Hc; subst c. simpl.
    rewrite H1, H2, H3, H4, H5, H6, H7, H8, H9, H10, H11, H12, H13.
    destruct (Hhelp (-1) (-1) w) as [He Hf]. rewrite He, Hf.
    destruct (exec_help (-1) a0 w) as [_ Hf']. rewrite Hf'. simpl.
    now rewrite app_nil_r.
Qed.

Lemma started_streams (d : signal -> sighandler) :
  w_stdout (started cfg (initial_world d)) = [] /\
  w_stderr (started cfg (initial_world d)) = [] /\
  w_loop (started cfg (initial_world d)) = None /\
  w_closed (started cfg (initial_world d)) = [] /\
  w_null (started cfg (initial_world d)) = [].
Proof. unfold started. now destruct (HAVE_LOCALE_H cfg). Qed.

(** A run whose option loop does not run to its end never touches the
    shell library. *)
Lemma stopped_no_shell_call (d : signal -> sighandler) (cl : cmdline) :
  parses (opts cl) = false ->
  Forall (fun a => shell_call a = false) (trace (clish E cfg d cl)).
Proof.
  intros Hp. destruct (clish_trace_split E cfg d cl) as (rest & Htr & _ & Hnil).
  rewrite Htr, (Hnil Hp), app_nil_r. apply Forall_app. split.
  - eapply Forall_impl; [apply startup_trace_kinds|].
    intros a Ha. destruct a; vm_compute in Ha; try discriminate Ha; reflexivity.
  - eapply Forall_impl; [apply parse_trace_kinds|].
    intros a [->|Ha]; [reflexivity|]. destruct a; try discriminate Ha; reflexivity.
Qed.

(** A run that ends inside the option loop. *)
Lemma clish_stopped (d : signal -> sighandler) (cl : cmdline) (c : ascii) :
  first_stop (opts cl) = Some c ->
  ended (clish E cfg d cl) = Exits (if Ascii.eqb c "h" || Ascii.eqb c "v" then 0 else -1) /\
  w_stdout (final (clish E cfg d cl))
  = (if Ascii.eqb c "h" then help_text (argv0 cl)
     else if Ascii.eqb c "v" then [(VERSION cfg ++ Clish.LF)%string] else []) /\
  w_stderr (final (clish E cfg d cl))
  = (if Ascii.eqb c "h" || Ascii.eqb c "v" then [] else help_hint (argv0 cl)) /\
  w_loop (final (clish E cfg d cl)) = None /\
  Forall (fun a => shell_call a = false) (trace (clish E cfg d cl)).
Proof.
  intros Hc.
  destruct (parse_stop (argv0 cl) (opts cl) (locals0 E cfg) (started cfg (initial_world d))
              c Hc) as (He & Hout & Herr).
  destruct (started_streams d) as (So & Se & Sl & _).
  rewrite So in Hout. rewrite Se in Herr. simpl in Hout, Herr.
  split; [|split; [|split; [|split]]].
  - rewrite clish_unfold. unfold parse_run. now rewrite He.
  - rewrite clish_unfold. unfold parse_run. rewrite He. exact Hout.
  - rewrite clish_unfold. unfold parse_run. rewrite He. exact Herr.
  - rewrite clish_unfold. unfold parse_run. rewrite He. cbn [final].
    rewrite parse_frame by reflexivity. exact Sl.
  - apply stopped_no_shell_call. exact (first_stop_parses _ _ Hc).
Qed.

End Help.

(** X6. The name [help] prints is the part of [argv0] after its last
    slash: it holds no slash, a name without a slash is printed as it is,
    and of [dir/file] the [file] is printed. *)
Theorem basename_spec :
  (forall s, Clish.has_slash (Clish.basename s) = false) /\
  (forall s, Clish.has_slash s = false -> Clish.basename s = s) /\
  (forall d f, Clish.has_slash f = false ->
               Clish.basename (d ++ "/" ++ f)%string = f).
Proof.
  split; [|split].
  - intros s. unfold Clish.basename.
    destruct (Clish.strrchr_slash s) as [r|] eqn:Hs.
    + destruct (strrchr_slash_some s r Hs) as (t & -> & Ht). exact Ht.
    + now apply strrchr_slash_none.
  - intros s Hs. unfold Clish.basename.
    apply strrchr_slash_none in Hs. now rewrite Hs.
  - intros d f Hf. unfold Clish.basename.
    change (d ++ "/" ++ f)%string with (d ++ String "/" f)%string.
    now rewrite (strrchr_slash_app d f Hf).
Qed.

Lemma basename_spec_witness :
  Clish.basename "clish" = "clish"%string /\
  Clish.basename ("/usr/local/bin" ++ "/" ++ "clish")%string = "clish"%string.
Proof.
  split.
  - apply (proj1 (proj2 basename_spec) "clish"%string). reflexivity.
  - apply (proj2 (proj2 basename_spec) "/usr/local/bin"%string "clish"%string). reflexivity.
Defined.

(** X7. Help: when the first option that ends the option loop is [-h],
    whatever options come before or after it, the process exits with
    status 0 after printing the usage text, headed by the base name of
    [argv[0]], on the standard output; nothing goes to the standard error,
    and the shell library is never called. *)
Theorem help_option_exit (E : Clish.env) (cfg : Clish.config)
    (d : Clish.signal -> Clish.sighandler) (cl : Clish.cmdline) :
  Clish.first_stop (Clish.opts cl) = Some "h"%char ->
  Clish.ended (Clish.clish E cfg d cl) = Clish.Exits 0 /\
  Clish.exit_status (Clish.ended (Clish.clish E cfg d cl)) = 0 /\
  Clish.w_stdout (Clish.final (Clish.clish E cfg d cl)) = Clish.help_text (Clish.argv0 cl) /\
  Clish.w_stderr (Clish.final (Clish.clish E cfg d cl)) = [] /\
  Clish.w_loop (Clish.final (Clish.clish E cfg d cl)) = None /\
  Forall (fun a => Clish.shell_call a = false) (Clish.trace (Clish.clish E cfg d cl)).
Proof.
  intros Hc. destruct (clish_stopped E cfg d cl _ Hc) as (He & Ho & Herr & Hl & Hs).
  change (Ascii.eqb "h" "h") with true in He, Ho, Herr.
  cbn [orb] in He, Ho, Herr. rewrite He. repeat split; assumption.
Qed.

Lemma help_option_exit_witness :
  Clish.ended (Clish.clish Clish.sample_env Clish.sample_config Clish.default_signals
                 Clish.cl_help) = Clish.Exits 0 /\
  Clish.w_stdout (Clish.final (Clish.clish Clish.sample_env Clish.sample_config
                                 Clish.default_signals Clish.cl_help))
  = Clish.usage "clish".
Proof.
  destruct (help_option_exit Clish.sample_env Clish.sample_config Clish.default_signals
              Clish.cl_help eq_refl) as (He & _ & Ho & _).
  split; [exact He|exact Ho].
Defined.

(** X8. Version: when the first option that ends the option loop is
    [-v], the process exits with status 0 after printing the version and a
    newline on the standard output; nothing goes to the standard error, and
    the shell library is never called. *)
Theorem version_option_exit (E : Clish.env) (cfg : Clish.config)
    (d : Clish.signal -> Clish.sighandler) (cl : Clish.cmdline) :
  Clish.first_stop (Clish.opts cl) = Some "v"%char ->
  Clish.ended (Clish.clish E cfg d cl) = Clish.Exits 0 /\
  Clish.exit_status (Clish.ended (Clish.clish E cfg d cl)) = 0 /\
  Clish.w_stdout (Clish.final (Clish.clish E cfg d cl))
  = [(Clish.VERSION cfg ++ Clish.LF)%string] /\
  Clish.w_stderr (Clish.final (Clish.clish E cfg d cl)) = [] /\
  Clish.w_loop (Clish.final (Clish.clish E cfg d cl)) = None /\
  Forall (fun a => Clish.shell_call a = false) (Clish.trace (Clish.clish E cfg d cl)).
Proof.
  intros Hc. destruct (clish_stopped E cfg d cl _ Hc) as (He & Ho & Herr & Hl & Hs).
  change (Ascii.eqb "v" "h") with false in He, Ho, Herr.
  change (Ascii.eqb "v" "v") with true in He, Ho, Herr.
  cbn [orb] in He, Ho, Herr. rewrite He. repeat split; assumption.
Qed.

Lemma version_option_exit_witness :
  Clish.ended (Clish.clish Clish.sample_env Clish.sample_config Clish.default_signals
                 Clish.cl_version) = Clish.Exits 0 /\
  Clish.w_stdout (Clish.final (Clish.clish Clish.sample_env Clish.sample_config
                                 Clish.default_signals Clish.cl_version))
  = [("1.2.2" ++ Clish.LF)%string].
Proof.
  destruct (version_option_exit Clish.sample_env Clish.sample_config Clish.default_signals
              Clish.cl_version eq_refl) as (He & _ & Ho & _).
  split; [exact He|exact Ho].
Defined.

(** X9. Unrecognised option: when the option loop meets a value that is
    none of its cases before any [-h] or [-v], the process exits with
    [exit(-1)], status 255, after writing the one-line hint with the base
    name of [argv[0]] to the standard error; nothing goes to the standard
    output, and the shell library is never called. *)
Theorem unknown_option_exit (E : Clish.env) (cfg : Clish.config)
    (d : Clish.signal -> Clish.sighandler) (cl : Clish.cmdline) (c : ascii) :
  Clish.first_stop (Clish.opts cl) = Some c ->
  Ascii.eqb c "h" = false -> Ascii.eqb c "v" = false ->
  Clish.ended (Clish.clish E cfg d cl) = Clish.Exits (-1) /\
  Clish.exit_status (Clish.ended (Clish.clish E cfg d cl)) = 255 /\
  Clish.w_stdout (Clish.final (Clish.clish E cfg d cl)) = [] /\
  Clish.w_stderr (Clish.final (Clish.clish E cfg d cl)) = Clish.help_hint (Clish.argv0 cl) /\
  Clish.w_loop (Clish.final (Clish.clish E cfg d cl)) = None /\
  Forall (fun a => Clish.shell_call a = false) (Clish.trace (Clish.clish E cfg d cl)).
Proof.
  intros Hc Hh Hv. destruct (clish_stopped E cfg d cl _ Hc) as (He & Ho & Herr & Hl & Hs).
  rewrite Hh, Hv in He, Ho, Herr. cbn [orb] in He, Ho, Herr. rewrite He.
  repeat split; assumption.
Qed.

Lemma unknown_option_exit_witness :
  Clish.exit_status (Clish.ended (Clish.clish Clish.sample_env Clish.sample_config
                                    Clish.default_signals Clish.cl_unknown)) = 255 /\
  Clish.w_stderr (Clish.final (Clish.clish Clish.sample_env Clish.sample_config
                                 Clish.default_signals Clish.cl_unknown))
  = [("Try `clish -h' for more information." ++ Clish.LF)%string].
Proof.
  destruct (unknown_option_exit Clish.sample_env Clish.sample_config Clish.default_signals
              Clish.cl_unknown "?"%char eq_refl eq_refl eq_refl) as (_ & He & _ & Ho & _).
  split; [exact He|exact Ho].
Defined.

(** ** The client: runs whose option loop runs to its end *)

Section Parsed.
Import Clish.
Local Open Scope list_scope.
Variable E : env.
Variable cfg : config.

Lemma with_my_hooks_same (w : world) : with_my_hooks (w_my_hooks w) w = w.
Proof. now destruct w. Qed.

Lemma settled_nil (o : locals) : settled [] o = o.
Proof.
  unfold settled. simpl. rewrite !orb_false_r, andb_true_r. now destruct o.
Qed.

Ltac settled_fields :=
  unfold settled; simpl;
  repeat match goal with
         | |- context [last_arg ?c ?gs] => destruct (last_arg c gs)
         end;
  simpl; rewrite ?orb_true_r, ?andb_false_r; reflexivity.

Ltac settle_case IH Hp o' w' :=
  let He := fresh "He" in
  let Hf := fresh "Hf" in
  destruct (IH o' w' Hp) as [He Hf]; split;
  [ etransitivity; [exact He|]; f_equal; settled_fields
  | etransitivity; [exact Hf|]; reflexivity ].

(** An option loop that runs to its end returns the settled locals and
    changes the script hook only. *)
Lemma parse_settled (a0 : option string) (gs : list getopt_ret) (o : locals) (w : world) :
  parses gs = true ->
  ended (exec E (parse_options cfg a0 gs o) w) = Returns (settled gs o) /\
  final (exec E (parse_options cfg a0 gs o) w)
  = with_my_hooks (if given "d" gs
                   then set_script_fn clish_dryrun_callback (w_my_hooks w)
                   else w_my_hooks w) w.
Proof.
  revert o w. induction gs as [|[c arg] gs IH]; intros o w Hp.
  - simpl. now rewrite settled_nil, with_my_hooks_same.
  - simpl in Hp. apply andb_true_iff in Hp as [Hc Hp].
    destruct (switch_cases c) as
      [->|[->|[->|[->|[->|[->|[->|[->|[->|[->|[->|[->|[->|Hother]]]]]]]]]]]]];
      try discriminate Hc.
    + settle_case IH Hp (set_socket_path arg o) w.
    + settle_case IH Hp (set_lockless true o) w.
    + settle_case IH Hp (set_stop_on_error true o) w.
    + settle_case IH Hp (set_interactive false o) w.
    + settle_case IH Hp (set_quiet true o) w.
    + settle_case IH Hp (set_utf8 true o) w.
    + settle_case IH Hp (set_bit8 true o) w.
    + destruct (IH o (with_my_hooks (set_script_fn clish_dryrun_callback (w_my_hooks w)) w)
                  Hp) as [He Hf].
      split.
      * etransitivity; [exact He|]. f_equal. settled_fields.
      * etransitivity; [exact Hf|]. simpl. now destruct (given "d" gs).
    + settle_case IH Hp (set_xml_path (Some arg) o) w.
    + settle_case IH Hp (set_view (Some arg) o) w.
    + settle_case IH Hp (set_viewid (Some arg) o) w.
    + destruct Hother as (H1&H2&H3&H4&H5&H6&H7&H8&H9&H10&H11&H12&H13).
      rewrite proceeds_other in Hc by assumption. discriminate.
Qed.

Lemma started_hooks (d : signal -> sighandler) :
  w_my_hooks (started cfg (initial_world d)) = my_hooks.
Proof. unfold started. now destruct (HAVE_LOCALE_H cfg). Qed.

Lemma parse_run_parsed (d : signal -> sighandler) (cl : cmdline) :
  parses (opts cl) = true ->
  ended (parse_run E cfg d cl) = Returns (settled (opts cl) (locals0 E cfg)) /\
  final (parse_run E cfg d cl) = parsed_world cfg d (opts cl).
Proof.
  intros Hp. unfold parse_run, parsed_world, hooks_of.
  destruct (parse_settled (argv0 cl) (opts cl) (locals0 E cfg)
              (started cfg (initial_world d)) Hp) as [He Hf].
  split; [exact He|]. rewrite Hf, started_hooks. reflexivity.
Qed.

Lemma parsed_world_fields (d : signal -> sighandler) (gs : list getopt_ret) :
  w_my_hooks (parsed_world cfg d gs) = hooks_of gs /\
  w_shell (parsed_world cfg d gs) = None /\
  w_stdout (parsed_world cfg d gs) = [] /\
  w_stderr (parsed_world cfg d gs) = [] /\
  w_null (parsed_world cfg d gs) = [] /\
  w_closed (parsed_world cfg d gs) = [] /\
  w_loop (parsed_world cfg d gs) = None.
Proof. unfold parsed_world, started. now destruct (HAVE_LOCALE_H cfg). Qed.

(** A run whose option loop runs to its end. *)
Lemma clish_parsed (d : signal -> sighandler) (cl : cmdline) :
  parses (opts cl) = true ->
  clish E cfg d cl =
  {| trace := startup_trace cfg ++ trace (parse_run E cfg d cl)
              ++ trace (exec E (run_shell cfg cl (settled (opts cl) (locals0 E cfg)))
                          (parsed_world cfg d (opts cl)));
     ended := ended (exec E (run_shell cfg cl (settled (opts cl) (locals0 E cfg)))
                       (parsed_world cfg d (opts cl)));
     final := final (exec E (run_shell cfg cl (settled (opts cl) (locals0 E cfg)))
                       (parsed_world cfg d (opts cl))) |}.
Proof.
  intros Hp. rewrite clish_unfold.
  destruct (parse_run_parsed d cl Hp) as [He Hf]. now rewrite He, Hf.
Qed.

Lemma parses_first_stop (gs : list getopt_ret) :
  parses gs = false -> exists c, first_stop gs = Some c.
Proof.
  induction gs as [|g gs IH]; [discriminate|]. simpl.
  destruct (proceeds (opt g)) eqn:Hg; simpl.
  - intros H. destruct (IH H) as [c Hc]. exists c.
    now rewrite first_stop_cons_proceeds.
  - intros _. exists (opt g). unfold first_stop. simpl. now rewrite Hg.
Qed.

(** The calls on the shell *)

Lemma shell_calls_app (t1 t2 : list action) :
  shell_calls (t1 ++ t2) = shell_calls t1 ++ shell_calls t2.
Proof. apply filter_app. Qed.

Lemma shell_calls_none (tr : list action) :
  Forall (fun a => shell_call a = false) tr -> shell_calls tr = [].
Proof.
  induction 1 as [|a tr Ha _ IH]; [reflexivity|].
  unfold shell_calls. rewrite filter_cons_False by congruence. exact IH.
Qed.

Lemma shell_calls_all (tr : list action) :
  Forall (fun a => shell_call a = true) tr -> shell_calls tr = tr.
Proof.
  induction 1 as [|a tr Ha _ IH]; [reflexivity|].
  unfold shell_calls. rewrite filter_cons_True by assumption. f_equal. exact IH.
Qed.

Lemma shell_calls_prefix (d : signal -> sighandler) (cl : cmdline) :
  shell_calls (startup_trace cfg ++ trace (parse_run E cfg d cl)) = [].
Proof.
  apply shell_calls_none, Forall_app. split.
  - eapply Forall_impl; [apply startup_trace_kinds|].
    intros a Ha. destruct a; vm_compute in Ha; try discriminate Ha; reflexivity.
  - eapply Forall_impl; [apply parse_trace_kinds|].
    intros a [->|Ha]; [reflexivity|]. destruct a; try discriminate Ha; reflexivity.
Qed.

(** The calls on the shell in the configuration block are the settings. *)
Lemma shell_calls_configure (o : locals) :
  shell_calls (configure_trace E cfg o)
  = filter (fun a => is_setting a = true) (configure_trace E cfg o).
Proof.
  pose proof (configure_trace_kinds E cfg o) as Hall.
  induction Hall as [|a tr Ha _ IH]; [reflexivity|].
  unfold shell_calls in *.
  destruct a; vm_compute in Ha; try discriminate Ha;
    first [ rewrite !filter_cons_True by reflexivity; f_equal; exact IH
          | rewrite !filter_cons_False by discriminate; exact IH ].
Qed.

Lemma settings_kind (o : locals) :
  Forall (fun a => kind_of a = KSetting)
    (filter (fun a => is_setting a = true) (configure_trace E cfg o)).
Proof.
  apply Forall_forall. intros a Ha. apply list_elem_of_filter in Ha as [Ha _].
  unfold is_setting in Ha. now apply bool_decide_eq_true in Ha.
Qed.

Lemma shell_calls_push (cl : cmdline) (soe : bool) :
  shell_calls (push_trace cl soe) =
  match files cl with
  | [] => [c_clish_shell_push_fd stdin_dup soe]
  | _ :: _ => map (fun f => c_clish_shell_push_file f soe) (rev (files cl))
  end.
Proof.
  unfold push_trace. destruct (files cl) as [|f fs]; [reflexivity|].
  apply shell_calls_all. apply Forall_forall. intros a Ha.
  apply list_elem_of_fmap in Ha as (x & -> & _). reflexivity.
Qed.

Lemma shell_calls_push_kind (cl : cmdline) (soe : bool) :
  Forall (fun a => kind_of a = KPush) (shell_calls (push_trace cl soe)) /\
  (0 < length (shell_calls (push_trace cl soe)))%nat.
Proof.
  rewrite shell_calls_push. destruct (files cl) as [|f fs].
  - split; [repeat constructor|simpl; lia].
  - split.
    + apply Forall_forall. intros a Ha.
      apply list_elem_of_fmap in Ha as (x & -> & _). reflexivity.
    + rewrite length_map, length_rev. simpl. lia.
Qed.

Lemma shell_calls_open (o : locals) :
  shell_calls (if quiet o then [c_fopen_dev_null] else []) = [].
Proof. destruct (quiet o); reflexivity. Qed.

Lemma shell_calls_close (o : locals) :
  shell_calls (if quiet o then [c_fclose dev_null] else []) = [].
Proof. destruct (quiet o); reflexivity. Qed.

(** The calls on the shell after the option loop, branch by branch. *)
Lemma shell_calls_run_shell (cl : cmdline) (o : locals) (w : world) :
  shell_calls (trace (exec E (run_shell cfg cl o) w)) =
  if utf8 o && bit8 o then []
  else if negb (shell_new_ok E) then [c_clish_shell_new (outfd_of o) (stop_on_error o)]
  else if negb (shell_startup E (configured_core E cfg o) (w_my_hooks w)) then
    c_clish_shell_new (outfd_of o) (stop_on_error o)
    :: filter (fun a => is_setting a = true) (configure_trace E cfg o)
    ++ [c_clish_shell_startup; c_clish_shell_delete]
  else
    c_clish_shell_new (outfd_of o) (stop_on_error o)
    :: filter (fun a => is_setting a = true) (configure_trace E cfg o)
    ++ c_clish_shell_startup
    :: shell_calls (push_trace cl (stop_on_error o))
    ++ [c_clish_shell_loop; c_clish_shell_delete].
Proof.
  assert (Hone : forall a, shell_call a = true -> shell_calls [a] = [a]).
  { intros a Ha. apply shell_calls_all. now repeat constructor. }
  rewrite exec_run_shell.
  destruct (utf8 o && bit8 o); [reflexivity|]. cbv zeta.
  destruct (shell_new_ok E); cbn [negb].
  2:{ cbn [trace]. rewrite !shell_calls_app, shell_calls_open.
      rewrite Hone by reflexivity. reflexivity. }
  destruct (shell_startup E (configured_core E cfg o) (w_my_hooks w)); cbn [negb trace].
  - rewrite !shell_calls_app, shell_calls_open, shell_calls_configure, shell_calls_close.
    rewrite !Hone by reflexivity.
    rewrite (shell_calls_all [c_clish_shell_loop; c_clish_shell_delete])
      by now repeat constructor.
    rewrite app_nil_r. cbn [app]. rewrite <- !app_assoc. reflexivity.
  - rewrite !shell_calls_app, shell_calls_open, shell_calls_configure.
    rewrite !Hone by reflexivity.
    change (shell_calls [c_fprintf_stderr ("Cannot startup clish." ++ Clish.LF)%string; c_clish_shell_delete])
      with [c_clish_shell_delete].
    cbn [app]. rewrite <- !app_assoc. reflexivity.
Qed.

(** What [main] writes and closes after the option loop, and what is left
    of the shell, branch by branch. *)
Lemma run_shell_final (cl : cmdline) (o : locals) (w : world) :
  w_shell (final (exec E (run_shell cfg cl o) w))
  = (if utf8 o && bit8 o then w_shell w
     else if negb (shell_new_ok E) then w_shell w else None) /\
  w_stderr (final (exec E (run_shell cfg cl o) w))
  = w_stderr w ++
    (if utf8 o && bit8 o then [("The -u and -8 options can't be used together." ++ Clish.LF)%string]
     else if negb (shell_new_ok E) then [("Cannot run clish." ++ Clish.LF)%string]
     else if negb (shell_startup E (configured_core E cfg o) (w_my_hooks w))
     then [("Cannot startup clish." ++ Clish.LF)%string] else []) /\
  w_closed (final (exec E (run_shell cfg cl o) w))
  = w_closed w ++
    (if utf8 o && bit8 o then []
     else if negb (shell_new_ok E) then []
     else if negb (shell_startup E (configured_core E cfg o) (w_my_hooks w)) then []
     else if quiet o then [dev_null] else []) /\
  w_stdout (final (exec E (run_shell cfg cl o) w))
  = w_stdout w ++
    (if utf8 o && bit8 o then []
     else if negb (shell_new_ok E) then []
     else if negb (shell_startup E (configured_core E cfg o) (w_my_hooks w)) then []
     else if quiet o then []
     else (shell_loop E (loaded_core E cfg cl o) (w_my_hooks w)).2) /\
  ended (exec E (run_shell cfg cl o) w)
  = (if utf8 o && bit8 o then Returns (-1)
     else if negb (shell_new_ok E) then Returns (-1)
     else if negb (shell_startup E (configured_core E cfg o) (w_my_hooks w))
     then Returns (-1)
     else if quiet o && negb (fopen_ok E) then Crashes
     else Returns (if truthy (shell_loop E (loaded_core E cfg cl o) (w_my_hooks w)).1
                   then 0 else -1))%Z /\
  (utf8 o && bit8 o = false -> shell_new_ok E = true ->
   shell_startup E (configured_core E cfg o) (w_my_hooks w) = true ->
   c_clish_shell_loop ∈ trace (exec E (run_shell cfg cl o) w)).
Proof.
  rewrite exec_run_shell.
  destruct (utf8 o && bit8 o);
    [rewrite !app_nil_r; repeat split; try reflexivity; discriminate|]. cbv zeta.
  destruct (shell_new_ok E); cbn [negb];
    [|rewrite !app_nil_r; repeat split; try reflexivity; discriminate].
  destruct (shell_startup E (configured_core E cfg o) (w_my_hooks w)); cbn [negb];
    [|rewrite !app_nil_r; repeat split; try reflexivity; discriminate].
  cbn [final trace ended].
  split; [|split; [|split; [|split; [|split]]]].
  - unfold outfd_of. destruct (quiet o); reflexivity.
  - unfold outfd_of. destruct (quiet o); cbn; now rewrite app_nil_r.
  - unfold outfd_of. destruct (quiet o); cbn; now rewrite ?app_nil_r.
  - unfold outfd_of. destruct (quiet o); cbn; now rewrite ?app_nil_r.
  - reflexivity.
  - intros _ _ _. rewrite !elem_of_app. right. right. left. constructor.
Qed.

Lemma stopped_final (d : signal -> sighandler) (cl : cmdline) :
  parses (opts cl) = false ->
  final (clish E cfg d cl) = final (parse_run E cfg d cl).
Proof.
  intros Hp. rewrite clish_unfold.
  destruct (parse_exits E cfg (argv0 cl) (opts cl) (locals0 E cfg)
              (started cfg (initial_world d)) Hp) as (z & Hz & _).
  unfold parse_run. now rewrite Hz.
Qed.

(** The calls on the shell in a run whose option loop runs to its end. *)
Lemma shell_calls_parsed (d : signal -> sighandler) (cl : cmdline) :
  parses (opts cl) = true ->
  shell_calls (trace (clish E cfg d cl))
  = shell_calls (trace (exec E (run_shell cfg cl (settled (opts cl) (locals0 E cfg)))
                          (parsed_world cfg d (opts cl)))).
Proof.
  intros Hp. rewrite (clish_parsed d cl Hp). cbn [trace].
  now rewrite app_assoc, shell_calls_app, shell_calls_prefix.
Qed.

Lemma loop_in_parsed (d : signal -> sighandler) (cl : cmdline) :
  parses (opts cl) = true ->
  c_clish_shell_loop ∈ trace (exec E (run_shell cfg cl (settled (opts cl) (locals0 E cfg)))
                                (parsed_world cfg d (opts cl))) ->
  c_clish_shell_loop ∈ trace (clish E cfg d cl).
Proof.
  intros Hp Hin. rewrite (clish_parsed d cl Hp). cbn [trace].
  rewrite !elem_of_app. auto.
Qed.

Lemma open_in_run_shell (cl : cmdline) (o : locals) (w : world) :
  utf8 o && bit8 o = false -> quiet o = true ->
  c_fopen_dev_null ∈ trace (exec E (run_shell cfg cl o) w).
Proof.
  intros Hbad Hq. rewrite exec_run_shell, Hbad, Hq. cbv zeta.
  destruct (negb (shell_new_ok E)); [|destruct (negb (shell_startup E _ _))];
    cbn [trace]; rewrite !elem_of_app; repeat left.
Qed.

End Parsed.

(** ** The client: the life of the shell and the reports of [main] *)

Section Reports.
Import Clish.
Local Open Scope list_scope.

Lemma final_parsed (E : env) (cfg : config) (d : signal -> sighandler) (cl : cmdline) :
  parses (opts cl) = true ->
  final (clish E cfg d cl)
  = final (exec E (run_shell cfg cl (settled (opts cl) (locals0 E cfg)))
             (parsed_world cfg d (opts cl))) /\
  ended (clish E cfg d cl)
  = ended (exec E (run_shell cfg cl (settled (opts cl) (locals0 E cfg)))
             (parsed_world cfg d (opts cl))).
Proof. intros Hp. now rewrite (clish_parsed E cfg d cl Hp). Qed.

(** What a run whose option loop runs to its end comes to: the calls on
    the shell, the streams, and the value [main] returns, in terms of the
    command line. *)
Lemma parsed_outcome (E : env) (cfg : config) (d : signal -> sighandler) (cl : cmdline) :
  parses (opts cl) = true ->
  let o := settled (opts cl) (locals0 E cfg) in
  let bad := given "u" (opts cl) && given "8" (opts cl) in
  let started := shell_startup E (configured_core E cfg o) (hooks_of (opts cl)) in
  let res := shell_loop E (loaded_core E cfg cl o) (hooks_of (opts cl)) in
  let new := c_clish_shell_new (if given "q" (opts cl) then dev_null else stdout)
               (given "e" (opts cl)) in
  shell_calls (trace (clish E cfg d cl))
  = (if bad then []
     else if negb (shell_new_ok E) then [new]
     else if negb started then
       new :: sh_settings (configured_core E cfg o)
       ++ [c_clish_shell_startup; c_clish_shell_delete]
     else
       new :: sh_settings (configured_core E cfg o)
       ++ c_clish_shell_startup
       :: shell_calls (push_trace cl (given "e" (opts cl)))
       ++ [c_clish_shell_loop; c_clish_shell_delete]) /\
  w_shell (final (clish E cfg d cl)) = None /\
  w_stderr (final (clish E cfg d cl))
  = (if bad then [("The -u and -8 options can't be used together." ++ Clish.LF)%string]
     else if negb (shell_new_ok E) then [("Cannot run clish." ++ Clish.LF)%string]
     else if negb started then [("Cannot startup clish." ++ Clish.LF)%string] else []) /\
  w_closed (final (clish E cfg d cl))
  = (if bad then []
     else if negb (shell_new_ok E) then []
     else if negb started then []
     else if given "q" (opts cl) then [dev_null] else []) /\
  w_stdout (final (clish E cfg d cl))
  = (if bad then []
     else if negb (shell_new_ok E) then []
     else if negb started then []
     else if given "q" (opts cl) then [] else res.2) /\
  ended (clish E cfg d cl)
  = (if bad then Returns (-1)
     else if negb (shell_new_ok E) then Returns (-1)
     else if negb started then Returns (-1)
     else if given "q" (opts cl) && negb (fopen_ok E) then Crashes
     else Returns (if truthy res.1 then 0 else -1))%Z /\
  (bad = false -> shell_new_ok E = true -> started = true ->
   c_clish_shell_loop ∈ trace (clish E cfg d cl)).
Proof.
  intros Hp o bad started res new.
  destruct (final_parsed E cfg d cl Hp) as [Hf He].
  destruct (parsed_world_fields cfg d (opts cl)) as (Hhk & Hsh & Hout & Herr & _ & Hcl & _).
  destruct (run_shell_final E cfg cl o (parsed_world cfg d (opts cl)))
    as (F1 & F2 & F3 & F4 & F5 & F6).
  rewrite Hhk in F2, F3, F4, F5, F6. rewrite Hsh in F1. rewrite Herr in F2.
  rewrite Hcl in F3. rewrite Hout in F4.
  fold o in Hf, He. rewrite Hf, He.
  split; [|split; [|split; [|split; [|split; [|split]]]]].
  - rewrite (shell_calls_parsed E cfg d cl Hp). fold o.
    rewrite shell_calls_run_shell, Hhk. reflexivity.
  - rewrite F1. change (utf8 o && bit8 o) with bad.
    now destruct bad, (shell_new_ok E).
  - exact F2.
  - exact F3.
  - exact F4.
  - exact F5.
  - intros H1 H2 H3. apply (loop_in_parsed E cfg d cl Hp). fold o. now apply F6.
Qed.

(** X10. The life of the shell: in every run the calls on the shell
    library follow one order.  Either there is none, or creation fails and
    nothing follows, or the shell is created, then configured, then
    started, and then either destroyed at once (start-up failed) or fed at
    least one input source, run and destroyed.  Nothing is called after
    [clish_shell_delete], and no run leaves a shell behind. *)
Theorem shell_protocol (E : env) (cfg : config) (d : signal -> sighandler) (cl : cmdline) :
  w_shell (final (clish E cfg d cl)) = None /\
  (shell_calls (trace (clish E cfg d cl)) = [] \/
   (shell_new_ok E = false /\
    exists f soe, shell_calls (trace (clish E cfg d cl)) = [c_clish_shell_new f soe]) \/
   (shell_new_ok E = true /\
    exists f soe sts,
      Forall (fun a => kind_of a = KSetting) sts /\
      shell_calls (trace (clish E cfg d cl))
      = c_clish_shell_new f soe :: sts ++ [c_clish_shell_startup; c_clish_shell_delete]) \/
   (shell_new_ok E = true /\
    exists f soe sts ps,
      Forall (fun a => kind_of a = KSetting) sts /\
      Forall (fun a => kind_of a = KPush) ps /\ (0 < length ps)%nat /\
      shell_calls (trace (clish E cfg d cl))
      = c_clish_shell_new f soe :: sts ++ c_clish_shell_startup :: ps
        ++ [c_clish_shell_loop; c_clish_shell_delete])).
Proof.
  destruct (parses (opts cl)) eqn:Hp.
  - destruct (parsed_outcome E cfg d cl Hp) as (Hc & Hsh & _). cbv zeta in Hc.
    split; [exact Hsh|]. rewrite Hc.
    destruct (given "u" (opts cl) && given "8" (opts cl)); [now left|].
    destruct (shell_new_ok E); cbn [negb]; [|right; left; eauto].
    destruct (shell_startup E _ _); cbn [negb].
    + right. right. right. split; [reflexivity|].
      destruct (shell_calls_push_kind cl (given "e" (opts cl))) as [H1 H2].
      eexists _, _, _, _. split; [apply settings_kind|].
      split; [exact H1|]. split; [exact H2|reflexivity].
    + right. right. left. split; [reflexivity|].
      eexists _, _, _. split; [apply settings_kind|reflexivity].
  - split.
    + rewrite (stopped_final E cfg d cl Hp). apply parse_run_shell.
    + left. apply shell_calls_none, stopped_no_shell_call, Hp.
Qed.

(** X11. When the shell cannot be created, [main] returns -1 (status
    255) after writing [Cannot run clish.] to the standard error; the one
    call on the shell library is the failed [clish_shell_new], given the
    stream and the stop-on-error flag of the command line. *)
Theorem cannot_run_report (E : env) (cfg : config) (d : signal -> sighandler)
    (cl : cmdline) :
  parses (opts cl) = true ->
  given "u" (opts cl) && given "8" (opts cl) = false ->
  shell_new_ok E = false ->
  ended (clish E cfg d cl) = Returns (-1) /\
  exit_status (ended (clish E cfg d cl)) = 255 /\
  w_stderr (final (clish E cfg d cl)) = [("Cannot run clish." ++ Clish.LF)%string] /\
  w_stdout (final (clish E cfg d cl)) = [] /\
  shell_calls (trace (clish E cfg d cl))
  = [c_clish_shell_new (if given "q" (opts cl) then dev_null else stdout)
       (given "e" (opts cl))].
Proof.
  intros Hp Hbad Hnew.
  destruct (parsed_outcome E cfg d cl Hp) as (Hc & _ & Herr & _ & Hout & He & _).
  cbv zeta in Hc, Herr, Hout, He.
  rewrite Hbad, Hnew in Hc, Herr, Hout, He. cbn [negb] in Hc, Herr, Hout, He.
  rewrite He. repeat split; assumption.
Qed.

Lemma cannot_run_report_witness :
  exit_status (ended (clish env_no_shell sample_config default_signals cl_quiet)) = 255 /\
  w_stderr (final (clish env_no_shell sample_config default_signals cl_quiet))
  = [("Cannot run clish." ++ Clish.LF)%string] /\
  shell_calls (trace (clish env_no_shell sample_config default_signals cl_quiet))
  = [c_clish_shell_new dev_null false].
Proof.
  destruct (cannot_run_report env_no_shell sample_config default_signals cl_quiet
              eq_refl eq_refl eq_refl) as (_ & H1 & H2 & _ & H3).
  split; [exact H1|]. split; [exact H2|exact H3].
Defined.

(** X12. When the shell does not start, [main] returns -1 (status 255)
    after writing [Cannot startup clish.] to the standard error and
    destroying the shell: the shell was created and configured, no input
    source is pushed and the dispatch loop is not entered. *)
Theorem cannot_startup_report (E : env) (cfg : config) (d : signal -> sighandler)
    (cl : cmdline) :
  parses (opts cl) = true ->
  given "u" (opts cl) && given "8" (opts cl) = false ->
  shell_new_ok E = true ->
  shell_startup E (configured_core E cfg (settled (opts cl) (locals0 E cfg)))
    (hooks_of (opts cl)) = false ->
  ended (clish E cfg d cl) = Returns (-1) /\
  exit_status (ended (clish E cfg d cl)) = 255 /\
  w_stderr (final (clish E cfg d cl)) = [("Cannot startup clish." ++ Clish.LF)%string] /\
  w_stdout (final (clish E cfg d cl)) = [] /\
  shell_calls (trace (clish E cfg d cl))
  = c_clish_shell_new (if given "q" (opts cl) then dev_null else stdout)
      (given "e" (opts cl))
    :: sh_settings (configured_core E cfg (settled (opts cl) (locals0 E cfg)))
    ++ [c_clish_shell_startup; c_clish_shell_delete] /\
  w_shell (final (clish E cfg d cl)) = None.
Proof.
  intros Hp Hbad Hnew Hst.
  destruct (parsed_outcome E cfg d cl Hp) as (Hc & Hsh & Herr & _ & Hout & He & _).
  cbv zeta in Hc, Herr, Hout, He.
  rewrite Hbad, Hnew, Hst in Hc, Herr, Hout, He. cbn [negb] in Hc, Herr, Hout, He.
  rewrite He. repeat split; assumption.
Qed.

Lemma cannot_startup_report_witness :
  exit_status (ended (clish env_no_startup sample_config default_signals cl_files)) = 255 /\
  w_stderr (final (clish env_no_startup sample_config default_signals cl_files))
  = [("Cannot startup clish." ++ Clish.LF)%string] /\
  shell_calls (trace (clish env_no_startup sample_config default_signals cl_files))
  = [c_clish_shell_new stdout false; c_clish_shell_load_scheme None;
     c_clish_shell__set_socket "/tmp/.konfd.socket"; c_clish_shell__set_utf8 true;
     c_clish_shell_startup; c_clish_shell_delete].
Proof.
  destruct (cannot_startup_report env_no_startup sample_config default_signals cl_files
              eq_refl eq_refl eq_refl eq_refl) as (_ & H1 & H2 & _ & H3 & _).
  split; [exact H1|]. split; [exact H2|exact H3].
Defined.

(** X13. Status and standard error: a run ends with status 0 or 255,
    unless the process is killed in [fclose], which happens only to a
    quiet run that [fopen] had handed [NULL]; [main] and [help] write at
    most one line to the standard error in a run, and none in a run that
    ends with status 0. *)
Theorem stderr_means_failure (E : env) (cfg : config) (d : signal -> sighandler)
    (cl : cmdline) :
  ((ended (clish E cfg d cl) = Crashes /\
    given "q" (opts cl) = true /\ fopen_ok E = false) \/
   exit_status (ended (clish E cfg d cl)) = 0 \/
   exit_status (ended (clish E cfg d cl)) = 255) /\
  (length (w_stderr (final (clish E cfg d cl))) <= 1)%nat /\
  (exit_status (ended (clish E cfg d cl)) = 0 -> w_stderr (final (clish E cfg d cl)) = []).
Proof.
  destruct (parses (opts cl)) eqn:Hp.
  - destruct (parsed_outcome E cfg d cl Hp) as (_ & _ & Herr & _ & _ & He & _).
    cbv zeta in Herr, He. rewrite He, Herr.
    destruct (given "u" (opts cl) && given "8" (opts cl));
      [split; [now right; right|]; split; [simpl; lia|discriminate]|].
    destruct (negb (shell_new_ok E));
      [split; [now right; right|]; split; [simpl; lia|discriminate]|].
    destruct (negb (shell_startup E _ _));
      [split; [now right; right|]; split; [simpl; lia|discriminate]|].
    destruct (given "q" (opts cl)), (fopen_ok E); cbn [andb negb];
      try (split; [left; auto|]; split; [simpl; lia|discriminate]);
      destruct (truthy _); (split; [auto|]); (split; [simpl; lia|reflexivity]).
  - destruct (parses_first_stop _ Hp) as [c Hc].
    destruct (clish_stopped E cfg d cl c Hc) as (He & _ & Herr & _).
    rewrite He, Herr.
    destruct (Ascii.eqb c "h" || Ascii.eqb c "v");
      [split; [now right; left|]; split; [simpl; lia|reflexivity]|].
    split; [now right; right|]. split; [|discriminate].
    unfold help_hint. destruct (argv0 cl); simpl; lia.
Qed.

(** X14. The stream opened on [/dev/null]: [main] closes it exactly in
    the runs that come back from the dispatch loop in quiet mode, once,
    and it closes no other stream; a run that does not get to the dispatch
    loop closes nothing. *)
Theorem dev_null_closed_after_loop (E : env) (cfg : config) (d : signal -> sighandler)
    (cl : cmdline) :
  (c_clish_shell_loop ∈ trace (clish E cfg d cl) ->
   w_closed (final (clish E cfg d cl))
   = if given "q" (opts cl) then [dev_null] else []) /\
  (c_clish_shell_loop ∉ trace (clish E cfg d cl) ->
   w_closed (final (clish E cfg d cl)) = []).
Proof.
  destruct (parses (opts cl)) eqn:Hp.
  - destruct (parsed_outcome E cfg d cl Hp) as (Hc & _ & _ & Hcl & _ & _ & Hin).
    cbv zeta in Hc, Hcl, Hin. rewrite Hcl.
    assert (Hcalls : c_clish_shell_loop ∈ trace (clish E cfg d cl) ->
                     c_clish_shell_loop ∈ shell_calls (trace (clish E cfg d cl))).
    { intros H. apply list_elem_of_filter. split; [reflexivity|exact H]. }
    rewrite Hc in Hcalls.
    destruct (given "u" (opts cl) && given "8" (opts cl)).
    { split; [|reflexivity]. intros H. apply Hcalls in H. inversion H. }
    destruct (shell_new_ok E); cbn [negb] in *.
    2:{ split; [|reflexivity]. intros H. apply Hcalls in H.
        apply list_elem_of_singleton in H. discriminate. }
    destruct (shell_startup E _ _); cbn [negb] in *.
    + split; [reflexivity|]. intros Hn. elim Hn. now apply Hin.
    + split; [|reflexivity]. intros H. apply Hcalls in H.
      apply elem_of_cons in H as [H|H]; [discriminate|].
      apply elem_of_app in H as [H|H].
      * pose proof (settings_kind E cfg (settled (opts cl) (locals0 E cfg))) as Hk.
        rewrite Forall_forall in Hk. specialize (Hk _ H). discriminate.
      * apply elem_of_cons in H as [H|H]; [discriminate|].
        apply list_elem_of_singleton in H. discriminate.
  - assert (Hn : c_clish_shell_loop ∉ trace (clish E cfg d cl)).
    { intros H. pose proof (stopped_no_shell_call E cfg d cl Hp) as Hall.
      rewrite Forall_forall in Hall. specialize (Hall _ H). discriminate. }
    assert (Hcl : w_closed (final (clish E cfg d cl)) = []).
    { rewrite (stopped_final E cfg d cl Hp). unfold parse_run.
      rewrite parse_frame by reflexivity.
      now destruct (started_streams cfg d) as (_ & _ & _ & H & _). }
    split; [intros H; now elim Hn|intros _; exact Hcl].
Qed.

Lemma dev_null_closed_after_loop_witness :
  w_closed (final (clish sample_env sample_config default_signals cl_quiet)) = [dev_null] /\
  w_closed (final (clish env_no_shell sample_config default_signals cl_quiet)) = [].
Proof.
  split.
  - apply (proj1 (dev_null_closed_after_loop sample_env sample_config default_signals
                    cl_quiet)).
    apply list_elem_of_In. vm_compute. repeat ((left; reflexivity) || right).
  - apply (proj2 (dev_null_closed_after_loop env_no_shell sample_config default_signals
                    cl_quiet)).
    intros H. apply list_elem_of_In in H. vm_compute in H.
    repeat (destruct H as [H|H]; [discriminate H|]). exact H.
Defined.

(** X15. In quiet mode a run that fails after the option validation and
    before the dispatch loop has opened [/dev/null] and returns -1 without
    closing it: [fclose(outfd)] is on the path through the loop only. *)
Theorem quiet_failure_leaves_stream_open (E : env) (cfg : config)
    (d : signal -> sighandler) (cl : cmdline) :
  parses (opts cl) = true ->
  given "u" (opts cl) && given "8" (opts cl) = false ->
  given "q" (opts cl) = true ->
  c_clish_shell_loop ∉ trace (clish E cfg d cl) ->
  c_fopen_dev_null ∈ trace (clish E cfg d cl) /\
  w_closed (final (clish E cfg d cl)) = [] /\
  ended (clish E cfg d cl) = Returns (-1).
Proof.
  intros Hp Hbad Hq Hn.
  destruct (parsed_outcome E cfg d cl Hp) as (_ & _ & _ & Hcl & _ & He & Hin).
  cbv zeta in Hcl, He, Hin. rewrite Hbad in Hcl, He, Hin.
  split.
  - rewrite (clish_parsed E cfg d cl Hp). cbn [trace].
    rewrite !elem_of_app. right. right.
    apply (open_in_run_shell E cfg cl); [exact Hbad|exact Hq].
  - rewrite Hcl, He.
    destruct (shell_new_ok E); cbn [negb] in *; [|split; reflexivity].
    destruct (shell_startup E _ _); cbn [negb] in *; [|split; reflexivity].
    elim Hn. now apply Hin.
Qed.

Lemma quiet_failure_leaves_stream_open_witness :
  c_fopen_dev_null ∈ trace (clish env_no_startup sample_config default_signals cl_quiet) /\
  w_closed (final (clish env_no_startup sample_config default_signals cl_quiet)) = [] /\
  ended (clish env_no_startup sample_config default_signals cl_quiet) = Returns (-1).
Proof.
  apply (quiet_failure_leaves_stream_open env_no_startup sample_config default_signals
           cl_quiet eq_refl eq_refl eq_refl).
  intros H. apply list_elem_of_In in H. vm_compute in H.
  repeat (destruct H as [H|H]; [discriminate H|]). exact H.
Defined.

End Reports.

(** ** The client: from the command line to the settings of the shell *)

Section Settings.
Import Clish.
Local Open Scope list_scope.
Variable E : env.
Variable cfg : config.

(** The configuration block, call by call. *)
Lemma configure_trace_eq (o : locals) :
  configure_trace E cfg o =
  [c_clish_shell_load_scheme (xml_path o); c_clish_shell__set_socket (socket_path o)]
  ++ (if lockless o then [c_clish_shell__set_lockfile None] else [])
  ++ (if interactive o then [] else [c_clish_shell__set_interactive false])
  ++ option_list (c_clish_shell__set_startup_view <$> view o)
  ++ option_list (c_clish_shell__set_startup_viewid <$> viewid o)
  ++ (if utf8 o || bit8 o then [c_clish_shell__set_utf8 (utf8 o)]
      else if HAVE_LANGINFO_CODESET cfg
           then c_nl_langinfo_CODESET
                :: (if String.eqb (nl_langinfo_CODESET E) "UTF-8"
                    then [c_clish_shell__set_utf8 true] else [])
           else [c_clish_shell__set_utf8 false]).
Proof.
  unfold configure_trace, configure_shell.
  destruct o as [sp ll soe ia q u8 b8 xp v vid]; simpl.
  destruct ll, ia, v, vid, u8, b8, (HAVE_LANGINFO_CODESET cfg);
    simpl; try destruct (nl_langinfo_CODESET E =? "UTF-8")%string; reflexivity.
Qed.

(** A selector of configuration calls, or of reads of the codeset, finds
    in a run that creates the shell what it finds in the configuration
    block. *)
Lemma select_configure {X} (f : action -> option X) (d : signal -> sighandler)
    (cl : cmdline) :
  (forall a, kind_of a <> KSetting -> a <> c_nl_langinfo_CODESET -> f a = None) ->
  parses (opts cl) = true ->
  given "u" (opts cl) && given "8" (opts cl) = false ->
  shell_new_ok E = true ->
  omap f (trace (clish E cfg d cl))
  = omap f (configure_trace E cfg (settled (opts cl) (locals0 E cfg))).
Proof.
  intros Hf Hp Hbad Hnew.
  assert (Hnone : forall tr,
            Forall (fun a => kind_of a <> KSetting /\ a <> c_nl_langinfo_CODESET) tr ->
            omap f tr = []).
  { intros tr Hall. apply omap_none. eapply Forall_impl; [exact Hall|].
    intros a [? ?]. now apply Hf. }
  rewrite (clish_parsed E cfg d cl Hp). cbn [trace]. rewrite !omap_app.
  rewrite (Hnone (startup_trace cfg)).
  2:{ unfold startup_trace. destruct (HAVE_LOCALE_H cfg); repeat constructor; discriminate. }
  rewrite (Hnone (trace (parse_run E cfg d cl))).
  2:{ eapply Forall_impl; [apply parse_trace_kinds|].
      intros a [->|Ha]; [split; discriminate|].
      destruct a; try discriminate Ha; split; discriminate. }
  cbn [app]. rewrite exec_run_shell.
  change (utf8 (settled (opts cl) (locals0 E cfg)) && bit8 (settled (opts cl) (locals0 E cfg)))
    with (given "u" (opts cl) && given "8" (opts cl)).
  rewrite Hbad, Hnew. cbv zeta. cbn [negb].
  set (o := settled (opts cl) (locals0 E cfg)).
  assert (Hopen : omap f (if quiet o then [c_fopen_dev_null] else []) = []).
  { apply Hnone. destruct (quiet o); repeat constructor; discriminate. }
  assert (Hclose : omap f (if quiet o then [c_fclose dev_null] else []) = []).
  { apply Hnone. destruct (quiet o); repeat constructor; discriminate. }
  assert (Hpush : omap f (push_trace cl (stop_on_error o)) = []).
  { apply Hnone. unfold push_trace. destruct (files cl) as [|x xs].
    - repeat constructor; discriminate.
    - apply Forall_forall. intros a Ha.
      apply list_elem_of_fmap in Ha as (y & -> & _). split; discriminate. }
  destruct (shell_startup E _ _); cbn [negb trace]; rewrite !omap_app.
  - rewrite Hopen, Hclose, Hpush.
    rewrite (Hnone [c_clish_shell_new _ _]) by (repeat constructor; discriminate).
    rewrite (Hnone [c_clish_shell_startup]) by (repeat constructor; discriminate).
    rewrite (Hnone [c_clish_shell_loop; c_clish_shell_delete])
      by (repeat constructor; discriminate).
    cbn [app]. now rewrite !app_nil_r.
  - rewrite Hopen.
    rewrite (Hnone [c_clish_shell_new _ _]) by (repeat constructor; discriminate).
    rewrite (Hnone [c_clish_shell_startup]) by (repeat constructor; discriminate).
    rewrite (Hnone [c_fprintf_stderr _; c_clish_shell_delete])
      by (repeat constructor; discriminate).
    cbn [app]. now rewrite !app_nil_r.
Qed.

Lemma given_chosen (c : ascii) (gs : list getopt_ret) :
  given c gs = match last_arg c gs with Some _ => true | None => false end.
Proof.
  induction gs as [|g gs IH]; [reflexivity|]. simpl. rewrite IH.
  destruct (last_arg c gs); [apply orb_true_r|].
  rewrite orb_false_r. now destruct (Ascii.eqb (opt g) c).
Qed.

(** An option loop that runs to its end performs nothing but stores of
    the dry-run callback. *)
Lemma parse_trace_stores (a0 : option string) (gs : list getopt_ret) (o : locals)
    (w : world) :
  parses gs = true ->
  Forall (fun a => kind_of a = KHook) (trace (exec E (parse_options cfg a0 gs o) w)).
Proof.
  revert o w. induction gs as [|[c arg] gs IH]; intros o w Hp; [constructor|].
  simpl in Hp. apply andb_true_iff in Hp as [Hc Hp].
  destruct (switch_cases c) as
    [->|[->|[->|[->|[->|[->|[->|[->|[->|[->|[->|[->|[->|Hother]]]]]]]]]]]]];
    try discriminate Hc; simpl; try (apply IH; exact Hp).
  - constructor; [reflexivity|]. apply IH. exact Hp.
  - destruct Hother as (H1&H2&H3&H4&H5&H6&H7&H8&H9&H10&H11&H12&H13).
    rewrite proceeds_other in Hc by assumption. discriminate.
Qed.

Lemma without_stores_app (t1 t2 : list action) :
  without_stores (t1 ++ t2) = without_stores t1 ++ without_stores t2.
Proof. apply filter_app. Qed.

Lemma without_stores_none (tr : list action) :
  Forall (fun a => kind_of a = KHook) tr -> without_stores tr = [].
Proof.
  induction 1 as [|a tr Ha _ IH]; [reflexivity|].
  unfold without_stores. rewrite filter_cons_False by (intros H; now apply H). exact IH.
Qed.

(** After the option loop the command line matters only through its file
    arguments. *)
Lemma run_shell_files (cl1 cl2 : cmdline) (o : locals) (w : world) :
  files cl1 = files cl2 ->
  exec E (run_shell cfg cl1 o) w = exec E (run_shell cfg cl2 o) w.
Proof.
  intros Hf. rewrite !exec_run_shell.
  unfold loaded_core, pushed_stack, push_trace. now rewrite Hf.
Qed.

Lemma settled_same (gs1 gs2 : list getopt_ret) (o : locals) :
  same_choices gs1 gs2 ->
  settled gs1 o = settled gs2 o /\ hooks_of gs1 = hooks_of gs2.
Proof.
  intros [Hf Hv]. simpl in Hf, Hv.
  repeat match goal with
         | H : Forall _ (_ :: _) |- _ => apply Forall_cons in H as [? H]
         end.
  unfold settled, hooks_of.
  repeat match goal with
         | H : given _ gs1 = _ |- _ => rewrite H; clear H
         | H : last_arg _ gs1 = _ |- _ => rewrite H; clear H
         end.
  split; reflexivity.
Qed.

(** What each selector finds in the configuration block. *)
Lemma configure_selected (o : locals) :
  loaded_schemes (configure_trace E cfg o) = [xml_path o] /\
  sockets_set (configure_trace E cfg o) = [socket_path o] /\
  lockfiles_set (configure_trace E cfg o) = (if lockless o then [None] else []) /\
  interactive_set (configure_trace E cfg o) = (if interactive o then [] else [false]) /\
  views_set (configure_trace E cfg o) = option_list (view o) /\
  viewids_set (configure_trace E cfg o) = option_list (viewid o) /\
  utf8_set (configure_trace E cfg o)
  = (if utf8 o || bit8 o then [utf8 o]
     else if HAVE_LANGINFO_CODESET cfg
          then (if String.eqb (nl_langinfo_CODESET E) "UTF-8" then [true] else [])
          else [false]) /\
  codeset_reads (configure_trace E cfg o)
  = (if utf8 o || bit8 o then []
     else if HAVE_LANGINFO_CODESET cfg then [tt] else []).
Proof.
  rewrite configure_trace_eq.
  destruct o as [sp ll soe ia q u8 b8 xp v vid]; simpl.
  destruct ll, ia, v, vid, u8, b8, (HAVE_LANGINFO_CODESET cfg);
    simpl; try destruct (nl_langinfo_CODESET E =? "UTF-8")%string;
    repeat split; reflexivity.
Qed.

End Settings.

Section Choices.
Import Clish.
Local Open Scope list_scope.

Ltac not_selected :=
  let a := fresh "a" in
  let H1 := fresh "H" in
  let H2 := fresh "H" in
  intros a H1 H2; destruct a; try reflexivity; solve [now elim H1 | now elim H2].

(** X16. The command line overrides the environment, and of a repeated
    option the last one counts: in a run that creates the shell, the XML
    path, the start view and the start view id handed to the shell are the
    argument of the last [-x], [-w] and [-i], or else the value of
    [CLISH_PATH], [CLISH_VIEW] and [CLISH_VIEWID]; a view or view id that
    is given by neither is not set at all, while the scheme is loaded even
    from a [NULL] path.  The socket path is the argument of the last [-s],
    or else the compiled-in default; the environment has no say in it. *)
Theorem options_override_environment (E : env) (cfg : config)
    (d : signal -> sighandler) (cl : cmdline) :
  parses (opts cl) = true ->
  given "u" (opts cl) && given "8" (opts cl) = false ->
  shell_new_ok E = true ->
  loaded_schemes (trace (clish E cfg d cl))
  = [chosen "x" (opts cl) (getenv E "CLISH_PATH")] /\
  views_set (trace (clish E cfg d cl))
  = option_list (chosen "w" (opts cl) (getenv E "CLISH_VIEW")) /\
  viewids_set (trace (clish E cfg d cl))
  = option_list (chosen "i" (opts cl) (getenv E "CLISH_VIEWID")) /\
  sockets_set (trace (clish E cfg d cl))
  = [default (KONFD_SOCKET_PATH cfg) (last_arg "s" (opts cl))].
Proof.
  intros Hp Hbad Hnew.
  destruct (configure_selected E cfg (settled (opts cl) (locals0 E cfg)))
    as (H1 & H2 & _ & _ & H5 & H6 & _).
  unfold loaded_schemes, views_set, viewids_set, sockets_set in *.
  rewrite !(select_configure E cfg _ d cl) by (assumption || not_selected).
  rewrite H1, H2, H5, H6. repeat split; reflexivity.
Qed.

Lemma options_override_environment_witness :
  loaded_schemes (trace (clish env_vars sample_config default_signals cl_opts))
  = [Some "/xml"%string] /\
  views_set (trace (clish env_vars sample_config default_signals cl_opts))
  = ["root-view"%string] /\
  viewids_set (trace (clish env_vars sample_config default_signals cl_opts))
  = ["7"%string] /\
  sockets_set (trace (clish env_vars sample_config default_signals cl_opts))
  = ["/b"%string].
Proof.
  exact (options_override_environment env_vars sample_config default_signals cl_opts
           eq_refl eq_refl eq_refl).
Defined.

(** X17. The encoding handed to the shell: with [-u] the shell is set to
    UTF-8, with [-8] to 8-bit, and the locale is not consulted.  With
    neither, a build with [nl_langinfo] reads the codeset once and sets
    UTF-8 when it is [UTF-8], and otherwise makes no call at all, leaving
    the shell's own default; a build without it sets 8-bit. *)
Theorem encoding_selection (E : env) (cfg : config) (d : signal -> sighandler)
    (cl : cmdline) :
  parses (opts cl) = true ->
  given "u" (opts cl) && given "8" (opts cl) = false ->
  shell_new_ok E = true ->
  utf8_set (trace (clish E cfg d cl))
  = (if given "u" (opts cl) then [true]
     else if given "8" (opts cl) then [false]
     else if HAVE_LANGINFO_CODESET cfg
          then (if String.eqb (nl_langinfo_CODESET E) "UTF-8" then [true] else [])
          else [false]) /\
  codeset_reads (trace (clish E cfg d cl))
  = (if given "u" (opts cl) || given "8" (opts cl) then []
     else if HAVE_LANGINFO_CODESET cfg then [tt] else []).
Proof.
  intros Hp Hbad Hnew.
  destruct (configure_selected E cfg (settled (opts cl) (locals0 E cfg)))
    as (_ & _ & _ & _ & _ & _ & H7 & H8).
  unfold utf8_set, codeset_reads in *.
  rewrite !(select_configure E cfg _ d cl) by (assumption || not_selected).
  rewrite H7, H8.
  change (utf8 (settled (opts cl) (locals0 E cfg))) with (given "u" (opts cl)).
  change (bit8 (settled (opts cl) (locals0 E cfg))) with (given "8" (opts cl)).
  destruct (given "u" (opts cl)), (given "8" (opts cl)); try discriminate Hbad;
    split; reflexivity.
Qed.

Lemma encoding_selection_witness :
  utf8_set (trace (clish env_vars sample_config default_signals cl_8bit)) = [false] /\
  codeset_reads (trace (clish env_vars sample_config default_signals cl_8bit)) = [] /\
  utf8_set (trace (clish env_vars sample_config default_signals cl_plain)) = [] /\
  codeset_reads (trace (clish env_vars sample_config default_signals cl_plain)) = [tt].
Proof.
  destruct (encoding_selection env_vars sample_config default_signals cl_8bit
              eq_refl eq_refl eq_refl) as [H1 H2].
  destruct (encoding_selection env_vars sample_config default_signals cl_plain
              eq_refl eq_refl eq_refl) as [H3 H4].
  split; [exact H1|]. split; [exact H2|]. split; [exact H3|exact H4].
Defined.

(** X18. The mode flags: in a run that creates the shell, the lock file
    is set to [NULL] exactly when [-l] was given, interactive mode is
    switched off exactly when [-b] was given and is never switched on, and
    the shell is created with the stop-on-error flag of [-e] on the
    standard output, or on [/dev/null] with [-q]. *)
Theorem mode_flags (E : env) (cfg : config) (d : signal -> sighandler) (cl : cmdline) :
  parses (opts cl) = true ->
  given "u" (opts cl) && given "8" (opts cl) = false ->
  shell_new_ok E = true ->
  lockfiles_set (trace (clish E cfg d cl))
  = (if given "l" (opts cl) then [None] else []) /\
  interactive_set (trace (clish E cfg d cl))
  = (if given "b" (opts cl) then [false] else []) /\
  head (shell_calls (trace (clish E cfg d cl)))
  = Some (c_clish_shell_new (if given "q" (opts cl) then dev_null else stdout)
            (given "e" (opts cl))).
Proof.
  intros Hp Hbad Hnew.
  destruct (configure_selected E cfg (settled (opts cl) (locals0 E cfg)))
    as (_ & _ & H3 & H4 & _).
  destruct (parsed_outcome E cfg d cl Hp) as (Hc & _). cbv zeta in Hc.
  rewrite Hbad, Hnew in Hc. cbn [negb] in Hc.
  split; [|split].
  - unfold lockfiles_set in *.
    rewrite (select_configure E cfg _ d cl) by (assumption || not_selected).
    rewrite H3. reflexivity.
  - unfold interactive_set in *.
    rewrite (select_configure E cfg _ d cl) by (assumption || not_selected).
    rewrite H4.
    change (interactive (settled (opts cl) (locals0 E cfg)))
      with (negb (given "b" (opts cl))).
    now destruct (given "b" (opts cl)).
  - rewrite Hc. now destruct (negb (shell_startup E _ _)).
Qed.

Lemma mode_flags_witness :
  lockfiles_set (trace (clish env_vars sample_config default_signals cl_opts)) = [None] /\
  interactive_set (trace (clish env_vars sample_config default_signals cl_opts)) = [false] /\
  head (shell_calls (trace (clish env_vars sample_config default_signals cl_opts)))
  = Some (c_clish_shell_new stdout true).
Proof.
  exact (mode_flags env_vars sample_config default_signals cl_opts
           eq_refl eq_refl eq_refl).
Defined.

(** X19. The order and the number of the options do not matter: two
    command lines whose option loops run to their ends, with the same
    file arguments, the same flags given and the same last value for each
    option that takes one, end the same way in the same world, and differ
    at most in how often the dry-run callback is stored. *)
Theorem option_order_irrelevant (E : env) (cfg : config) (d : signal -> sighandler)
    (cl1 cl2 : cmdline) :
  parses (opts cl1) = true -> parses (opts cl2) = true ->
  files cl1 = files cl2 ->
  same_choices (opts cl1) (opts cl2) ->
  ended (clish E cfg d cl1) = ended (clish E cfg d cl2) /\
  final (clish E cfg d cl1) = final (clish E cfg d cl2) /\
  without_stores (trace (clish E cfg d cl1)) = without_stores (trace (clish E cfg d cl2)).
Proof.
  intros Hp1 Hp2 Hfiles Hsame.
  destruct (settled_same (opts cl1) (opts cl2) (locals0 E cfg) Hsame) as [Hs Hh].
  assert (Hw : parsed_world cfg d (opts cl1) = parsed_world cfg d (opts cl2)).
  { unfold parsed_world. now rewrite Hh. }
  rewrite (clish_parsed E cfg d cl1 Hp1), (clish_parsed E cfg d cl2 Hp2).
  cbn [ended final trace].
  rewrite Hs, Hw, (run_shell_files E cfg cl1 cl2 _ _ Hfiles).
  split; [reflexivity|]. split; [reflexivity|].
  rewrite !without_stores_app.
  rewrite (without_stores_none (trace (parse_run E cfg d cl1)))
    by (apply parse_trace_stores; exact Hp1).
  rewrite (without_stores_none (trace (parse_run E cfg d cl2)))
    by (apply parse_trace_stores; exact Hp2).
  reflexivity.
Qed.

Lemma option_order_irrelevant_witness :
  ended (clish sample_env sample_config default_signals cl_flags)
  = ended (clish sample_env sample_config default_signals cl_flags_again) /\
  final (clish sample_env sample_config default_signals cl_flags)
  = final (clish sample_env sample_config default_signals cl_flags_again) /\
  without_stores (trace (clish sample_env sample_config default_signals cl_flags))
  = without_stores (trace (clish sample_env sample_config default_signals cl_flags_again)).
Proof.
  apply (option_order_irrelevant sample_env sample_config default_signals
           cl_flags cl_flags_again eq_refl eq_refl eq_refl).
  split; repeat constructor.
Defined.

(** X20. The locale comes before the codeset: in a build with
    [locale.h], whenever a run reads the codeset of the locale to detect
    the encoding, it has called [setlocale(LC_ALL, "")] before, so the
    codeset it reads is that of the user's environment and not that of
    the initial "C" locale. *)
Theorem locale_before_codeset (E : env) (cfg : config) (d : signal -> sighandler)
    (cl : cmdline) (t1 t2 : list action) :
  HAVE_LOCALE_H cfg = true ->
  trace (clish E cfg d cl) = t1 ++ c_nl_langinfo_CODESET :: t2 ->
  c_setlocale_LC_ALL ∈ t1.
Proof.
  intros Hl Htr.
  destruct (clish_trace_split E cfg d cl) as (rest & Hsplit & _).
  rewrite Hsplit, <- app_assoc in Htr.
  assert (Hin : c_setlocale_LC_ALL ∈ startup_trace cfg).
  { unfold startup_trace. rewrite Hl. apply list_elem_of_In. simpl. tauto. }
  assert (Hnot : c_nl_langinfo_CODESET ∉ startup_trace cfg).
  { unfold startup_trace. rewrite Hl. intros H.
    apply list_elem_of_In in H. simpl in H.
    repeat (destruct H as [H|H]; [discriminate H|]). exact H. }
  symmetry in Htr. apply app_eq_inv in Htr as [(k & Hk & _)|(k & Hk & Hk')].
  - rewrite Hk. apply elem_of_app. now left.
  - destruct k as [|a k].
    + rewrite app_nil_r in Hk. now rewrite <- Hk.
    + exfalso. apply Hnot. rewrite Hk.
      simpl in Hk'. inversion Hk'; subst. apply elem_of_app. right. left.
Qed.

Lemma locale_before_codeset_witness :
  c_setlocale_LC_ALL
  ∈ [c_getenv "CLISH_PATH"; c_getenv "CLISH_VIEW"; c_getenv "CLISH_VIEWID";
     c_sigaction SIGPIPE sigpipe_act; c_setlocale_LC_ALL;
     c_clish_shell_new stdout false; c_clish_shell_load_scheme None;
     c_clish_shell__set_socket "/tmp/.konfd.socket"].
Proof.
  apply (locale_before_codeset sample_env sample_config default_signals cl_plain _
           [c_clish_shell__set_utf8 true; c_clish_shell_startup; c_fdopen_dup_stdin;
            c_clish_shell_push_fd stdin_dup false; c_clish_shell_loop;
            c_clish_shell_delete]); reflexivity.
Defined.

End Choices.

(** ** The client: the other signals *)

Section OtherSignals.
Import Clish.
Local Open Scope list_scope.

(** X21. [main] touches the disposition of [SIGPIPE] only: at the end of
    every run, however it ends, every other signal has the disposition
    the process started with. *)
Theorem other_signals_untouched (E : env) (cfg : config) (d : signal -> sighandler)
    (cl : cmdline) (sig : signal) :
  sig <> SIGPIPE ->
  w_sig (final (clish E cfg d cl)) sig = d sig.
Proof.
  intros Hsig. rewrite clish_after_sigaction. cbn [final].
  rewrite (only_frame E (fun a => kind_of a <> KSignal) (fun w => w_sig w sig)).
  - unfold sigaction. simpl. now destruct (decide (sig = SIGPIPE)).
  - intros a w' Ha. now rewrite handle_sig.
  - apply after_sigaction_only.
Qed.

Lemma other_signals_untouched_witness :
  w_sig (final (clish sample_env sample_config default_signals cl_files)) SIGTERM = SIG_DFL.
Proof.
  apply (other_signals_untouched sample_env sample_config default_signals cl_files SIGTERM).
  discriminate.
Defined.

End OtherSignals.
